(** * Folder analyzer: scanning, reading, annotating and aggregating files

    A shallow embedding of the file-discovery-and-normalisation core of the
    folder analyzer ([file_analyzer.py], [agents_file_analyzer.py] and its
    Azure twin), followed by the properties the specification states about
    it.

    Conventions.
    - A Python [str] is a list of Unicode code points ([Z]); [len] is
      [length].  File contents are lists of [byte].
    - Calls into the operating system ([open], [stat], directory walks) read
      an explicit description of the file system that is passed in.
    - A function that can raise returns a [result]. *)

From Stdlib.Strings Require Import String Ascii Byte.
From Stdlib Require Import ZArith List Bool Lia.
From Stdlib Require Import Permutation Sorted.
Import ListNotations.
Local Open Scope Z_scope.

Set Implicit Arguments.

(* ================================================================== *)
(** ** Text *)

Module Text.

(** A character is a Unicode code point. *)
Definition char := Z.
Definition str := list char.

Definition chr (a : ascii) : char := Z.of_N (N_of_ascii a).
Definition byte_val (b : byte) : Z := Z.of_N (Byte.to_N b).

Definition in_range (lo hi x : Z) : bool := (lo <=? x) && (x <=? hi).

(** Continuation byte [0x80..0xBF]. *)
Definition cont (b : Z) : bool := in_range 128 191 b.

(** Strict UTF-8 decoding (the well-formed byte sequences of the Unicode
    standard: no overlong forms, no surrogates, nothing above U+10FFFF),
    as the ['utf-8'] codec does it.  [None] is [UnicodeDecodeError]. *)
Fixpoint utf8_decode (bs : list Z) : option str :=
  match bs with
  | [] => Some []
  | b0 :: t0 =>
    if in_range 0 127 b0 then option_map (cons b0) (utf8_decode t0)
    else if in_range 194 223 b0 then
      match t0 with
      | b1 :: t1 =>
        if cont b1
        then option_map (cons ((b0 - 192) * 64 + (b1 - 128))) (utf8_decode t1)
        else None
      | _ => None
      end
    else if in_range 224 239 b0 then
      match t0 with
      | b1 :: b2 :: t2 =>
        if in_range (if b0 =? 224 then 160 else 128)
                    (if b0 =? 237 then 159 else 191) b1 && cont b2
        then option_map
               (cons ((b0 - 224) * 4096 + (b1 - 128) * 64 + (b2 - 128)))
               (utf8_decode t2)
        else None
      | _ => None
      end
    else if in_range 240 244 b0 then
      match t0 with
      | b1 :: b2 :: b3 :: t3 =>
        if in_range (if b0 =? 240 then 144 else 128)
                    (if b0 =? 244 then 143 else 191) b1 && cont b2 && cont b3
        then option_map
               (cons ((b0 - 240) * 262144 + (b1 - 128) * 4096
                      + (b2 - 128) * 64 + (b3 - 128)))
               (utf8_decode t3)
        else None
      | _ => None
      end
    else None
  end.

(** A string literal of the source, read as the source file is: UTF-8. *)
Definition lit (s : string) : str :=
  match utf8_decode (map byte_val (list_byte_of_string s)) with
  | Some t => t
  | None => []
  end.

(** [s[:n]] for any integer [n]: a negative bound counts from the end. *)
Definition slice_to (s : str) (n : Z) : str :=
  if 0 <=? n then firstn (Z.to_nat n) s
  else firstn (Z.to_nat (Z.of_nat (length s) + n)) s.

(** [len(s)] *)
Definition len (s : str) : Z := Z.of_nat (length s).

(** Comparison of two strings as Python compares them: code point by code
    point, a proper prefix being smaller. *)
Fixpoint compare (a b : str) : comparison :=
  match a, b with
  | [], [] => Eq
  | [], _ :: _ => Lt
  | _ :: _, [] => Gt
  | x :: a', y :: b' =>
    match Z.compare x y with
    | Eq => compare a' b'
    | c => c
    end
  end.

Definition ltb (a b : str) : bool :=
  match compare a b with Lt => true | _ => false end.
Definition leb (a b : str) : bool :=
  match compare a b with Gt => false | _ => true end.

Fixpoint eqb (a b : str) : bool :=
  match a, b with
  | [], [] => true
  | x :: a', y :: b' => (x =? y) && eqb a' b'
  | _, _ => false
  end.

(** [str.lower]: the ASCII letters are mapped here.  The lower-case
    mapping of a code point outside ASCII comes from the Unicode database
    and can depend on the characters around it (a capital sigma is lowered
    to its final form at the end of a word), though not on the case of
    ASCII letters; one code point can map to several.  It is the parameter
    [U], which gets the text with its ASCII letters lowered and the place of
    the character in it. *)
Definition lower_ascii (c : char) : char :=
  if in_range 65 90 c then c + 32 else c.
Fixpoint lower_from (U : str -> nat -> str) (whole : str) (i : nat) (s : str)
  : str :=
  match s with
  | [] => []
  | c :: s' =>
    (if in_range 0 127 c then [lower_ascii c] else U whole i)
    ++ lower_from U whole (S i) s'
  end.
Definition lower (U : str -> nat -> str) (s : str) : str :=
  lower_from U (map lower_ascii s) 0 s.

End Text.

Import Text.

(* ================================================================== *)
(** ** Regular-expression substitution ([re.sub]) *)

Module Re.

(** A bracket expression: the listed ranges, or their complement. *)
Record charset := CharSet { negated : bool; ranges : list (char * char) }.

Definition in_set (cs : charset) (c : char) : bool :=
  xorb (negated cs)
       (existsb (fun r => in_range (fst r) (snd r) c) (ranges cs)).

(** The part of the pattern language the three rules are written in:
    literal characters, bracket expressions, the greedy [+] of a bracket
    expression, a capturing group and concatenation. *)
Inductive regex :=
| Lit (c : char)
| Any (cs : charset)
| Plus (cs : charset)
| Group (r : regex)
| Seq (r1 r2 : regex).

(** [X+] followed by [k]: take one character of [X], then as many more as
    possible, giving characters back one at a time until [k] succeeds. *)
Fixpoint plus_then {X} (cs : charset) (s : str) (k : str -> option X)
  : option X :=
  match s with
  | c :: s' =>
    if in_set cs c then
      match plus_then cs s' k with
      | Some x => Some x
      | None => k s'
      end
    else None
  | [] => None
  end.

(** Backtracking match of [r] at the start of [s]; [g] collects the text
    of the groups closed so far, [k] is the rest of the match. *)
Fixpoint match_here {X} (r : regex) (s : str) (g : list str)
         (k : str -> list str -> option X) : option X :=
  match r with
  | Lit c =>
    match s with
    | c' :: s' => if c' =? c then k s' g else None
    | [] => None
    end
  | Any cs =>
    match s with
    | c' :: s' => if in_set cs c' then k s' g else None
    | [] => None
    end
  | Plus cs => plus_then cs s (fun s' => k s' g)
  | Group r1 =>
    match_here r1 s g
      (fun s' g' => k s' (g' ++ [firstn (length s - length s') s]))
  | Seq r1 r2 =>
    match_here r1 s g (fun s' g' => match_here r2 s' g' k)
  end.

(** The match starting exactly at the head of [s]: what is left of [s]
    after it, and the groups. *)
Definition match_at (r : regex) (s : str) : option (str * list str) :=
  match_here r s [] (fun s' g => Some (s', g)).

(** A parsed replacement template. *)
Inductive titem :=
| TLit (c : char)
| TGroup (n : nat).

Definition backslash : char := 92.

Definition digit_of (c : char) : option nat :=
  if in_range 49 57 c then Some (Z.to_nat (c - 48)) else None.

(** Parsing of a replacement template: a backslash followed by a digit
    refers to a group, two backslashes stand for one backslash, every
    other character stands for itself.  (The templates of this program
    use no other escape.) *)
Fixpoint parse_template (t : str) : list titem :=
  match t with
  | [] => []
  | c :: t' =>
    if c =? backslash then
      match t' with
      | d :: t'' =>
        match digit_of d with
        | Some n => TGroup n :: parse_template t''
        | None =>
          if d =? backslash then TLit backslash :: parse_template t''
          else TLit backslash :: TLit d :: parse_template t''
        end
      | [] => [TLit backslash]
      end
    else TLit c :: parse_template t'
  end.

Fixpoint expand (tpl : list titem) (g : list str) : str :=
  match tpl with
  | [] => []
  | TLit c :: tpl' => c :: expand tpl' g
  | TGroup n :: tpl' => nth (pred n) g [] ++ expand tpl' g
  end.

(** Left-to-right scan of [re.sub]: [skip] counts the characters of the
    current match that are still to be passed over.  At a position where
    the pattern matches, the expanded template is emitted and the scan
    resumes after the match; elsewhere the character is copied.  (No
    pattern of this program matches the empty string.) *)
Fixpoint scan (r : regex) (tpl : list titem) (s : str) (skip : nat) : str :=
  match s with
  | [] => []
  | c :: s' =>
    match skip with
    | S n => scan r tpl s' n
    | O =>
      match match_at r s with
      | Some (rest, g) =>
        match (length s - length rest)%nat with
        | S m => expand tpl g ++ scan r tpl s' m
        | O => c :: scan r tpl s' 0
        end
      | None => c :: scan r tpl s' 0
      end
    end
  end.

(** [re.sub(pattern, repl, s)] *)
Definition sub (r : regex) (repl : str) (s : str) : str :=
  scan r (parse_template repl) s 0.

End Re.

(* ================================================================== *)
(** ** The note annotator *)

Module Annotator.
Import Re.

Definition set_of (neg : bool) (rs : list (ascii * ascii)) : charset :=
  CharSet neg (map (fun r => (chr (fst r), chr (snd r))) rs).

Local Open Scope char_scope.

(** [\[\[([^\]]+)\]\]] *)
Definition link_pattern : regex :=
  Seq (Lit (chr "[")) (Seq (Lit (chr "["))
    (Seq (Group (Plus (set_of true [("]", "]")])))
      (Seq (Lit (chr "]")) (Lit (chr "]"))))).

(** [#([a-zA-Z0-9_\-/]+)] *)
Definition tag_pattern : regex :=
  Seq (Lit (chr "#"))
      (Group (Plus (set_of false
         [("a", "z"); ("A", "Z"); ("0", "9"); ("_", "_"); ("-", "-");
          ("/", "/")]))).

(** [\^([a-zA-Z0-9\-]+)] *)
Definition anchor_pattern : regex :=
  Seq (Lit (chr "^"))
      (Group (Plus (set_of false
         [("a", "z"); ("A", "Z"); ("0", "9"); ("-", "-")]))).

Local Open Scope string_scope.

(** The three replacement strings, as the source writes them (raw
    strings: a backslash is a backslash). *)
Definition link_repl : str := lit "[[\1]]（Obsidianリンク）".
Definition tag_repl : str := lit "#\1（Obsidianタグ）".
Definition anchor_repl : str := lit "^\\1（ブロック参照）".

(** The markers the rules are meant to append. *)
Definition link_marker : str := lit "（Obsidianリンク）".
Definition tag_marker : str := lit "（Obsidianタグ）".
Definition anchor_marker : str := lit "（ブロック参照）".

(** [FileAnalyzer._process_obsidian_markdown]; the same three statements
    are inlined in [read_file_content] of the two agent modules. *)
Definition process_obsidian_markdown (content : str) : str :=
  let content := sub link_pattern link_repl content in
  let content := sub tag_pattern tag_repl content in
  let content := sub anchor_pattern anchor_repl content in
  content.

End Annotator.

(* ================================================================== *)
(** ** Results of calls that can raise *)

Inductive result (E A : Type) :=
| Ok (a : A)
| Raise (e : E).
Arguments Ok {E A} a.
Arguments Raise {E A} e.

(* ================================================================== *)
(** ** Character encodings *)

Module Codecs.

Inductive encoding := utf_8 | shift_jis | cp932 | latin1 | utf_16.

Local Open Scope string_scope.
Definition encoding_name (e : encoding) : str :=
  match e with
  | utf_8 => lit "utf-8"
  | shift_jis => lit "shift_jis"
  | cp932 => lit "cp932"
  | latin1 => lit "latin1"
  | utf_16 => lit "utf-16"
  end.
Local Close Scope string_scope.

(** The two Japanese codecs and the Unicode lower-case mapping are
    tables of the interpreter; they are parameters of the development. *)
Record tables := Tables {
  shift_jis_decode : list Z -> option str;
  cp932_decode : list Z -> option str;
  unicode_lower : str -> nat -> str
}.

(** ['latin1']: every byte is the code point of the same value. *)
Definition latin1_decode (bs : list Z) : option str := Some bs.

(** ['utf-16'] as a text file is read with it: 16-bit units in the order
    the byte-order mark announces, surrogate pairs combined.  An odd byte or
    an unpaired surrogate is an error, and so is a text that does not start
    with a byte-order mark; the empty file is the empty text. *)
Fixpoint utf16_units (little : bool) (bs : list Z) : option (list Z) :=
  match bs with
  | [] => Some []
  | [_] => None
  | a :: b :: t =>
    option_map (cons (if little then a + 256 * b else 256 * a + b))
               (utf16_units little t)
  end.

Fixpoint utf16_chars (us : list Z) : option str :=
  match us with
  | [] => Some []
  | u :: t =>
    if in_range 55296 56319 u then          (* D800..DBFF *)
      match t with
      | v :: t' =>
        if in_range 56320 57343 v           (* DC00..DFFF *)
        then option_map (cons (65536 + (u - 55296) * 1024 + (v - 56320)))
                        (utf16_chars t')
        else None
      | [] => None
      end
    else if in_range 56320 57343 u then None
    else option_map (cons u) (utf16_chars t)
  end.

Definition utf16_decode (bs : list Z) : option str :=
  let units :=
    match bs with
    | [] => Some []
    | 255 :: 254 :: t => utf16_units true t
    | 254 :: 255 :: t => utf16_units false t
    | _ => None
    end in
  match units with
  | Some us => utf16_chars us
  | None => None
  end.

Definition decode (T : tables) (e : encoding) (bs : list byte)
  : option str :=
  let bs := map byte_val bs in
  match e with
  | utf_8 => utf8_decode bs
  | shift_jis => shift_jis_decode T bs
  | cp932 => cp932_decode T bs
  | latin1 => latin1_decode bs
  | utf_16 => utf16_decode bs
  end.

(** Text mode with the default [newline=None]: ["\r\n"] and a lone
    ["\r"] are read as ["\n"]. *)
Fixpoint universal_newlines (s : str) : str :=
  match s with
  | [] => []
  | c :: s' =>
    if c =? 13 then
      match s' with
      | d :: _ => if d =? 10 then universal_newlines s'
                  else 10 :: universal_newlines s'
      | [] => [10]
      end
    else c :: universal_newlines s'
  end.

(** An interpreter built without the Japanese codecs (looking one up
    fails, which the reader treats like any other failed attempt) and
    leaving the code points outside ASCII as they are. *)
Definition plain : tables :=
  Tables (fun _ => None) (fun _ => None)
         (fun whole i => match nth_error whole i with
                         | Some c => [c]
                         | None => []
                         end).

(** The characters of one byte of the two Japanese codecs, as the stock
    interpreter decodes them: ASCII and the half-width katakana [A1..DF] in
    both, and in cp932 also the bytes [80], [A0], [FD], [FE] and [FF]. *)
Definition one_byte_char (cp932 : bool) (b : Z) : option char :=
  if in_range 0 127 b then Some b
  else if in_range 161 223 b then Some (65377 + (b - 161))
  else if cp932 then
    if b =? 128 then Some 128
    else if b =? 160 then Some 63728
    else if in_range 253 255 b then Some (63729 + (b - 253))
    else None
  else None.

Fixpoint one_byte_decode (cp932 : bool) (bs : list Z) : option str :=
  match bs with
  | [] => Some []
  | b :: bs' =>
    match one_byte_char cp932 b, one_byte_decode cp932 bs' with
    | Some c, Some s => Some (c :: s)
    | _, _ => None
    end
  end.

(** The stock interpreter on files without two-byte characters: a byte
    that can only start a two-byte character is an error, which is what the
    stock codecs answer when such a byte ends the file. *)
Definition one_byte : tables :=
  Tables (one_byte_decode false) (one_byte_decode true)
         (unicode_lower plain).

End Codecs.

(* ================================================================== *)
(** ** The file system as one call sees it *)

Module FS.
Import Codecs.

(** What [open] and [read] raise: a decoding error, or any other
    exception with its [str(e)]. *)
Inductive read_exn :=
| UnicodeDecodeError
| OtherError (msg : str).

(** What an [open(path).read()] finds. *)
Inductive file_state :=
| Unreadable (msg : str)         (* missing, a directory, no permission: [str(e)] *)
| Contents (bytes : list byte).

(** The files at the time of the [n]-th [open] of a call. *)
Definition files := nat -> str -> file_state.

(** [with open(path, 'r', encoding=e) as f: content = f.read()] as the
    [n]-th [open] of the call. *)
Definition open_read (T : tables) (fs : files) (n : nat) (path : str)
           (e : encoding) : result read_exn str :=
  match fs n path with
  | Unreadable msg => Raise (OtherError msg)
  | Contents bs =>
    match decode T e bs with
    | Some text => Ok (universal_newlines text)
    | None => Raise UnicodeDecodeError
    end
  end.

End FS.

(* ================================================================== *)
(** ** [pathlib] *)

Module PathLib.

Definition slash : char := 47.
Definition dot : char := 46.

(** [s.split(sep)] for a one-character separator. *)
Fixpoint split (sep : char) (s : str) : list str :=
  match s with
  | [] => [[]]
  | c :: s' =>
    if c =? sep then [] :: split sep s'
    else match split sep s' with
         | w :: ws => (c :: w) :: ws
         | [] => [[c]]
         end
  end.

(** The components of a POSIX path: empty components and ["."] are
    dropped. *)
Definition parts (p : str) : list str :=
  filter (fun w => negb (Text.eqb w [] || Text.eqb w [dot])) (split slash p).

(** [Path(p).name] *)
Definition name (p : str) : str := last (parts p) [].

(** [s.rfind(c)]: the index of the last occurrence, [-1] if there is
    none. *)
Fixpoint rfind (c : char) (s : str) : Z :=
  match s with
  | [] => -1
  | x :: s' =>
    let r := rfind c s' in
    if 0 <=? r then r + 1 else if x =? c then 0 else -1
  end.

(** [Path(p).suffix]: from the last dot of the name on, unless that dot
    starts or ends the name. *)
Definition suffix (p : str) : str :=
  let n := name p in
  let i := rfind dot n in
  if (0 <? i) && (i <? len n - 1) then skipn (Z.to_nat i) n else [].

Fixpoint join (ws : list str) : str :=
  match ws with
  | [] => []
  | [w] => w
  | w :: ws' => w ++ slash :: join ws'
  end.

Fixpoint leading_slashes (p : str) : nat :=
  match p with
  | c :: p' => if c =? slash then S (leading_slashes p') else O
  | [] => O
  end.

(** [str(Path(p))]: the root (two leading slashes are kept, any other
    number is one), then the components joined by one slash; the empty
    path is ["."]. *)
Definition to_str (p : str) : str :=
  let root :=
    match leading_slashes p with
    | O => []
    | 2%nat => [slash; slash]
    | _ => [slash]
    end in
  match root, parts p with
  | [], [] => [dot]
  | _, ws => root ++ join ws
  end.

(** [str(Path(dir) / name)] for [dir] already in the form [to_str] gives
    and [name] an entry of the directory. *)
Definition child (dir name : str) : str :=
  if Text.eqb dir [dot] then name
  else if Text.eqb (skipn (length dir - 1) dir) [slash] then dir ++ name
  else dir ++ slash :: name.

End PathLib.

(* ================================================================== *)
(** ** [datetime] *)

Module DateTime.

(** A naive [datetime] object. *)
Record datetime := DT {
  year : Z; month : Z; day : Z;
  hour : Z; minute : Z; second : Z; microsecond : Z
}.

Definition is_leap (y : Z) : bool :=
  (y mod 4 =? 0) && (negb (y mod 100 =? 0) || (y mod 400 =? 0)).

Definition days_before_year (y : Z) : Z :=
  let y := y - 1 in y * 365 + y / 4 - y / 100 + y / 400.

Definition DAYS_IN_MONTH (m : Z) : Z :=
  nth (Z.to_nat m) [-1; 31; 28; 31; 30; 31; 30; 31; 31; 30; 31; 30; 31] 0.

Definition DAYS_BEFORE_MONTH (m : Z) : Z :=
  nth (Z.to_nat m)
      [-1; 0; 31; 59; 90; 120; 151; 181; 212; 243; 273; 304; 334] 0.

Definition days_in_month (y m : Z) : Z :=
  if (m =? 2) && is_leap y then 29 else DAYS_IN_MONTH m.

Definition days_before_month (y m : Z) : Z :=
  DAYS_BEFORE_MONTH m + (if (2 <? m) && is_leap y then 1 else 0).

(** [date.toordinal]: 1 is 0001-01-01. *)
Definition ymd2ord (y m d : Z) : Z :=
  days_before_year y + days_before_month y m + d.

(** [date.fromordinal] *)
Definition ord2ymd (n : Z) : Z * Z * Z :=
  let n := n - 1 in
  let n400 := n / 146097 in
  let n := n mod 146097 in
  let y := n400 * 400 + 1 in
  let n100 := n / 36524 in
  let n := n mod 36524 in
  let n4 := n / 1461 in
  let n := n mod 1461 in
  let n1 := n / 365 in
  let n := n mod 365 in
  let y := y + n100 * 100 + n4 * 4 + n1 in
  if (n1 =? 4) || (n100 =? 4) then (y - 1, 12, 31)
  else
    let leapyear := (n1 =? 3) && (negb (n4 =? 24) || (n100 =? 3)) in
    let m := (n + 50) / 32 in
    let preceding :=
      DAYS_BEFORE_MONTH m + (if (2 <? m) && leapyear then 1 else 0) in
    if n <? preceding then
      let m := m - 1 in
      let preceding :=
        preceding
        - (DAYS_IN_MONTH m + (if (m =? 2) && leapyear then 1 else 0)) in
      (y, m, n - preceding + 1)
    else (y, m, n - preceding + 1).

Definition MAXORDINAL : Z := 3652059.

(** What a scan raises: the [ValueError] of its guard, the
    [OverflowError] of the date arithmetic, and the [OSError]
    ([PermissionError] and the like) of a path that cannot be examined,
    with its [str(e)]. *)
Inductive scan_exn :=
| ValueError (msg : str)
| OverflowError
| OSError (msg : str).

(** [d - timedelta(days=days)]: the date moves by whole days, the time of
    day stays; [OverflowError] when the time span or the date leaves the
    supported range. *)
Definition sub_days (d : datetime) (days : Z) : result scan_exn datetime :=
  if 999999999 <? Z.abs days then Raise OverflowError
  else
    let o := ymd2ord (year d) (month d) (day d) - days in
    if (0 <? o) && (o <=? MAXORDINAL) then
      let '(y, m, dd) := ord2ymd o in
      Ok (DT y m dd (hour d) (minute d) (second d) (microsecond d))
    else Raise OverflowError.

(** Comparison of two naive datetimes: field by field. *)
Fixpoint lex (a b : list Z) : comparison :=
  match a, b with
  | x :: a', y :: b' =>
    match Z.compare x y with
    | Eq => lex a' b'
    | c => c
    end
  | _, _ => Eq
  end.

Definition fields (d : datetime) : list Z :=
  [year d; month d; day d; hour d; minute d; second d; microsecond d].

Definition compare (a b : datetime) : comparison := lex (fields a) (fields b).

(** [a > b] *)
Definition gtb (a b : datetime) : bool :=
  match compare a b with Gt => true | _ => false end.

(** ["%0wd" % n] for [0 <= n < 10^w]. *)
Fixpoint digits (w : nat) (n : Z) : str :=
  match w with
  | O => []
  | S w' => digits w' (n / 10) ++ [48 + n mod 10]
  end.

Local Open Scope string_scope.

(** [d.isoformat()]: [YYYY-MM-DDTHH:MM:SS], followed by [.ffffff] when the
    microseconds are not zero. *)
Definition isoformat (d : datetime) : str :=
  (digits 4 (year d) ++ lit "-" ++ digits 2 (month d) ++ lit "-"
   ++ digits 2 (day d) ++ lit "T" ++ digits 2 (hour d) ++ lit ":"
   ++ digits 2 (minute d) ++ lit ":" ++ digits 2 (second d)
   ++ (if (microsecond d =? 0)%Z then []
       else lit "." ++ digits 6 (microsecond d)))%list.

Local Close Scope string_scope.

(** The values a [datetime] object can hold. *)
Definition wf (d : datetime) : Prop :=
  1 <= year d <= 9999 /\ 1 <= month d <= 12 /\
  1 <= day d <= days_in_month (year d) (month d) /\
  0 <= hour d < 24 /\ 0 <= minute d < 60 /\ 0 <= second d < 60 /\
  0 <= microsecond d < 1000000.

(** [datetime.utcfromtimestamp] on a time stamp in microseconds: the
    local time of a host whose zone is UTC. *)
Definition utc_fromtimestamp (t : Z) : option datetime :=
  let days := t / 86400000000 in
  let r := t mod 86400000000 in
  let o := 719163 + days in
  if (0 <? o) && (o <=? MAXORDINAL) then
    let '(y, m, d) := ord2ymd o in
    Some (DT y m d (r / 3600000000) (r / 60000000 mod 60)
             (r / 1000000 mod 60) (r mod 1000000))
  else None.

End DateTime.

(* ================================================================== *)
(** ** The directory tree and its recursive walk *)

Module Walk.

(** What [stat()] returns, as far as the program reads it; the time stamp
    is in microseconds. *)
Record stat_result := Stat { st_mtime : Z; st_size : Z }.

(** An entry of the tree, with its name, as a walk finds it; the tree does
    not change during the walk.  A regular file carries what the two
    [stat()] calls of the loop body find, [None] when the call raises (the
    file gone or locked since [is_file()] answered).

    [Denied] is an entry whose [stat()] raises an error that [pathlib] does
    not take for an absent file: [PermissionError] under a directory that
    cannot be searched, a name that is too long, an I/O error.  [exists()]
    and [is_file()] raise it again; [msg] is its [str(e)].

    [Unlistable] is a directory whose listing raises an [OSError] other
    than [PermissionError]; the walk raises it.  A directory whose listing
    raises [PermissionError] is passed over by the walk in silence: it is a
    [Dir] without entries. *)
#[warnings="-register-all"]
Inductive node :=
| File (name : str) (stat_for_mtime stat_for_size : option stat_result)
| Other (name : str)
| Dir (name : str) (entries : list node)
| Denied (name : str) (msg : str)
| Unlistable (name : str) (msg : str).

Definition name_of (n : node) : str :=
  match n with
  | File name _ _ => name
  | Other name => name
  | Dir name _ => name
  | Denied name _ => name
  | Unlistable name _ => name
  end.

(** A generator that has run: what it yielded, and the error that ended
    it, when one did. *)
Definition run : Type := list (str * node) * option str.

(** One generator after another: the second does not start when the first
    has raised. *)
Definition then_run (a b : run) : run :=
  match snd a with
  | Some _ => a
  | None => (fst a ++ fst b, snd b)
  end.

(** The generator [Path(dir).rglob("*")], each path with the entry it leads
    to: the entries of [dir], then those of each of its sub-directories in
    turn, until a listing raises.  Nothing when [dir] is not a directory. *)
Fixpoint iterate (dir : str) (n : node) : run :=
  match n with
  | Dir _ entries =>
    then_run
      (map (fun e => (PathLib.child dir (name_of e), e)) entries, None)
      (fold_right then_run ([], None)
         (map (fun e => iterate (PathLib.child dir (name_of e)) e) entries))
  | Unlistable _ msg => ([], Some msg)
  | _ => ([], None)
  end.

(** What [rglob] yields, and what it raises in the end. *)
Definition rglob (dir : str) (n : node) : list (str * node) :=
  fst (iterate dir n).
Definition rglob_error (dir : str) (n : node) : option str :=
  snd (iterate dir n).

(** [p.exists()] for what is found at [p], [None] when nothing is: [Raise]
    is the [OSError] it raises. *)
Definition path_exists (found : option node) : result str bool :=
  match found with
  | None => Ok false
  | Some (Denied _ msg) => Raise msg
  | Some _ => Ok true
  end.

(** [p.is_file()] *)
Definition is_file (n : node) : result str bool :=
  match n with
  | File _ _ _ => Ok true
  | Denied _ msg => Raise msg
  | _ => Ok false
  end.

End Walk.

(* ================================================================== *)
(** ** Reading a file *)

Module Reader.
Import Codecs FS.

(** The four [return] statements of [read_file_content]. *)
Inductive outcome :=
| Plain (content : str)
| Tagged (e : encoding) (content : str)
| Undecodable
| Failed (msg : str).

Local Open Scope string_scope.

(** The string each [return] builds. *)
Definition render (file_path : str) (o : outcome) : str :=
  match o with
  | Plain content => content
  | Tagged e content =>
    (lit "[" ++ encoding_name e ++ lit "エンコーディング] " ++ content)%list
  | Undecodable =>
    (lit "[読み込み不可能なエンコーディング: " ++ file_path ++ lit "]")%list
  | Failed msg => (lit "[読み込みエラー: " ++ msg ++ lit "]")%list
  end.

(** [encodings = ['shift_jis', 'cp932', 'latin1', 'utf-16']] *)
Definition encodings : list encoding := [shift_jis; cp932; latin1; utf_16].

Definition md : str := lit ".md".

End Reader.

(* ================================================================== *)
(** ** [file_analyzer.py] *)

Module FileAnalyzer.
Import Codecs FS Reader.

Section Read.
Variable T : tables.
Variable fs : files.

(** The [for encoding in encodings] loop; its [n]-th attempt is the
    [n]-th [open] of the call. *)
Fixpoint try_encodings (n : nat) (file_path : str) (encs : list encoding)
  : outcome :=
  match encs with
  | [] => Undecodable
  | e :: encs' =>
    match open_read T fs n file_path e with
    | Ok content => Tagged e content
    | Raise _ => try_encodings (S n) file_path encs'
    end
  end.

Definition read (file_path : str) : outcome :=
  let file_ext := lower (unicode_lower T) (PathLib.suffix file_path) in
  match open_read T fs 0 file_path utf_8 with
  | Ok content =>
    let content :=
      if Text.eqb file_ext md
      then Annotator.process_obsidian_markdown content
      else content in
    Plain content
  | Raise UnicodeDecodeError => try_encodings 1 file_path encodings
  | Raise (OtherError msg) => Failed msg
  end.

(** [FileAnalyzer.read_file_content] *)
Definition read_file_content (file_path : str) : str :=
  render file_path (read file_path).

End Read.
(** An element of [recent_files]: the dictionary with the keys ["path"],
    ["modified"] and ["size"]. *)
Record file_info := FileInfo { path : str; modified : str; size : Z }.

(** [list.sort(key=..., reverse=True)]: the stable sort into
    non-increasing order of the keys, written as the insertion sort that
    puts an element before the first one whose key is not greater. *)
Section Sort.
Variable A : Type.
Variable key : A -> str.

Fixpoint insert (x : A) (l : list A) : list A :=
  match l with
  | [] => [x]
  | y :: l' =>
    if Text.leb (key y) (key x) then x :: y :: l'
    else y :: insert x l'
  end.

Definition sort_reverse (l : list A) : list A := fold_right insert [] l.
End Sort.

Section Scan.
Import Walk DateTime.

(** [datetime.fromtimestamp]: the local time of a time stamp, by the
    rules of the host's time zone; [None] when it raises. *)
Variable fromtimestamp : Z -> option datetime.
(** The tree at a path, [None] when [stat] finds nothing there (no such
    file, a component of the path that is not a directory, a path that
    cannot be encoded). *)
Variable disk : str -> option node.
(** [datetime.now()] *)
Variable now : datetime.

(** The body of the [for file_path in folder.rglob("*")] loop under its
    [if file_path.is_file()]: what it appends to [recent_files]. *)
Definition visit (cutoff_date : datetime) (entry : str * node)
  : list file_info :=
  match snd entry with
  | File _ stat_for_mtime stat_for_size =>
    match stat_for_mtime with
    | Some st =>
      match fromtimestamp (st_mtime st) with
      | Some modified_time =>
        if gtb modified_time cutoff_date then
          match stat_for_size with
          | Some st' =>
            [FileInfo (fst entry) (isoformat modified_time) (st_size st')]
          | None => []
          end
        else []
      | None => []
      end
    | None => []
    end
  | _ => []
  end.

Local Open Scope string_scope.

(** The [for] loop on the entries the walk yields: [is_file()] is outside
    the [try], so what it raises ends the scan. *)
Fixpoint scan_entries (cutoff_date : datetime) (entries : list (str * node))
  : result scan_exn (list file_info) :=
  match entries with
  | [] => Ok []
  | entry :: entries' =>
    match is_file (snd entry) with
    | Raise msg => Raise (OSError msg)
    | Ok b =>
      match scan_entries cutoff_date entries' with
      | Ok recent_files =>
        Ok ((if b then visit cutoff_date entry else []) ++ recent_files)%list
      | Raise e => Raise e
      end
    end
  end.

(** [FileAnalyzer.find_recent_files]; the function of the same name of
    the two agent modules has the same text and returns the same list
    as JSON. *)
Definition find_recent_files (folder_path : str) (days : Z)
  : result scan_exn (list file_info) :=
  match path_exists (disk folder_path), disk folder_path with
  | Raise msg, _ => Raise (OSError msg)
  | Ok true, Some folder =>
    match sub_days now days with
    | Raise e => Raise e
    | Ok cutoff_date =>
      match scan_entries cutoff_date
                         (rglob (PathLib.to_str folder_path) folder) with
      | Raise e => Raise e
      | Ok recent_files =>
        match rglob_error (PathLib.to_str folder_path) folder with
        | Some msg => Raise (OSError msg)
        | None => Ok (sort_reverse modified recent_files)
        end
      end
    end
  | _, _ =>
    Raise (ValueError (lit "フォルダが存在しません: " ++ folder_path)%list)
  end.

End Scan.
End FileAnalyzer.

(* ================================================================== *)
(** ** [agents_file_analyzer.py] and [azure_agents_file_analyzer.py] *)

Module Agents.
Import Codecs FS Reader.

(** [if len(content) > max_chars: content = content[:max_chars] + "..."] *)
Definition ellipsis : str := lit "...".
Definition limit (content : str) (max_chars : Z) : str :=
  if len content >? max_chars
  then slice_to content max_chars ++ ellipsis
  else content.

Section Read.
Variable T : tables.
Variable fs : files.

Fixpoint try_encodings (n : nat) (file_path : str) (max_chars : Z)
         (encs : list encoding) : outcome :=
  match encs with
  | [] => Undecodable
  | e :: encs' =>
    match open_read T fs n file_path e with
    | Ok content => Tagged e (limit content max_chars)
    | Raise _ => try_encodings (S n) file_path max_chars encs'
    end
  end.

Definition read (file_path : str) (max_chars : Z) : outcome :=
  let file_ext := lower (unicode_lower T) (PathLib.suffix file_path) in
  match open_read T fs 0 file_path utf_8 with
  | Ok content =>
    let content := limit content max_chars in
    let content :=
      if Text.eqb file_ext md
      then Annotator.process_obsidian_markdown content
      else content in
    Plain content
  | Raise UnicodeDecodeError =>
    try_encodings 1 file_path max_chars encodings
  | Raise (OtherError msg) => Failed msg
  end.

(** [read_file_content(file_path, max_chars)] *)
Definition read_file_content (file_path : str) (max_chars : Z) : str :=
  render file_path (read file_path max_chars).

End Read.
(** [find_recent_files(folder_path, days)] *)
Definition find_recent_files := FileAnalyzer.find_recent_files.

(** A value of [type_stats]: [{"count": ..., "total_size": ...}]. *)
Module TypeStat.
Record t := Make { count : Z; total_size : Z }.
End TypeStat.

(** A dictionary with string keys, in insertion order. *)
Section Dict.
Variable V : Type.

(** [k in d] *)
Fixpoint dict_mem (k : str) (d : list (str * V)) : bool :=
  match d with
  | [] => false
  | (k', _) :: d' => Text.eqb k' k || dict_mem k d'
  end.

(** [d[k] = v] *)
Fixpoint dict_set (k : str) (v : V) (d : list (str * V))
  : list (str * V) :=
  match d with
  | [] => [(k, v)]
  | (k', v') :: d' =>
    if Text.eqb k' k then (k', v) :: d' else (k', v') :: dict_set k v d'
  end.

(** An update in place of the value [d[k]]. *)
Fixpoint dict_update (k : str) (f : V -> V) (d : list (str * V))
  : list (str * V) :=
  match d with
  | [] => []
  | (k', v') :: d' =>
    if Text.eqb k' k then (k', f v') :: d'
    else (k', v') :: dict_update k f d'
  end.

(** [d.get(k)] *)
Fixpoint dict_get (k : str) (d : list (str * V)) : option V :=
  match d with
  | [] => None
  | (k', v') :: d' => if Text.eqb k' k then Some v' else dict_get k d'
  end.
End Dict.

(** The [result] dictionary of [analyze_file_types]. *)
Record report := Report {
  file_types : list (str * TypeStat.t);
  total_files : Z;
  total_size : Z
}.

Section Aggregate.
Import FileAnalyzer.
Variable T : tables.

Local Open Scope string_scope.

(** [ext = file_path.suffix.lower() or "拡張子なし"] *)
Definition no_extension : str := lit "拡張子なし".
Definition extension_key (file_path : str) : str :=
  match lower (unicode_lower T) (PathLib.suffix file_path) with
  | [] => no_extension
  | ext => ext
  end.

Local Close Scope string_scope.

(** The body of the [for file_info in files] loop on the pair
    [(type_stats, total_size)]. *)
Definition count_file (state : list (str * TypeStat.t) * Z)
           (file_info : FileAnalyzer.file_info)
  : list (str * TypeStat.t) * Z :=
  let '(type_stats, total) := state in
  let ext := extension_key (path file_info) in
  let type_stats :=
    if negb (dict_mem ext type_stats)
    then dict_set ext (TypeStat.Make 0 0) type_stats
    else type_stats in
  let type_stats :=
    dict_update ext
      (fun v => TypeStat.Make (TypeStat.count v + 1) (TypeStat.total_size v))
      type_stats in
  let type_stats :=
    dict_update ext
      (fun v => TypeStat.Make (TypeStat.count v)
                              (TypeStat.total_size v + size file_info))
      type_stats in
  (type_stats, total + size file_info).

(** [analyze_file_types] on the list [json.loads(files_json)] returns;
    the result is the dictionary it serialises. *)
Definition analyze_file_types (files : list FileAnalyzer.file_info)
  : report :=
  let '(type_stats, total) := fold_left count_file files ([], 0) in
  Report type_stats (Z.of_nat (length files)) total.

End Aggregate.
End Agents.


(* ================================================================== *)
(** ** More text operations *)

Module TextMore.

(** [sep.join(ws)] *)
Fixpoint join_with (sep : str) (ws : list str) : str :=
  match ws with
  | [] => []
  | [w] => w
  | w :: ws' => w ++ sep ++ join_with sep ws'
  end.

(** [s[i:]] for any integer [i]: a negative index counts from the end. *)
Definition slice_from (s : str) (i : Z) : str :=
  if 0 <=? i then skipn (Z.to_nat i) s
  else skipn (Z.to_nat (len s + i)) s.

(** [c * n]: [n] copies of a character, none when [n] is not positive. *)
Definition times (c : char) (n : Z) : str := repeat c (Z.to_nat n).

(** The ['utf-8'] encoder on one code point: one to four bytes; [None] is
    the [UnicodeEncodeError] of a surrogate. *)
Definition utf8_encode_char (c : char) : option (list Z) :=
  if in_range 0 127 c then Some [c]
  else if in_range 128 2047 c then Some [192 + c / 64; 128 + c mod 64]
  else if in_range 2048 65535 c then
    if in_range 55296 57343 c then None
    else Some [224 + c / 4096; 128 + (c / 64) mod 64; 128 + c mod 64]
  else if in_range 65536 1114111 c then
    Some [240 + c / 262144; 128 + (c / 4096) mod 64;
          128 + (c / 64) mod 64; 128 + c mod 64]
  else None.

Fixpoint utf8_encode (s : str) : option (list Z) :=
  match s with
  | [] => Some []
  | c :: s' =>
    match utf8_encode_char c, utf8_encode s' with
    | Some a, Some b => Some (a ++ b)
    | _, _ => None
    end
  end.

(** The byte of a value from 0 to 255. *)
Definition to_byte (b : Z) : byte :=
  match Byte.of_N (Z.to_N b) with
  | Some x => x
  | None => x00
  end.

End TextMore.

(* ================================================================== *)
(** ** [save_report] of the two agent modules *)

Module Writer.
Import FS TextMore.

(** What a call leaves at the path it was given. *)
Inductive effect :=
| Untouched                      (* the file was not opened *)
| Holds (bytes : list byte).     (* the file is there and holds [bytes] *)

Section Save.
(** What [open(output_path, 'w', encoding='utf-8')] raises at a path, as
    [str(e)]; [None] when it opens the file, which empties it. *)
Variable open_error : str -> option str.
(** What writing the bytes to the file at a path and closing it raises (a
    full disk, an I/O error), as [str(e)], with the bytes that are left in
    the file; [None] when all the bytes are written. *)
Variable write_error : str -> list byte -> option (str * list byte).
(** [str(e)] of the [UnicodeEncodeError] a text raises when written. *)
Variable encode_error : str -> str.

Local Open Scope string_scope.

(** [save_report(report_data, output_path)]: the message it returns and
    what it leaves at the path.  The text is encoded as a whole before any
    byte is written; line ends are written as they are (a POSIX host). *)
Definition save_report (report_data output_path : str) : str * effect :=
  match open_error output_path with
  | Some msg => ((lit "保存エラー: " ++ msg)%list, Untouched)
  | None =>
    match utf8_encode report_data with
    | None =>
      ((lit "保存エラー: " ++ encode_error report_data)%list, Holds [])
    | Some bytes =>
      match write_error output_path (map to_byte bytes) with
      | Some (msg, kept) => ((lit "保存エラー: " ++ msg)%list, Holds kept)
      | None =>
        ((lit "レポートを " ++ output_path ++ lit " に保存しました。")%list,
         Holds (map to_byte bytes))
      end
    end
  end.

End Save.
End Writer.

(* ================================================================== *)
(** ** [agents_main.py] *)

Module AgentsMain.
Import TextMore.

Definition star : char := 42.

(** The API key as [main] and [main_async] print it:
    ['*' * (len(api_key) - 8) + api_key[-8:] if len(api_key) > 8
     else '*' * len(api_key)]. *)
Definition mask_api_key (api_key : str) : str :=
  if len api_key >? 8
  then times star (len api_key - 8) ++ slice_from api_key (-8)
  else times star (len api_key).

End AgentsMain.

(* ================================================================== *)
(** ** [AzureConfig] of [azure_agents_file_analyzer.py] *)

Module Azure.
Import TextMore.

Record AzureConfig := Config {
  api_key : str;
  api_version : str;
  endpoint : str;
  deployment : str
}.

(** The truth value of what [os.getenv] returns: false for [None] and for
    the empty string. *)
Definition truthy (v : option str) : bool :=
  match v with
  | Some (_ :: _) => true
  | _ => false
  end.

Definition text (v : option str) : str :=
  match v with
  | Some s => s
  | None => []
  end.

Local Open Scope string_scope.

(** [AzureConfig.from_env()] on the environment [getenv]; [Raise msg] is
    [ValueError(msg)]. *)
Definition from_env (getenv : str -> option str) : result str AzureConfig :=
  let api_key := getenv (lit "AZURE_OPENAI_API_KEY") in
  let endpoint := getenv (lit "AZURE_OPENAI_ENDPOINT") in
  let deployment := getenv (lit "AZURE_OPENAI_DEPLOYMENT") in
  if negb (truthy api_key && truthy endpoint && truthy deployment) then
    let missing := [] in
    let missing :=
      if negb (truthy api_key)
      then (missing ++ [lit "AZURE_OPENAI_API_KEY"])%list else missing in
    let missing :=
      if negb (truthy endpoint)
      then (missing ++ [lit "AZURE_OPENAI_ENDPOINT"])%list else missing in
    let missing :=
      if negb (truthy deployment)
      then (missing ++ [lit "AZURE_OPENAI_DEPLOYMENT"])%list else missing in
    Raise (lit "以下の環境変数が設定されていません: "
           ++ join_with (lit ", ") missing)%list
  else
    Ok (Config (text api_key)
               (match getenv (lit "AZURE_OPENAI_API_VERSION") with
                | Some v => v
                | None => lit "2024-08-01-preview"
                end)
               (text endpoint) (text deployment)).

End Azure.

(* ================================================================== *)
(** ** [file_analyzer.py]: the report *)

Module Pipeline.
Import TextMore DateTime.

Local Open Scope string_scope.

(** The text of the prompt before and after the list of files. *)
Definition prompt_head : str :=
  join_with [10]
  [lit "";
   lit "以下のファイルは最新一か月で更新されたファイルです。";
   lit "これらのファイルの変更点や特徴を分析して、簡潔にまとめてください。";
   lit "";
   lit "ファイル一覧と内容:";
   lit ""].

Definition prompt_tail : str :=
  join_with [10]
  [lit "";
   lit "";
   lit "分析してほしい点:";
   lit "1. どのような種類のファイルが更新されているか";
   lit "2. 主な変更内容の傾向";
   lit "3. 開発やプロジェクトの進行状況";
   lit "4. 注目すべき変更点";
   lit "5. Obsidianのマークダウンファイル（.md）がある場合は、そのノート内容や構造の特徴";
   lit "";
   lit "日本語で回答してください。";
   lit ""].

(** [return "最新一か月で更新されたファイルはありません。"] *)
Definition no_files_message : str :=
  lit "最新一か月で更新されたファイルはありません。".

(** The dictionary [generate_report] returns: the report, or the error. *)
Inductive report :=
| Report (folder_path : str) (analysis_period_days : Z)
         (total_files_found : Z) (files : list FileAnalyzer.file_info)
         (analysis : str) (generated_at : str)
| ErrorReport (error : str) (generated_at : str).

Section Report.
Variable T : Codecs.tables.
(** The file system during the [k]-th [read_file_content] of the batch. *)
Variable reads : nat -> FS.files.
(** [OllamaClient.generate(model, prompt)]: the answer of the model, or the
    error text the client returns in its place. *)
Variable generate : str -> str -> str.
Variable model : str.

(** One element of [file_summary], for the [k]-th file. *)
Definition summary_entry (k : nat) (file_info : FileAnalyzer.file_info)
  : str :=
  let content :=
    FileAnalyzer.read_file_content T (reads k) (FileAnalyzer.path file_info) in
  (lit "ファイル: " ++ FileAnalyzer.path file_info ++ [10]
   ++ lit "更新日時: " ++ FileAnalyzer.modified file_info ++ [10]
   ++ lit "内容サンプル:" ++ [10]
   ++ slice_to content 500 ++ lit "..." ++ [10])%list.

(** The [for file_info in files[:10]] loop, from the [k]-th read on. *)
Fixpoint summaries (k : nat) (l : list FileAnalyzer.file_info) : list str :=
  match l with
  | [] => []
  | file_info :: l' => summary_entry k file_info :: summaries (S k) l'
  end.

Definition build_prompt (file_summary : list str) : str :=
  (prompt_head ++ join_with [10] file_summary ++ prompt_tail)%list.

(** [FileAnalyzer.analyze_file_changes] *)
Definition analyze_file_changes (l : list FileAnalyzer.file_info) : str :=
  match l with
  | [] => no_files_message
  | _ => generate model (build_prompt (summaries 0 (firstn 10 l)))
  end.

(** The scan of the report. *)
Variable fromtimestamp : Z -> option datetime.
Variable disk : str -> option Walk.node.
Variable now : datetime.
(** [datetime.now()] when the report is stamped. *)
Variable stamp : datetime.
(** [str(e)] of an [OverflowError] of the date arithmetic. *)
Variable overflow_text : str.

(** [str(e)] *)
Definition exception_text (e : scan_exn) : str :=
  match e with
  | ValueError msg => msg
  | OverflowError => overflow_text
  | OSError msg => msg
  end.

(** [FileAnalyzer.generate_report] *)
Definition generate_report (folder_path : str) (days : Z) : report :=
  match FileAnalyzer.find_recent_files fromtimestamp disk now folder_path days
  with
  | Ok recent_files =>
    Report folder_path days (Z.of_nat (length recent_files)) recent_files
           (analyze_file_changes recent_files) (isoformat stamp)
  | Raise e =>
    ErrorReport
      (lit "レポート生成中にエラーが発生しました: " ++ exception_text e)%list
      (isoformat stamp)
  end.

End Report.
End Pipeline.

(* ================================================================== *)
(** ** [main.py] *)

Module Main.
Import TextMore Pipeline.

(** The decimal digits of a number that is not negative; [fuel] bounds
    their number. *)
Fixpoint decimal (fuel : nat) (n : Z) : str :=
  match fuel with
  | O => []
  | S fuel' =>
    if n <? 10 then [48 + n]
    else decimal fuel' (n / 10) ++ [48 + n mod 10]
  end.

(** [str(n)] for an integer. *)
Definition str_of_int (n : Z) : str :=
  if n <? 0 then 45 :: decimal (S (Z.to_nat (Z.log2 (- n)))) (- n)
  else decimal (S (Z.to_nat (Z.log2 n))) n.

Local Open Scope string_scope.

(** [f"- {file_info['path']} ({file_info['modified']})"] *)
Definition file_line (file_info : FileAnalyzer.file_info) : str :=
  (lit "- " ++ FileAnalyzer.path file_info ++ lit " ("
   ++ FileAnalyzer.modified file_info ++ lit ")")%list.

(** What [main] prints for the report it got, one element for each
    [print]. *)
Definition present (r : report) : list str :=
  match r with
  | ErrorReport error _ => [(lit "エラー: " ++ error)%list]
  | Report folder_path days total l analysis _ =>
    ([(10 :: lit "=== 分析結果 ===");
      (lit "対象フォルダ: " ++ folder_path);
      (lit "分析期間: " ++ str_of_int days ++ lit "日間");
      (lit "更新されたファイル数: " ++ str_of_int total ++ lit "個");
      (10 :: lit "=== 更新ファイル一覧 ===")]
     ++ map file_line (firstn 5 l)
     ++ (if Z.of_nat (length l) >? 5
         then [lit "... 他" ++ str_of_int (Z.of_nat (length l) - 5)
               ++ lit "個のファイル"]
         else [])
     ++ [(10 :: lit "=== AI分析結果 ==="); analysis])%list
  end.

End Main.

(* ================================================================== *)
(** ** Sample inputs *)

Module Samples.
Import Codecs FS.
Local Open Scope string_scope.

(** A directory holding one readable file. *)
Definition one_file (name : string) (bytes : list byte) : files :=
  fun _ p =>
    if Text.eqb p (lit name) then Contents bytes
    else Unreadable (lit "[Errno 2] No such file or directory").

(** The note of the specification's scenario. *)
Definition a_md : files :=
  one_file "notes/a.md"
           (list_byte_of_string "See [[Project X]] #todo ^blk1").

(** A note that holds one block anchor. *)
Definition anchor_md : files :=
  one_file "b.md" (list_byte_of_string "^blk1").

(** A short note with one tag. *)
Definition tag_md : files := one_file "t.md" (list_byte_of_string "#a").

(** The same bytes in a file that is not a note. *)
Definition tag_txt : files := one_file "t.txt" (list_byte_of_string "#a").

(** A note in a legacy single-byte encoding: the byte [FF], then a tag. *)
Definition legacy_md : files :=
  one_file "l.md" (xff :: list_byte_of_string "#a").

(** The half-width katakana [ｱ] in its one byte of the Japanese codecs. *)
Definition kana_txt : files := one_file "k.txt" [xb1].

(** A note that ends with the byte [81], which is no UTF-8 and only the
    first half of a character in the two Japanese codecs: latin1 is the
    first encoding that reads it. *)
Definition latin_md : files :=
  one_file "n.md" (list_byte_of_string "#a" ++ [x81])%list.

(** A note of one tag, five characters long, and one of one block
    anchor. *)
Definition todo_md : files :=
  one_file "todo.md" (list_byte_of_string "#todo").
Definition blk_md : files :=
  one_file "blk.md" (list_byte_of_string "^blk1").

(** A note with a tag, a cross-link and a block anchor. *)
Definition cut_md : files :=
  one_file "c.md" (list_byte_of_string "#x [[Project X]] ^blk1").

(** A text in UTF-16 with its byte-order mark, in a file that cannot be
    read during the three attempts after the first. *)
Definition reappearing : files :=
  fun n p =>
    match n with
    | 1%nat | 2%nat | 3%nat => Unreadable (lit "[Errno 13] Permission denied")
    | _ => Contents [xff; xfe; x41; x00]
    end.

(** A file that can be read when the call starts, cannot during the next
    three attempts, and can again at the last one. *)
Definition flickering : files :=
  fun n p =>
    match n with
    | 1%nat | 2%nat | 3%nat => Unreadable (lit "[Errno 13] Permission denied")
    | _ => Contents [xff]
    end.

(** A file that is deleted after the attempt for cp932.  Its single byte
    [81] is the first half of a two-byte character in both Japanese
    encodings, which fail to decode it. *)
Definition vanishing : files :=
  fun n p =>
    match n with
    | 0%nat | 1%nat | 2%nat => Contents [x81]
    | _ => Unreadable (lit "[Errno 2] No such file or directory")
    end.

(** A folder in the shape of the specification's scenario: [notes/a.md]
    modified the day before, [notes/old.md] years before; with them a file
    whose metadata cannot be read, two more files, one of them modified in
    the same second as [a.md], and an entry that is not a regular file. *)
Definition vault : Walk.node :=
  Walk.Dir (lit "vault")
    [Walk.Dir (lit "notes")
       [Walk.File (lit "a.md") (Some (Walk.Stat 1700000000000000 29))
                  (Some (Walk.Stat 1700000000000000 29));
        Walk.File (lit "old.md") (Some (Walk.Stat 1600000000000000 5))
                  (Some (Walk.Stat 1600000000000000 5));
        Walk.File (lit "locked.md") None None];
     Walk.File (lit "todo.TXT") (Some (Walk.Stat 1700000000000000 7))
               (Some (Walk.Stat 1700000000000000 7));
     Walk.File (lit "README") (Some (Walk.Stat 1700000001000000 1))
               (Some (Walk.Stat 1700000001000000 1));
     Walk.Other (lit "pipe")].

(** The disk: the folder at ["vault"], one of its files at
    ["vault/README"], nothing elsewhere. *)
Definition vault_disk (p : str) : option Walk.node :=
  if Text.eqb p (lit "vault") then Some vault
  else if Text.eqb p (lit "vault/README")
       then Some (Walk.File (lit "README")
                            (Some (Walk.Stat 1700000001000000 1))
                            (Some (Walk.Stat 1700000001000000 1)))
       else None.

(** A folder with a directory [private] that can be listed and not
    searched: the walk yields its entry [key], and [stat()] on it is
    denied. *)
Definition denied_key : Walk.node :=
  Walk.Denied (lit "key")
              (lit "[Errno 13] Permission denied: 'vault/private/key'").

Definition locked_vault : Walk.node :=
  Walk.Dir (lit "vault")
    [Walk.File (lit "README") (Some (Walk.Stat 1700000001000000 1))
               (Some (Walk.Stat 1700000001000000 1));
     Walk.Dir (lit "private") [denied_key]].

Definition locked_disk (p : str) : option Walk.node :=
  if Text.eqb p (lit "vault") then Some locked_vault
  else if Text.eqb p (lit "vault/private/key") then Some denied_key
       else None.

(** The time of the scan: 2023-11-15 at noon. *)
Definition noon : DateTime.datetime := DateTime.DT 2023 11 15 12 0 0 0.

End Samples.

(* ================================================================== *)
(** ** Vocabulary of the properties *)

Module Vocabulary.
Import Codecs FS.

(** The attempt that the fallback loop makes for the [k]-th encoding of
    [encs], the loop starting at the [n]-th [open] of the call, raises. *)
Definition attempt_fails (T : tables) (fs : files) (file_path : str)
           (n : nat) (encs : list encoding) (k : nat) : Prop :=
  forall e, nth_error encs k = Some e ->
            exists x, open_read T fs (n + k) file_path e = Raise x.

(** [Marked marker s t]: the text [t] is the text [s] with copies of
    [marker] inserted, nothing else added, removed or changed. *)
Inductive Marked (marker : str) : str -> str -> Prop :=
| Marked_nil : Marked marker [] []
| Marked_keep (c : char) (s t : str) :
    Marked marker s t -> Marked marker (c :: s) (c :: t)
| Marked_insert (s t : str) :
    Marked marker s t -> Marked marker s (marker ++ t).

(** Two closing brackets in a row somewhere in the text. *)
Fixpoint has_close (s : str) : bool :=
  match s with
  | c :: s' =>
    match s' with
    | d :: _ => (c =? 93) && (d =? 93) || has_close s'
    | [] => false
    end
  | [] => false
  end.

(** The sums over the buckets of a [type_stats] dictionary, and over the
    files of a manifest. *)
Definition sum_counts (d : list (str * Agents.TypeStat.t)) : Z :=
  fold_right (fun kv acc => Agents.TypeStat.count (snd kv) + acc) 0 d.

Definition sum_sizes (d : list (str * Agents.TypeStat.t)) : Z :=
  fold_right (fun kv acc => Agents.TypeStat.total_size (snd kv) + acc) 0 d.

Definition total_bytes (files : list FileAnalyzer.file_info) : Z :=
  fold_right (fun f acc => FileAnalyzer.size f + acc) 0 files.

(** The files of a manifest that fall under the extension key [k]. *)
Definition bucket (T : tables) (k : str) (files : list FileAnalyzer.file_info)
  : list FileAnalyzer.file_info :=
  filter (fun f => Text.eqb (Agents.extension_key T (FileAnalyzer.path f)) k)
         files.

(** [is_file()] answers for the entry of a walk: it raises nothing. *)
Definition answers (entry : str * Walk.node) : Prop :=
  exists b, Walk.is_file (snd entry) = Ok b.

(** [is_file()] answers that the entry is a regular file. *)
Definition regular (entry : str * Walk.node) : bool :=
  match Walk.is_file (snd entry) with
  | Ok true => true
  | _ => false
  end.

(** [a] may stand before [b] in a list in non-increasing order of the
    keys: the key of [b] is not greater than the key of [a]. *)
Definition before (A : Type) (key : A -> str) (a b : A) : Prop :=
  Text.leb (key b) (key a) = true.

(** The fields of a datetime fit the widths [isoformat] prints them in. *)
Definition printable (d : DateTime.datetime) : Prop :=
  0 <= DateTime.year d < 10000 /\ 0 <= DateTime.month d < 100
  /\ 0 <= DateTime.day d < 100 /\ 0 <= DateTime.hour d < 100
  /\ 0 <= DateTime.minute d < 100 /\ 0 <= DateTime.second d < 100
  /\ 0 <= DateTime.microsecond d < 1000000.

(** The bucket a list of files makes: none when the list is empty. *)
Definition stat_of (b : list FileAnalyzer.file_info)
  : option Agents.TypeStat.t :=
  match b with
  | [] => None
  | _ => Some (Agents.TypeStat.Make (Z.of_nat (length b)) (total_bytes b))
  end.

(** The keys [ks] in the order of their first occurrence, those of [seen]
    left out. *)
Fixpoint first_occurrences (seen ks : list str) : list str :=
  match ks with
  | [] => []
  | k :: ks' =>
    if existsb (fun k' => Text.eqb k' k) seen then first_occurrences seen ks'
    else k :: first_occurrences (seen ++ [k]) ks'
  end.

(** A code point the UTF-8 encoder accepts: a Unicode scalar value. *)
Definition scalar (c : char) : bool :=
  in_range 0 55295 c || in_range 57344 1114111 c.

(** The number a text of decimal digits writes. *)
Definition number (s : str) : Z :=
  fold_left (fun acc c => 10 * acc + (c - 48)) s 0.

End Vocabulary.

(* ================================================================== *)
(** * Properties *)

Import Codecs FS Reader Annotator Samples Vocabulary.

Local Open Scope string_scope.
Local Open Scope list_scope.
Local Open Scope Z_scope.

(** ** The annotator on block anchors *)

(** C1.  The cross-link rule and the tag rule append their marker after the
    token they match and keep the token; the block-anchor rule does not: its
    replacement string writes the group reference with two backslashes, so
    the characters after [^] are replaced by a backslash and the digit 1.
    On the note of the specification's scenario the reader returns
    [^\1（ブロック参照）] where the claim promises [^blk1（ブロック参照）]. *)
Theorem block_anchor_text_is_replaced :
  process_obsidian_markdown (lit "^blk1") = lit "^\1（ブロック参照）"
  /\ process_obsidian_markdown (lit "^blk1") <> lit "^blk1（ブロック参照）"
  /\ Agents.read_file_content plain a_md (lit "notes/a.md") 2000
     = lit "See [[Project X]]（Obsidianリンク） #todo（Obsidianタグ） ^\1（ブロック参照）"
  /\ FileAnalyzer.read_file_content plain anchor_md (lit "b.md")
     = lit "^\1（ブロック参照）".
Proof.
  repeat split; try (vm_compute; reflexivity).
  vm_compute. discriminate.
Qed.

(** C9.  A second pass of the annotator gives a second marker to a
    cross-link and to a tag, but not to a block anchor: the first pass has
    replaced the anchor's name by [\1], which the anchor pattern does not
    match, so the annotated anchor is left as it is. *)
Theorem second_pass_skips_block_anchor :
  process_obsidian_markdown (process_obsidian_markdown (lit "^blk1"))
  = process_obsidian_markdown (lit "^blk1")
  /\ process_obsidian_markdown (process_obsidian_markdown (lit "^blk1"))
     <> lit "^blk1（ブロック参照）（ブロック参照）"
  /\ process_obsidian_markdown (process_obsidian_markdown (lit "#todo"))
     = lit "#todo（Obsidianタグ）（Obsidianタグ）"
  /\ process_obsidian_markdown (process_obsidian_markdown (lit "[[Project X]]"))
     = lit "[[Project X]]（Obsidianリンク）（Obsidianリンク）".
Proof.
  repeat split; try (vm_compute; reflexivity).
  vm_compute. discriminate.
Qed.

(** ** The length cap *)

Lemma len_app (a b : str) : len (a ++ b) = len a + len b.
Proof. unfold len. rewrite length_app. lia. Qed.

Lemma len_ellipsis : len Agents.ellipsis = 3.
Proof. reflexivity. Qed.

Lemma limit_length (content : str) (max_chars : Z) :
  0 <= max_chars ->
  len (Agents.limit content max_chars) <= max_chars + len Agents.ellipsis.
Proof.
  intros Hmax. unfold Agents.limit.
  destruct (len content >? max_chars) eqn:Hlong.
  - rewrite len_app. unfold slice_to.
    destruct (0 <=? max_chars) eqn:Hpos; [| apply Z.leb_gt in Hpos; lia].
    unfold len at 1. rewrite length_firstn. lia.
  - rewrite len_ellipsis.
    assert (len content <= max_chars) by
      (destruct (Z.gtb_spec (len content) max_chars); [discriminate | lia]).
    lia.
Qed.

(** The cap leaves a text that fits as it is, and cuts a longer one to
    exactly [max_chars] characters followed by the marker. *)
Lemma limit_spec (content : str) (max_chars : Z) :
  0 <= max_chars ->
  (len content <= max_chars -> Agents.limit content max_chars = content)
  /\ (max_chars < len content ->
      Agents.limit content max_chars
      = firstn (Z.to_nat max_chars) content ++ Agents.ellipsis
      /\ len (Agents.limit content max_chars) = max_chars + 3).
Proof.
  intros Hmax. unfold Agents.limit, slice_to. split; intros H.
  - destruct (Z.gtb_spec (len content) max_chars); [lia | reflexivity].
  - destruct (Z.gtb_spec (len content) max_chars); [| lia].
    destruct (Z.leb_spec 0 max_chars); [| lia].
    split; [reflexivity |].
    rewrite len_app, len_ellipsis. unfold len in *. rewrite length_firstn. lia.
Qed.

(** C2, as stated, fails: a two-character note with the cap at two
    characters comes back fourteen characters long, the tag marker having
    been added after the cap was applied. *)
Lemma note_exceeds_the_cap :
  ~ (len (Agents.read_file_content plain tag_md (lit "t.md") 2)
     <= 2 + len Agents.ellipsis).
Proof. vm_compute. intros H. apply H. reflexivity. Qed.

(** C2, amended.  For a positive [max_chars], the text is capped at
    [max_chars] characters plus the marker before anything is added to it:
    that bound holds for the returned text of a file that decodes as UTF-8
    and is not a note; for a note it holds for the text handed to the
    annotator, and for a file decoded by a fallback encoding it holds for the
    text that follows the encoding tag. *)
Theorem capped_before_annotation_and_tag
        (T : tables) (fs : files) (file_path : str) (max_chars : Z)
        (Hpos : 0 < max_chars) :
  let file_ext := lower (unicode_lower T) (PathLib.suffix file_path) in
  (forall content,
      open_read T fs 0 file_path utf_8 = Ok content ->
      len (Agents.limit content max_chars) <= max_chars + len Agents.ellipsis
      /\ Agents.read_file_content T fs file_path max_chars
         = if Text.eqb file_ext md
           then process_obsidian_markdown (Agents.limit content max_chars)
           else Agents.limit content max_chars)
  /\ (forall e content,
         Agents.read T fs file_path max_chars = Tagged e content ->
         len content <= max_chars + len Agents.ellipsis
         /\ Agents.read_file_content T fs file_path max_chars
            = lit "[" ++ encoding_name e ++ lit "エンコーディング] " ++ content).
Proof.
  intros file_ext. split.
  - intros content Hread. split; [apply limit_length; lia |].
    unfold Agents.read_file_content, Agents.read. rewrite Hread.
    fold file_ext. destruct (Text.eqb file_ext md); reflexivity.
  - intros e content Hread. split.
    + unfold Agents.read in Hread.
      destruct (open_read T fs 0 file_path utf_8) as [c | [| msg]];
        try discriminate.
      revert Hread. generalize 1%nat. generalize encodings.
      induction l as [| e' l IH]; intros n Hread; simpl in Hread.
      * discriminate.
      * destruct (open_read T fs n file_path e') as [c |].
        -- inversion Hread; subst. apply limit_length; lia.
        -- eapply IH; eauto.
    + unfold Agents.read_file_content. rewrite Hread. reflexivity.
Qed.

(** The amended bound at work: the two bytes of [tag_txt] with the cap at
    one character. *)
Lemma capped_before_annotation_and_tag_witness :
  0 < 1
  /\ Agents.read_file_content plain tag_txt (lit "t.txt") 1 = lit "#..."
  /\ len (Agents.read_file_content plain tag_txt (lit "t.txt") 1)
     <= 1 + len Agents.ellipsis.
Proof.
  assert (Hpos : 0 < 1) by lia.
  destruct (capped_before_annotation_and_tag plain tag_txt (lit "t.txt") Hpos)
    as [Hutf8 _].
  destruct (Hutf8 (lit "#a") eq_refl) as [Hlen Heq].
  split; [exact Hpos |]. split.
  - rewrite Heq. reflexivity.
  - rewrite Heq. exact Hlen.
Defined.

(** ** The fallback loop *)

Section Fallback.
Variable T : tables.
Variable fs : files.
Variable file_path : str.

Lemma try_encodings_first_success (encs : list encoding) :
  forall (n k : nat) (e : encoding) (content : str),
    nth_error encs k = Some e ->
    open_read T fs (n + k) file_path e = Ok content ->
    (forall j, (j < k)%nat -> attempt_fails T fs file_path n encs j) ->
    FileAnalyzer.try_encodings T fs n file_path encs = Tagged e content.
Proof.
  induction encs as [| e0 encs IH]; intros n k e content Hnth Hok Hbefore.
  - destruct k; discriminate.
  - destruct k as [| k]; simpl in *.
    + inversion Hnth; subst. rewrite Nat.add_0_r in Hok. rewrite Hok.
      reflexivity.
    + destruct (Hbefore 0%nat (Nat.lt_0_succ k) e0 eq_refl) as [x Hx].
      rewrite Nat.add_0_r in Hx. rewrite Hx.
      apply IH with (k := k); auto.
      * rewrite <- Hok. f_equal. lia.
      * intros j Hj e' He'.
        destruct (Hbefore (S j) (proj1 (Nat.succ_lt_mono j k) Hj) e' He')
          as [y Hy].
        exists y. rewrite <- Hy. f_equal. lia.
Qed.

Lemma try_encodings_undecodable (encs : list encoding) :
  forall n : nat,
    FileAnalyzer.try_encodings T fs n file_path encs = Undecodable
    <-> (forall k, attempt_fails T fs file_path n encs k).
Proof.
  induction encs as [| e0 encs IH]; intros n; simpl.
  - split; [| reflexivity]. intros _ k e Hk. destruct k; discriminate.
  - split.
    + intros Hund k e Hk.
      destruct (open_read T fs n file_path e0) as [c | x] eqn:H0;
        [discriminate |].
      destruct k as [| k]; simpl in Hk.
      * inversion Hk; subst. exists x. rewrite Nat.add_0_r. exact H0.
      * destruct (proj1 (IH (S n)) Hund k e Hk) as [y Hy].
        exists y. rewrite <- Hy. f_equal. lia.
    + intros Hall.
      destruct (Hall 0%nat e0 eq_refl) as [x Hx].
      rewrite Nat.add_0_r in Hx. rewrite Hx.
      apply IH. intros k e Hk.
      destruct (Hall (S k) e Hk) as [y Hy].
      exists y. rewrite <- Hy. f_equal. lia.
Qed.

(** What the loop returns is tagged with the encoding of one of its
    attempts, and holds what that attempt read. *)
Lemma try_encodings_tagged (encs : list encoding) :
  forall (n : nat) (e : encoding) (content : str),
    FileAnalyzer.try_encodings T fs n file_path encs = Tagged e content ->
    exists k, nth_error encs k = Some e
              /\ open_read T fs (n + k) file_path e = Ok content
              /\ (forall j, (j < k)%nat -> attempt_fails T fs file_path n encs j).
Proof.
  induction encs as [| e0 encs IH]; intros n e content Htry; simpl in Htry.
  - discriminate.
  - destruct (open_read T fs n file_path e0) as [c | x] eqn:H0.
    + inversion Htry; subst. exists 0%nat. rewrite Nat.add_0_r.
      repeat split; auto. intros j Hj. lia.
    + destruct (IH _ _ _ Htry) as (k & Hk & Hok & Hbefore).
      exists (S k). repeat split; auto.
      * rewrite <- Hok. f_equal. lia.
      * intros [| j] Hj e' He'; simpl in He'.
        -- inversion He'; subst. exists x. rewrite Nat.add_0_r. exact H0.
        -- destruct (Hbefore j (proj2 (Nat.succ_lt_mono j k) Hj) e' He')
             as [y Hy].
           exists y. rewrite <- Hy. f_equal. lia.
Qed.

(** The loop of the agent modules is the same loop with the cap applied to
    what it returns. *)
Lemma agents_try_encodings (max_chars : Z) (encs : list encoding) :
  forall n : nat,
    Agents.try_encodings T fs n file_path max_chars encs
    = match FileAnalyzer.try_encodings T fs n file_path encs with
      | Tagged e content => Tagged e (Agents.limit content max_chars)
      | o => o
      end.
Proof.
  induction encs as [| e0 encs IH]; intros n; simpl; [reflexivity |].
  destruct (open_read T fs n file_path e0); [reflexivity | apply IH].
Qed.

(** ['latin1'] decodes whatever bytes it is given. *)
Lemma latin1_reads_any_bytes (n : nat) (bytes : list byte) :
  fs n file_path = Contents bytes ->
  exists content, open_read T fs n file_path latin1 = Ok content.
Proof.
  intros Hfs. unfold open_read. rewrite Hfs. simpl. eauto.
Qed.

(** With the file readable at the latin1 attempt, the loop ends at or
    before that attempt. *)
Lemma fallback_ends_by_latin1 (bytes : list byte) :
  fs 3%nat file_path = Contents bytes ->
  exists e content,
    In e [shift_jis; cp932; latin1]
    /\ FileAnalyzer.try_encodings T fs 1 file_path encodings
       = Tagged e content.
Proof.
  intros Hfs. destruct (latin1_reads_any_bytes Hfs) as [c3 H3].
  unfold encodings. simpl.
  destruct (open_read T fs 1 file_path shift_jis) as [c1 |];
    [exists shift_jis, c1; simpl; auto |].
  destruct (open_read T fs 2 file_path cp932) as [c2 |];
    [exists cp932, c2; simpl; auto |].
  rewrite H3. exists latin1, c3. simpl; auto.
Qed.

End Fallback.

(** C5.  The reader opens the file as UTF-8 first.  When that decoding
    fails it tries shift_jis, cp932, latin1 and utf-16 in this order and
    returns what the first attempt that succeeds has read, tagged with the
    name of its encoding, which is one of the texts [shift_jis], [cp932],
    [latin1] and [utf-16]; when every attempt fails it returns the
    "undecodable" text.  Any other failure of the first attempt is returned
    as an error text.  The reader returns a text in every case: it never
    raises. *)
Theorem reader_tries_utf8_then_fallbacks_in_order
        (T : tables) (fs : files) (file_path : str) :
  let file_ext := lower (unicode_lower T) (PathLib.suffix file_path) in
  encodings = [shift_jis; cp932; latin1; utf_16]
  /\ map encoding_name encodings
     = [lit "shift_jis"; lit "cp932"; lit "latin1"; lit "utf-16"]
  /\ (forall content,
         open_read T fs 0 file_path utf_8 = Ok content ->
         FileAnalyzer.read_file_content T fs file_path
         = if Text.eqb file_ext md then process_obsidian_markdown content
           else content)
  /\ (open_read T fs 0 file_path utf_8 = Raise UnicodeDecodeError ->
      (forall k e content,
          nth_error encodings k = Some e ->
          open_read T fs (1 + k) file_path e = Ok content ->
          (forall j, (j < k)%nat -> attempt_fails T fs file_path 1 encodings j) ->
          FileAnalyzer.read T fs file_path = Tagged e content
          /\ FileAnalyzer.read_file_content T fs file_path
             = lit "[" ++ encoding_name e ++ lit "エンコーディング] " ++ content)
      /\ ((forall k, attempt_fails T fs file_path 1 encodings k) ->
          FileAnalyzer.read T fs file_path = Undecodable
          /\ FileAnalyzer.read_file_content T fs file_path
             = lit "[読み込み不可能なエンコーディング: " ++ file_path ++ lit "]"))
  /\ (forall msg,
         open_read T fs 0 file_path utf_8 = Raise (OtherError msg) ->
         FileAnalyzer.read_file_content T fs file_path
         = lit "[読み込みエラー: " ++ msg ++ lit "]").
Proof.
  intros file_ext. split; [reflexivity |]. split; [reflexivity |].
  split; [| split].
  - intros content Hok. unfold FileAnalyzer.read_file_content, FileAnalyzer.read.
    rewrite Hok. fold file_ext. destruct (Text.eqb file_ext md); reflexivity.
  - intros Hdec. split.
    + intros k e content Hk Hok Hbefore.
      assert (Hread : FileAnalyzer.read T fs file_path = Tagged e content).
      { unfold FileAnalyzer.read. rewrite Hdec.
        eapply try_encodings_first_success; eauto. }
      split; [exact Hread |].
      unfold FileAnalyzer.read_file_content. rewrite Hread. reflexivity.
    + intros Hall.
      assert (Hread : FileAnalyzer.read T fs file_path = Undecodable).
      { unfold FileAnalyzer.read. rewrite Hdec.
        apply try_encodings_undecodable. exact Hall. }
      split; [exact Hread |].
      unfold FileAnalyzer.read_file_content. rewrite Hread. reflexivity.
  - intros msg Hother.
    unfold FileAnalyzer.read_file_content, FileAnalyzer.read.
    rewrite Hother. reflexivity.
Qed.

(** The order at work, with the Japanese codecs on their characters of one
    byte.  The byte [B1] is no UTF-8 and a katakana in shift_jis, the first
    fallback.  The byte [FF] of [legacy_md] is refused by shift_jis and read
    by cp932.  The byte [81] that ends [latin_md] is refused by both, and
    latin1 reads it.  [reappearing] cannot be read during the attempts for
    the first three fallbacks, and utf-16 reads it. *)
Lemma reader_tries_utf8_then_fallbacks_in_order_witness :
  FileAnalyzer.read_file_content one_byte kana_txt (lit "k.txt")
  = lit "[shift_jisエンコーディング] ｱ"
  /\ FileAnalyzer.read_file_content one_byte legacy_md (lit "l.md")
     = lit "[cp932エンコーディング] " ++ [63731] ++ lit "#a"
  /\ FileAnalyzer.read_file_content one_byte latin_md (lit "n.md")
     = lit "[latin1エンコーディング] #a" ++ [129]
  /\ FileAnalyzer.read_file_content one_byte reappearing (lit "u.txt")
     = lit "[utf-16エンコーディング] A".
Proof.
  destruct (reader_tries_utf8_then_fallbacks_in_order
              one_byte kana_txt (lit "k.txt"))
    as (_ & _ & _ & Hkana & _).
  destruct (reader_tries_utf8_then_fallbacks_in_order
              one_byte legacy_md (lit "l.md"))
    as (_ & _ & _ & Hlegacy & _).
  destruct (reader_tries_utf8_then_fallbacks_in_order
              one_byte latin_md (lit "n.md"))
    as (_ & _ & _ & Hlatin & _).
  destruct (reader_tries_utf8_then_fallbacks_in_order
              one_byte reappearing (lit "u.txt"))
    as (_ & _ & _ & Hagain & _).
  destruct (Hkana eq_refl) as [Hfirst0 _].
  destruct (Hlegacy eq_refl) as [Hfirst1 _].
  destruct (Hlatin eq_refl) as [Hfirst2 _].
  destruct (Hagain eq_refl) as [Hfirst3 _].
  split; [| split; [| split]].
  - destruct (Hfirst0 0%nat shift_jis [65393] eq_refl eq_refl) as [_ Htext].
    + intros j Hj. lia.
    + rewrite Htext. reflexivity.
  - destruct (Hfirst1 1%nat cp932 ([63731] ++ lit "#a") eq_refl eq_refl)
      as [_ Htext].
    + intros j Hj e He.
      destruct j as [| j]; [| lia]. inversion He; subst.
      exists UnicodeDecodeError. reflexivity.
    + rewrite Htext. reflexivity.
  - destruct (Hfirst2 2%nat latin1 (lit "#a" ++ [129]) eq_refl eq_refl)
      as [_ Htext].
    + intros j Hj e He.
      destruct j as [| [| j]]; [| | lia]; inversion He; subst;
        exists UnicodeDecodeError; reflexivity.
    + rewrite Htext. reflexivity.
  - destruct (Hfirst3 3%nat utf_16 (lit "A") eq_refl eq_refl) as [_ Htext].
    + intros j Hj e He.
      destruct j as [| [| [| j]]]; [| | | lia]; inversion He; subst;
        exists (OtherError (lit "[Errno 13] Permission denied"));
        reflexivity.
    + rewrite Htext. reflexivity.
Defined.

(** ** The "undecodable" result *)

Lemma agents_read_undecodable (T : tables) (fs : files) (file_path : str)
      (max_chars : Z) :
  Agents.read T fs file_path max_chars = Undecodable
  <-> FileAnalyzer.read T fs file_path = Undecodable.
Proof.
  unfold Agents.read, FileAnalyzer.read.
  destruct (open_read T fs 0 file_path utf_8) as [c | [| msg]].
  - split; discriminate.
  - rewrite agents_try_encodings.
    destruct (FileAnalyzer.try_encodings T fs 1 file_path encodings);
      split; intros H; try discriminate; reflexivity.
  - split; discriminate.
Qed.

(** C10, as stated, fails: the "undecodable" result can come back although
    some of the fallback attempts opened and read the file and failed only
    to decode it.  In [vanishing] the attempts for shift_jis and cp932 read
    the file and cannot decode it, and the file is gone when latin1 and
    utf-16 are tried.  In [flickering] the file is unreadable during the
    attempts for shift_jis, cp932 and latin1 and readable again for utf-16,
    which rejects its single byte. *)
Lemma undecodable_after_a_decoding_failure :
  ~ (FileAnalyzer.read plain vanishing (lit "x.bin") = Undecodable ->
     forall k e, nth_error encodings k = Some e ->
                 exists msg,
                   open_read plain vanishing (1 + k) (lit "x.bin") e
                   = Raise (OtherError msg))
  /\ ~ (FileAnalyzer.read plain flickering (lit "x.bin") = Undecodable ->
        forall k e, nth_error encodings k = Some e ->
                    exists msg,
                      open_read plain flickering (1 + k) (lit "x.bin") e
                      = Raise (OtherError msg)).
Proof.
  split; intros Hclaim.
  - destruct (Hclaim eq_refl 0%nat shift_jis eq_refl) as [msg Hmsg].
    vm_compute in Hmsg. discriminate.
  - destruct (Hclaim eq_refl 3%nat utf_16 eq_refl) as [msg Hmsg].
    vm_compute in Hmsg. discriminate.
Qed.

(** C10, amended.  latin1 decodes every byte sequence, so when UTF-8
    decoding has failed and the file can be opened and read at the latin1
    attempt, the loop ends at or before that attempt with a tagged result:
    "undecodable" is not returned.  It is returned only when the UTF-8
    attempt failed to decode, every fallback attempt failed, and the latin1
    attempt failed because the file could not be opened or read (the other
    attempts may have failed to decode).  The same holds for the reader of
    the agent modules. *)
Theorem undecodable_needs_latin1_io_failure
        (T : tables) (fs : files) (file_path : str) (max_chars : Z) :
  (forall bytes, exists content, decode T latin1 bytes = Some content)
  /\ (forall bytes,
         open_read T fs 0 file_path utf_8 = Raise UnicodeDecodeError ->
         fs 3%nat file_path = Contents bytes ->
         exists e content,
           In e [shift_jis; cp932; latin1]
           /\ FileAnalyzer.read T fs file_path = Tagged e content
           /\ Agents.read T fs file_path max_chars
              = Tagged e (Agents.limit content max_chars))
  /\ (FileAnalyzer.read T fs file_path = Undecodable
      \/ Agents.read T fs file_path max_chars = Undecodable ->
      open_read T fs 0 file_path utf_8 = Raise UnicodeDecodeError
      /\ (forall k, attempt_fails T fs file_path 1 encodings k)
      /\ exists msg, fs 3%nat file_path = Unreadable msg).
Proof.
  split; [| split].
  - intros bytes. simpl. eauto.
  - intros bytes Hdec Hfs.
    destruct (fallback_ends_by_latin1 T fs file_path Hfs)
      as (e & content & Hin & Htry).
    exists e, content. split; [exact Hin |].
    unfold FileAnalyzer.read, Agents.read. rewrite Hdec.
    rewrite agents_try_encodings, Htry. split; reflexivity.
  - intros Hund.
    assert (Hfa : FileAnalyzer.read T fs file_path = Undecodable).
    { destruct Hund as [H | H]; [exact H |].
      apply (agents_read_undecodable T fs file_path max_chars). exact H. }
    clear Hund. unfold FileAnalyzer.read in Hfa.
    destruct (open_read T fs 0 file_path utf_8) as [c | [| msg]] eqn:H0;
      try discriminate.
    split; [reflexivity |].
    assert (Hall := proj1 (try_encodings_undecodable T fs file_path encodings 1) Hfa).
    split; [exact Hall |].
    destruct (fs 3%nat file_path) as [msg | bytes] eqn:Hfs; [eauto |].
    destruct (Hall 2%nat latin1 eq_refl) as [x Hx].
    destruct (latin1_reads_any_bytes T fs file_path 3 Hfs) as [c Hc].
    simpl in Hx. rewrite Hc in Hx. discriminate.
Qed.

(** The amended statement on [flickering]: "undecodable" is returned, and
    the latin1 attempt found the file unreadable. *)
Lemma undecodable_needs_latin1_io_failure_witness :
  FileAnalyzer.read plain flickering (lit "x.bin") = Undecodable
  /\ exists msg, flickering 3%nat (lit "x.bin") = Unreadable msg.
Proof.
  split; [reflexivity |].
  destruct (undecodable_needs_latin1_io_failure plain flickering (lit "x.bin") 2000)
    as (_ & _ & Hsentinel).
  destruct (Hsentinel (or_introl eq_refl)) as (_ & _ & Hio).
  exact Hio.
Defined.

(** ** The substitution rules *)

Import Re.

Lemma plus_then_inv (X : Type) (cs : charset) (k : str -> option X) (x : X) :
  forall s : str,
    plus_then cs s k = Some x ->
    exists token rest,
      s = token ++ rest /\ token <> []
      /\ Forall (fun c => in_set cs c = true) token
      /\ k rest = Some x.
Proof.
  induction s as [| c s IH]; simpl; intros H; [discriminate |].
  destruct (in_set cs c) eqn:Hc; [| discriminate].
  destruct (plus_then cs s k) as [y |] eqn:Hmore.
  - destruct (IH H) as (token & rest & -> & _ & Hall & Hk).
    exists (c :: token), rest. repeat split; auto; discriminate.
  - exists [c], s. repeat split; auto. discriminate.
Qed.

Lemma firstn_token (token rest : str) :
  firstn (length (token ++ rest) - length rest) (token ++ rest) = token.
Proof.
  rewrite length_app, Nat.add_sub, firstn_app, Nat.sub_diag, firstn_all.
  simpl. apply app_nil_r.
Qed.

Lemma expand_app (t1 t2 : list titem) (g : list str) :
  expand (t1 ++ t2) g = expand t1 g ++ expand t2 g.
Proof.
  induction t1 as [| [c | n] t1 IH]; simpl; [reflexivity | |];
    rewrite IH; [reflexivity | apply app_assoc].
Qed.

Lemma expand_literal (s : str) (g : list str) : expand (map TLit s) g = s.
Proof. induction s as [| c s IH]; simpl; [| rewrite IH]; reflexivity. Qed.

(** The three patterns and templates, spelled out. *)
Lemma link_pattern_eq :
  link_pattern
  = Seq (Lit 91) (Seq (Lit 91)
      (Seq (Group (Plus (CharSet true [(93, 93)]))) (Seq (Lit 93) (Lit 93)))).
Proof. reflexivity. Qed.

Lemma link_template_eq :
  parse_template link_repl
  = [TLit 91; TLit 91; TGroup 1; TLit 93; TLit 93] ++ map TLit link_marker.
Proof. vm_compute. reflexivity. Qed.

Lemma tag_template_eq :
  parse_template tag_repl = [TLit 35; TGroup 1] ++ map TLit tag_marker.
Proof. vm_compute. reflexivity. Qed.

Lemma anchor_template_eq :
  parse_template anchor_repl
  = [TLit 94; TLit 92; TLit 49] ++ map TLit anchor_marker.
Proof. vm_compute. reflexivity. Qed.

(** A match of the cross-link pattern is two opening brackets, a non-empty
    body without closing bracket, and two closing brackets; the body is the
    group. *)
Lemma link_match (s rest : str) (g : list str) :
  match_at link_pattern s = Some (rest, g) ->
  exists body,
    s = 91 :: 91 :: body ++ 93 :: 93 :: rest
    /\ body <> [] /\ ~ In 93 body /\ g = [body].
Proof.
  rewrite link_pattern_eq. unfold match_at. simpl.
  destruct s as [| c1 [| c2 s2]]; try discriminate.
  - destruct (c1 =? 91); discriminate.
  - destruct (Z.eqb_spec c1 91); [subst | discriminate].
    destruct (Z.eqb_spec c2 91); [subst | discriminate].
    intros H. apply plus_then_inv in H.
    destruct H as (body & tail & -> & Hne & Hall & Hk).
    destruct tail as [| d1 [| d2 tail]]; try discriminate.
    + destruct (d1 =? 93); discriminate.
    + destruct (Z.eqb_spec d1 93); [subst | discriminate].
      destruct (Z.eqb_spec d2 93); [subst | discriminate].
      inversion Hk; subst. exists body. rewrite firstn_token.
      repeat split; auto.
      intros Hin. rewrite Forall_forall in Hall.
      specialize (Hall _ Hin). vm_compute in Hall. discriminate.
Qed.

(** A match of the tag pattern is [#] and a non-empty name, the group. *)
Lemma tag_match (s rest : str) (g : list str) :
  match_at tag_pattern s = Some (rest, g) ->
  exists name, s = 35 :: name ++ rest /\ name <> [] /\ g = [name].
Proof.
  unfold match_at, tag_pattern. simpl.
  destruct s as [| c1 s1]; [discriminate |].
  change (chr "#") with 35.
  destruct (Z.eqb_spec c1 35); [subst | discriminate].
  intros H. apply plus_then_inv in H.
  destruct H as (name & tail & -> & Hne & _ & Hk).
  inversion Hk; subst. exists name. rewrite firstn_token. auto.
Qed.

(** A match of the block-anchor pattern is [^] and a non-empty name. *)
Lemma anchor_match (s rest : str) (g : list str) :
  match_at anchor_pattern s = Some (rest, g) ->
  exists name, s = 94 :: name ++ rest /\ name <> [] /\ g = [name].
Proof.
  unfold match_at, anchor_pattern. simpl.
  destruct s as [| c1 s1]; [discriminate |].
  change (chr "^") with 94.
  destruct (Z.eqb_spec c1 94); [subst | discriminate].
  intros H. apply plus_then_inv in H.
  destruct H as (name & tail & -> & Hne & _ & Hk).
  inversion Hk; subst. exists name. rewrite firstn_token. auto.
Qed.

Lemma Marked_refl (marker s : str) : Marked marker s s.
Proof. induction s; constructor; assumption. Qed.

Lemma Marked_prefix (marker p s t : str) :
  Marked marker s t -> Marked marker (p ++ s) (p ++ t).
Proof. intros H. induction p; simpl; [| constructor]; assumption. Qed.

Section ScanFacts.
Variable r : regex.
Variable tpl : list titem.

(** Where the pattern matches nowhere, the scan copies the text. *)
Lemma scan_unmatched :
  forall s : str,
    (forall n, match_at r (skipn n s) = None) -> scan r tpl s 0 = s.
Proof.
  induction s as [| c s IH]; intros Hnone; [reflexivity |].
  pose proof (Hnone 0%nat) as H0. cbn [skipn] in H0.
  cbn [scan]. rewrite H0. f_equal. apply IH.
  intros n. exact (Hnone (S n)).
Qed.

(** Where every replacement is the matched token followed by [marker], the
    scan only inserts copies of [marker]. *)
Lemma scan_marks (marker : str) :
  (forall s rest g,
      match_at r s = Some (rest, g) ->
      exists token, s = token ++ rest /\ expand tpl g = token ++ marker) ->
  forall (s : str) (n : nat),
    (n <= length s)%nat -> Marked marker (skipn n s) (scan r tpl s n).
Proof.
  intros Hrepl. induction s as [| c s IH]; intros n Hn.
  - destruct n; simpl; constructor.
  - destruct n as [| n]; [| simpl in *; apply IH; lia].
    cbn [skipn scan].
    destruct (match_at r (c :: s)) as [[rest g] |] eqn:Hm;
      [| constructor; apply (IH 0%nat); lia].
    destruct (length (c :: s) - length rest)%nat as [| m] eqn:Hlen;
      [constructor; apply (IH 0%nat); lia |].
    destruct (Hrepl _ _ _ Hm) as (token & Hs & Hexp).
    assert (Htok : length token = S m)
      by (rewrite Hs, length_app in Hlen; lia).
    destruct token as [| c' token]; [discriminate |].
    simpl in Hs. inversion Hs; subst c' s. clear Hs.
    simpl in Htok. inversion Htok; subst m.
    rewrite Hexp, <- app_assoc.
    change (c :: token ++ rest) with ((c :: token) ++ rest).
    apply Marked_prefix. apply Marked_insert.
    replace rest with (skipn (length token) (token ++ rest)) at 1.
    + apply IH. rewrite length_app. lia.
    + rewrite skipn_app, skipn_all, Nat.sub_diag. reflexivity.
Qed.

End ScanFacts.

(** The cross-link rule keeps the text and only adds its marker after what
    it matches. *)
Lemma link_rule_marks (s : str) :
  Marked link_marker s (sub link_pattern link_repl s).
Proof.
  unfold sub. apply (scan_marks link_pattern) with (n := 0%nat); [| lia].
  intros t rest g Hm.
  destruct (link_match _ Hm) as (body & -> & _ & _ & ->).
  exists (91 :: 91 :: body ++ [93; 93]). split.
  - simpl. rewrite <- app_assoc. reflexivity.
  - rewrite link_template_eq, expand_app, expand_literal. simpl.
    rewrite <- !app_assoc. reflexivity.
Qed.

(** So does the tag rule. *)
Lemma tag_rule_marks (s : str) :
  Marked tag_marker s (sub tag_pattern tag_repl s).
Proof.
  unfold sub. apply (scan_marks tag_pattern) with (n := 0%nat); [| lia].
  intros t rest g Hm.
  destruct (tag_match _ Hm) as (name & -> & _ & ->).
  exists (35 :: name). split; [reflexivity |].
  rewrite tag_template_eq, expand_app, expand_literal. simpl.
  rewrite app_nil_r. reflexivity.
Qed.

(** The block-anchor rule does not: whatever the name, the replacement is
    [^], a backslash, the digit 1 and the marker. *)
Lemma anchor_rule_rewrites (s rest : str) (g : list str) :
  match_at anchor_pattern s = Some (rest, g) ->
  expand (parse_template anchor_repl) g = lit "^\1" ++ anchor_marker.
Proof.
  intros _. rewrite anchor_template_eq, expand_app, expand_literal.
  reflexivity.
Qed.

Lemma plus_then_whole (X : Type) (cs : charset) (k : str -> option X) (x : X) :
  k [] = Some x ->
  forall name : str,
    name <> [] -> Forall (fun c => in_set cs c = true) name ->
    plus_then cs name k = Some x.
Proof.
  intros Hk. induction name as [| c name IH]; intros Hne Hall;
    [contradiction |].
  inversion Hall as [| c' name' Hc Hall']; subst.
  cbn [plus_then]. rewrite Hc. destruct name as [| d name].
  - simpl. exact Hk.
  - rewrite IH; [reflexivity | discriminate | exact Hall'].
Qed.

Lemma scan_skips (r : regex) (tpl : list titem) (s : str) :
  scan r tpl s (length s) = [].
Proof. induction s as [| c s IH]; simpl; [reflexivity | exact IH]. Qed.

Lemma in_skipn (x : char) (n : nat) (s : str) : In x (skipn n s) -> In x s.
Proof.
  intros H. rewrite <- (firstn_skipn n s). apply in_or_app. right. exact H.
Qed.

(** A text without an opening bracket has no cross-link, and a text without
    [#] has no tag. *)
Lemma link_rule_needs_open (s : str) :
  ~ In 91 s -> sub link_pattern link_repl s = s.
Proof.
  intros Hs. unfold sub. apply scan_unmatched. intros n.
  destruct (match_at link_pattern (skipn n s)) as [[rest g] |] eqn:Hm;
    [| reflexivity].
  destruct (link_match _ Hm) as (body & Heq & _).
  exfalso. apply Hs. apply (in_skipn 91 n). rewrite Heq. left. reflexivity.
Qed.

Lemma tag_rule_needs_hash (s : str) :
  ~ In 35 s -> sub tag_pattern tag_repl s = s.
Proof.
  intros Hs. unfold sub. apply scan_unmatched. intros n.
  destruct (match_at tag_pattern (skipn n s)) as [[rest g] |] eqn:Hm;
    [| reflexivity].
  destruct (tag_match _ Hm) as (name & Heq & _).
  exfalso. apply Hs. apply (in_skipn 35 n). rewrite Heq. left. reflexivity.
Qed.

(** X3.  Whatever the name of a block anchor, the annotator returns the
    same text for it: the name is lost. *)
Lemma every_anchor_name_is_lost (name : str) :
  name <> [] ->
  Forall (fun c => in_set (set_of false [("a", "z"); ("A", "Z"); ("0", "9");
                                         ("-", "-")]%char) c = true) name ->
  process_obsidian_markdown (94 :: name) = lit "^\1（ブロック参照）".
Proof.
  intros Hne Hall.
  assert (Hchars : forall c, In c (94 :: name) -> c <> 91 /\ c <> 35).
  { intros c [<- | Hc]; [split; discriminate |].
    rewrite Forall_forall in Hall. specialize (Hall c Hc).
    split; intros ->; vm_compute in Hall; discriminate. }
  unfold process_obsidian_markdown.
  rewrite link_rule_needs_open
    by (intros H; apply Hchars in H; destruct H as [H _]; apply H; reflexivity).
  rewrite tag_rule_needs_hash
    by (intros H; apply Hchars in H; destruct H as [_ H]; apply H; reflexivity).
  unfold sub. cbn [scan].
  assert (Hm : match_at anchor_pattern (94 :: name) = Some ([], [name])).
  { unfold match_at, anchor_pattern. cbn [match_here].
    change (94 =? chr "^") with true. cbv iota.
    erewrite plus_then_whole; [reflexivity | | exact Hne | exact Hall].
    cbn [app]. rewrite Nat.sub_0_r, firstn_all. reflexivity. }
  rewrite Hm. cbn [length]. rewrite Nat.sub_0_r, scan_skips, app_nil_r.
  rewrite anchor_template_eq, expand_app, expand_literal. reflexivity.
Qed.

(** *** Cross-links cut by the cap *)

Lemma has_close_cons (c d : char) (s : str) :
  has_close (c :: d :: s) = (c =? 93) && (d =? 93) || has_close (d :: s).
Proof. reflexivity. Qed.

Lemma has_close_without_bracket (w t : str) :
  ~ In 93 w -> has_close (w ++ t) = has_close t.
Proof.
  induction w as [| c w IH]; intros Hw; [reflexivity |].
  assert (Hc : (c =? 93) = false)
    by (apply Z.eqb_neq; intros ->; apply Hw; left; reflexivity).
  rewrite <- IH by (intros H; apply Hw; right; exact H).
  change ((c :: w) ++ t) with (c :: (w ++ t)).
  destruct (w ++ t) as [| d u]; [reflexivity |].
  rewrite has_close_cons, Hc. reflexivity.
Qed.

Lemma has_close_tail (c : char) (s : str) :
  has_close (c :: s) = false -> has_close s = false.
Proof.
  destruct s as [| d s]; [reflexivity |].
  rewrite has_close_cons. intros H. apply orb_false_iff in H. apply H.
Qed.

Lemma has_close_skipn (s : str) :
  has_close s = false -> forall n, has_close (skipn n s) = false.
Proof.
  induction s as [| c s IH]; intros H n.
  - destruct n; reflexivity.
  - destruct n as [| n]; [exact H |]. simpl. apply IH.
    eapply has_close_tail; eauto.
Qed.

Lemma link_match_has_close (s rest : str) (g : list str) :
  match_at link_pattern s = Some (rest, g) -> has_close s = true.
Proof.
  intros Hm. destruct (link_match _ Hm) as (body & -> & _ & Hbody & _).
  change (91 :: 91 :: body ++ 93 :: 93 :: rest)
    with ((91 :: 91 :: body) ++ 93 :: 93 :: rest).
  rewrite has_close_without_bracket; [reflexivity |].
  intros [H | [H | H]]; try discriminate. contradiction.
Qed.

(** A text without two closing brackets in a row is left as it is by the
    cross-link rule. *)
Lemma link_rule_needs_close (s : str) :
  has_close s = false -> sub link_pattern link_repl s = s.
Proof.
  intros H. unfold sub. apply scan_unmatched. intros n.
  destruct (match_at link_pattern (skipn n s)) as [[rest g] |] eqn:Hm;
    [| reflexivity].
  apply link_match_has_close in Hm.
  rewrite has_close_skipn in Hm; [discriminate | exact H].
Qed.

Lemma in_firstn (x : char) (n : nat) (s : str) :
  In x (firstn n s) -> In x s.
Proof.
  intros H. rewrite <- (firstn_skipn n s). apply in_or_app. left. exact H.
Qed.

(** A cross-link that the cap cuts has lost its closing brackets. *)
Lemma cut_link_has_no_close (body : str) (max_chars : Z) :
  ~ In 93 body ->
  0 <= max_chars < len (lit "[[" ++ body ++ lit "]]") ->
  has_close (Agents.limit (lit "[[" ++ body ++ lit "]]") max_chars) = false.
Proof.
  intros Hbody [Hlo Hhi].
  change (lit "[[" ++ body ++ lit "]]") with ((91 :: 91 :: body) ++ [93; 93]) in *.
  destruct (limit_spec ((91 :: 91 :: body) ++ [93; 93]) Hlo) as [_ Hcut].
  destruct (Hcut Hhi) as [-> _].
  rewrite firstn_app, <- app_assoc, has_close_without_bracket.
  - rewrite len_app in Hhi. unfold len in Hhi. simpl length in Hhi.
    match goal with
    | |- context [firstn ?k [93; 93]] => destruct k as [| [| k']] eqn:Hk
    end; try reflexivity.
    simpl length in Hk. exfalso. unfold str, char in *. lia.
  - intros Hin. apply in_firstn in Hin.
    destruct Hin as [H | [H | H]]; try discriminate. contradiction.
Qed.

(** *** A cross-link cut inside a note *)

(** The greedy body of a cross-link: all the characters up to the first
    closing bracket. *)
Lemma plus_then_greedy (X : Type) (k : str -> option X) (x : X)
      (t : str) :
  k (93 :: t) = Some x ->
  forall body : str,
    body <> [] -> ~ In 93 body ->
    plus_then (CharSet true [(93, 93)]) (body ++ 93 :: t) k = Some x.
Proof.
  intros Hk. induction body as [| c body IH]; intros Hne Hbody;
    [contradiction |].
  assert (Hc : in_set (CharSet true [(93, 93)]) c = true).
  { unfold in_set, in_range. cbn [negated ranges existsb fst snd xorb orb].
    destruct (Z.leb_spec 93 c), (Z.leb_spec c 93); cbn; try reflexivity.
    exfalso. apply Hbody. left. lia. }
  change ((c :: body) ++ 93 :: t) with (c :: (body ++ 93 :: t)).
  cbn [plus_then]. rewrite Hc.
  destruct body as [| d body].
  - cbn [app plus_then]. change (in_set (CharSet true [(93, 93)]) 93) with false.
    cbv iota. exact Hk.
  - rewrite IH; [reflexivity | discriminate |].
    intros H. apply Hbody. right. exact H.
Qed.

(** Two opening brackets, a body without closing bracket and two closing
    brackets are a match of the cross-link pattern. *)
Lemma link_match_complete (body rest : str) :
  body <> [] -> ~ In 93 body ->
  match_at link_pattern (91 :: 91 :: body ++ 93 :: 93 :: rest)
  = Some (rest, [body]).
Proof.
  intros Hne Hbody. rewrite link_pattern_eq. unfold match_at.
  cbn [match_here]. change (91 =? 91) with true. cbv iota.
  erewrite plus_then_greedy; [reflexivity | | exact Hne | exact Hbody].
  change (93 =? 93) with true. cbv iota. cbn [app].
  rewrite firstn_token. reflexivity.
Qed.

Lemma has_close_mid (a b : str) : has_close (a ++ 93 :: 93 :: b) = true.
Proof.
  induction a as [| c a IH]; [reflexivity |].
  change ((c :: a) ++ 93 :: 93 :: b) with (c :: (a ++ 93 :: 93 :: b)).
  destruct (a ++ 93 :: 93 :: b) as [| d u] eqn:Hau; [discriminate |].
  rewrite has_close_cons, IH. apply orb_true_r.
Qed.

Section CutTail.
(** What follows the text: it holds no two closing brackets in a row and
    does not start with one. *)
Variable tail : str.
Hypothesis Hclose : has_close tail = false.
Hypothesis Hhead : forall t, tail <> 93 :: t.

(** A match of the cross-link pattern does not reach into the tail. *)
Lemma link_match_app (s : str) :
  match_at link_pattern (s ++ tail)
  = match match_at link_pattern s with
    | Some (rest, g) => Some (rest ++ tail, g)
    | None => None
    end.
Proof.
  destruct (match_at link_pattern s) as [[rest g] |] eqn:Hs.
  - destruct (link_match _ Hs) as (body & -> & Hne & Hbody & ->).
    change ((91 :: 91 :: body ++ 93 :: 93 :: rest) ++ tail)
      with (91 :: 91 :: (body ++ 93 :: 93 :: rest) ++ tail).
    rewrite <- app_assoc.
    change ((93 :: 93 :: rest) ++ tail) with (93 :: 93 :: (rest ++ tail)).
    apply link_match_complete; assumption.
  - destruct (match_at link_pattern (s ++ tail)) as [[rest g] |] eqn:Hm;
      [exfalso | reflexivity].
    destruct (link_match _ Hm) as (body & Heq & Hne & Hbody & _).
    assert (Hs' : forall l, s <> 91 :: 91 :: body ++ 93 :: 93 :: l).
    { intros l ->. rewrite link_match_complete in Hs by assumption.
      discriminate. }
    change (91 :: 91 :: body ++ 93 :: 93 :: rest)
      with ((91 :: 91 :: body) ++ [93; 93] ++ rest) in Heq.
    rewrite app_assoc in Heq.
    apply app_eq_app in Heq. destruct Heq as (l & [[H1 H2] | [H1 H2]]).
    + (* the match ends inside the text *)
      apply (Hs' l). rewrite H1, <- app_assoc. reflexivity.
    + (* the match ends inside the tail *)
      symmetry in H1. apply app_eq_app in H1.
      destruct H1 as (m & [[H3 H4] | [H3 H4]]).
      * (* the text ends inside the closing brackets *)
        destruct m as [| x [| y [| z m]]].
        -- cbn [app] in H4. subst l.
           rewrite H2 in Hclose.
           change ([93; 93] ++ rest) with ([] ++ 93 :: 93 :: rest) in Hclose.
           rewrite has_close_mid in Hclose. discriminate.
        -- cbn [app] in H4. injection H4 as <- <-.
           exact (Hhead H2).
        -- cbn [app] in H4. injection H4 as <- <- <-.
           apply (Hs' []). rewrite H3. reflexivity.
        -- cbn [app] in H4. discriminate.
      * (* the tail holds the two closing brackets *)
        subst l. rewrite H2, <- app_assoc in Hclose.
        change ([93; 93] ++ rest) with (93 :: 93 :: rest) in Hclose.
        rewrite has_close_mid in Hclose. discriminate.
Qed.

(** So the cross-link rule leaves the tail as it is, and does to the text
    before it what it does to that text alone. *)
Lemma link_scan_app :
  forall (pre : str) (n : nat),
    (n <= length pre)%nat ->
    scan link_pattern (parse_template link_repl) (pre ++ tail) n
    = scan link_pattern (parse_template link_repl) pre n ++ tail.
Proof.
  induction pre as [| c pre IH]; intros n Hn.
  - assert (n = 0%nat) by (simpl in Hn; lia). subst n. cbn [app scan].
    exact (link_rule_needs_close _ Hclose).
  - destruct n as [| n].
    + change ((c :: pre) ++ tail) with (c :: (pre ++ tail)).
      cbn [scan].
      change (c :: (pre ++ tail)) with ((c :: pre) ++ tail).
      rewrite link_match_app.
      destruct (match_at link_pattern (c :: pre)) as [[rest g] |] eqn:Hm.
      * destruct (link_match _ Hm) as (body & Hshape & _).
        assert (Hlen : (length rest <= length pre)%nat).
        { apply (f_equal (@length _)) in Hshape. simpl in Hshape.
          rewrite length_app in Hshape. simpl in Hshape.
          unfold str, char in *. lia. }
        assert (Hsame : (length ((c :: pre) ++ tail) - length (rest ++ tail)
                         = length (c :: pre) - length rest)%nat).
        { rewrite !length_app. cbn [length]. unfold str, char in *.
          lia. }
        rewrite Hsame.
        destruct (length (c :: pre) - length rest)%nat as [| m] eqn:Hm';
          [rewrite (IH 0%nat) by lia; reflexivity |].
        rewrite (IH m) by (cbn [length] in Hm'; unfold str, char in *; lia).
        rewrite <- app_assoc. reflexivity.
      * rewrite (IH 0%nat) by lia. reflexivity.
    + change ((c :: pre) ++ tail) with (c :: (pre ++ tail)).
      cbn [scan]. apply IH. simpl in Hn. lia.
Qed.

Lemma link_rule_passes_tail (pre : str) :
  sub link_pattern link_repl (pre ++ tail)
  = sub link_pattern link_repl pre ++ tail.
Proof. unfold sub. apply link_scan_app. lia. Qed.

End CutTail.

(** A note whose text is cut inside a cross-link: the capped text is the
    text before the cross-link and the cut cross-link. *)
Lemma limit_inside_a_link (pre link post : str) (max_chars : Z) :
  len pre < max_chars < len pre + len link ->
  Agents.limit (pre ++ link ++ post) max_chars
  = pre ++ Agents.limit link (max_chars - len pre).
Proof.
  intros [Hlo Hhi].
  assert (Hpre : 0 <= len pre) by (unfold len; lia).
  destruct (@limit_spec (pre ++ link ++ post) max_chars) as [_ Hcut]; [lia |].
  destruct Hcut as [-> _];
    [rewrite !len_app; unfold len in *; lia |].
  destruct (@limit_spec link (max_chars - len pre)) as [_ Hcut']; [lia |].
  destruct Hcut' as [-> _]; [lia |].
  rewrite firstn_app, firstn_all2 by (unfold len in *; lia).
  rewrite firstn_app.
  replace (Z.to_nat max_chars - length pre)%nat
    with (Z.to_nat (max_chars - len pre)) by (unfold len in *; lia).
  replace (Z.to_nat (max_chars - len pre) - length link)%nat with 0%nat
    by (unfold len in *; lia).
  cbn [firstn]. rewrite app_nil_r, <- app_assoc. reflexivity.
Qed.

(** The cut cross-link starts with an opening bracket and holds no two
    closing brackets in a row. *)
Lemma cut_link_is_a_tail (body : str) (k : Z) :
  ~ In 93 body ->
  0 < k < len (lit "[[" ++ body ++ lit "]]") ->
  has_close (Agents.limit (lit "[[" ++ body ++ lit "]]") k) = false
  /\ forall t, Agents.limit (lit "[[" ++ body ++ lit "]]") k <> 93 :: t.
Proof.
  intros Hbody [Hlo Hhi].
  split; [apply cut_link_has_no_close; [exact Hbody | lia] |].
  intros t.
  destruct (@limit_spec (lit "[[" ++ body ++ lit "]]") k) as [_ Hcut]; [lia |].
  destruct (Hcut Hhi) as [-> _].
  change (lit "[[" ++ body ++ lit "]]") with (91 :: (91 :: body ++ [93; 93])).
  destruct (Z.to_nat k) as [| n] eqn:Hk; [lia |].
  cbn [firstn app]. discriminate.
Qed.

(** ** Which texts are annotated *)




(** ** The statistics by extension *)

Lemma eqb_eq (a b : str) : Text.eqb a b = true <-> a = b.
Proof.
  revert b. induction a as [| x a IH]; intros [| y b]; simpl;
    try (split; [discriminate | discriminate]); [tauto |].
  rewrite andb_true_iff, Z.eqb_eq, IH. split.
  - intros [-> ->]. reflexivity.
  - intros H. inversion H. auto.
Qed.

Lemma eqb_refl (a : str) : Text.eqb a a = true.
Proof. apply eqb_eq. reflexivity. Qed.

Lemma eqb_neq (a b : str) : Text.eqb a b = false <-> a <> b.
Proof.
  rewrite <- eqb_eq. destruct (Text.eqb a b); split; congruence.
Qed.

Section DictFacts.
Import Agents.
Variable V : Type.
Implicit Types (d : list (str * V)) (k : str).

Lemma dict_get_update k k' (f : V -> V) d :
  dict_get k' (dict_update k f d)
  = if Text.eqb k k' then option_map f (dict_get k d) else dict_get k' d.
Proof.
  induction d as [| [k0 v0] d IH]; simpl.
  - destruct (Text.eqb k k'); reflexivity.
  - destruct (Text.eqb k0 k) eqn:H0k; simpl.
    + apply eqb_eq in H0k. subst k0.
      destruct (Text.eqb k k'); reflexivity.
    + rewrite IH. destruct (Text.eqb k0 k') eqn:H0k'; [| reflexivity].
      apply eqb_eq in H0k'. subst k0.
      destruct (Text.eqb k k') eqn:Hkk'; [| reflexivity].
      apply eqb_eq in Hkk'. subst k'. rewrite eqb_refl in H0k. discriminate.
Qed.

Lemma dict_get_set k k' (v : V) d :
  dict_get k' (dict_set k v d)
  = if Text.eqb k k' then Some v else dict_get k' d.
Proof.
  induction d as [| [k0 v0] d IH]; simpl; [reflexivity |].
  destruct (Text.eqb k0 k) eqn:H0k; simpl.
  - apply eqb_eq in H0k. subst k0.
    destruct (Text.eqb k k'); reflexivity.
  - rewrite IH. destruct (Text.eqb k0 k') eqn:H0k'; [| reflexivity].
    apply eqb_eq in H0k'. subst k0.
    destruct (Text.eqb k k') eqn:Hkk'; [| reflexivity].
    apply eqb_eq in Hkk'. subst k'. rewrite eqb_refl in H0k. discriminate.
Qed.

Lemma dict_mem_get k d : dict_mem k d = true <-> dict_get k d <> None.
Proof.
  induction d as [| [k0 v0] d IH]; simpl; [split; congruence |].
  destruct (Text.eqb k0 k); simpl; [split; congruence | exact IH].
Qed.

Lemma dict_mem_keys k d : dict_mem k d = true <-> In k (map fst d).
Proof.
  induction d as [| [k0 v0] d IH]; simpl; [split; [discriminate | tauto] |].
  rewrite orb_true_iff, eqb_eq, IH. tauto.
Qed.

Lemma dict_update_keys k (f : V -> V) d :
  map fst (dict_update k f d) = map fst d.
Proof.
  induction d as [| [k0 v0] d IH]; simpl; [reflexivity |].
  destruct (Text.eqb k0 k); simpl; [| rewrite IH]; reflexivity.
Qed.

Lemma dict_set_new_key k (v : V) d :
  dict_mem k d = false -> dict_set k v d = d ++ [(k, v)].
Proof.
  induction d as [| [k0 v0] d IH]; simpl; [reflexivity |].
  intros H. apply orb_false_iff in H. destruct H as [H0 Hd].
  rewrite H0, IH by exact Hd. reflexivity.
Qed.

End DictFacts.

Lemma sum_counts_app (d1 d2 : list (str * Agents.TypeStat.t)) :
  sum_counts (d1 ++ d2) = sum_counts d1 + sum_counts d2.
Proof. induction d1 as [| kv d1 IH]; simpl; [| rewrite IH]; lia. Qed.

Lemma sum_sizes_app (d1 d2 : list (str * Agents.TypeStat.t)) :
  sum_sizes (d1 ++ d2) = sum_sizes d1 + sum_sizes d2.
Proof. induction d1 as [| kv d1 IH]; simpl; [| rewrite IH]; lia. Qed.

(** An update in place of an existing bucket moves the two sums by what it
    adds to the bucket. *)
Lemma sums_after_update (k : str) (dc ds : Z)
      (f : Agents.TypeStat.t -> Agents.TypeStat.t)
      (d : list (str * Agents.TypeStat.t)) :
  (forall v, Agents.TypeStat.count (f v) = Agents.TypeStat.count v + dc) ->
  (forall v, Agents.TypeStat.total_size (f v)
             = Agents.TypeStat.total_size v + ds) ->
  Agents.dict_mem k d = true ->
  sum_counts (Agents.dict_update k f d) = sum_counts d + dc
  /\ sum_sizes (Agents.dict_update k f d) = sum_sizes d + ds.
Proof.
  intros Hc Hs. induction d as [| [k0 v0] d IH]; simpl; [discriminate |].
  destruct (Text.eqb k0 k); simpl.
  - intros _. rewrite Hc, Hs. lia.
  - intros H. destruct (IH H) as [Hc' Hs']. rewrite Hc', Hs'. lia.
Qed.

Lemma total_bytes_app (a b : list FileAnalyzer.file_info) :
  total_bytes (a ++ b) = total_bytes a + total_bytes b.
Proof. induction a as [| f a IH]; simpl; [| rewrite IH]; lia. Qed.

Lemma bucket_app (T : tables) (k : str) (a b : list FileAnalyzer.file_info) :
  bucket T k (a ++ b) = bucket T k a ++ bucket T k b.
Proof. apply filter_app. Qed.

Lemma stat_of_snoc (b : list FileAnalyzer.file_info)
      (f : FileAnalyzer.file_info) :
  stat_of (b ++ [f])
  = Some (Agents.TypeStat.Make
            (match stat_of b with
             | Some v => Agents.TypeStat.count v
             | None => 0
             end + 1)
            (match stat_of b with
             | Some v => Agents.TypeStat.total_size v
             | None => 0
             end + FileAnalyzer.size f)).
Proof.
  destruct b as [| f0 b]; [simpl; f_equal; f_equal; lia |].
  unfold stat_of. change ((f0 :: b) ++ [f]) with (f0 :: (b ++ [f])).
  cbn [Agents.TypeStat.count Agents.TypeStat.total_size].
  f_equal. f_equal.
  - rewrite !length_cons, length_app. simpl length. lia.
  - change (f0 :: b ++ [f]) with ((f0 :: b) ++ [f]).
    rewrite total_bytes_app. simpl. lia.
Qed.

Section AggregateFacts.
Import Agents.
Variable T : tables.

(** What one turn of the loop does to the dictionary and the total. *)
Lemma count_file_step (type_stats : list (str * TypeStat.t)) (total : Z)
      (f : FileAnalyzer.file_info) :
  let ext := extension_key T (FileAnalyzer.path f) in
  let '(type_stats', total') := count_file T (type_stats, total) f in
  total' = total + FileAnalyzer.size f
  /\ sum_counts type_stats' = sum_counts type_stats + 1
  /\ sum_sizes type_stats' = sum_sizes type_stats + FileAnalyzer.size f
  /\ (NoDup (map fst type_stats) -> NoDup (map fst type_stats'))
  /\ (forall k,
         dict_get k type_stats'
         = if Text.eqb ext k
           then Some (TypeStat.Make
                        (match dict_get ext type_stats with
                         | Some v => TypeStat.count v
                         | None => 0
                         end + 1)
                        (match dict_get ext type_stats with
                         | Some v => TypeStat.total_size v
                         | None => 0
                         end + FileAnalyzer.size f))
           else dict_get k type_stats).
Proof.
  intros ext. unfold count_file. fold ext.
  set (d1 := if negb (dict_mem ext type_stats)
             then dict_set ext (TypeStat.Make 0 0) type_stats
             else type_stats).
  set (f1 := fun v => TypeStat.Make (TypeStat.count v + 1) (TypeStat.total_size v)).
  set (f2 := fun v => TypeStat.Make (TypeStat.count v)
                                    (TypeStat.total_size v + FileAnalyzer.size f)).
  assert (Hmem1 : dict_mem ext d1 = true).
  { unfold d1. destruct (dict_mem ext type_stats) eqn:Hm; simpl; [exact Hm |].
    apply dict_mem_get. rewrite dict_get_set, eqb_refl. discriminate. }
  assert (Hsum1 : sum_counts d1 = sum_counts type_stats
                  /\ sum_sizes d1 = sum_sizes type_stats).
  { unfold d1. destruct (dict_mem ext type_stats) eqn:Hm; simpl; [tauto |].
    rewrite dict_set_new_key by exact Hm.
    rewrite sum_counts_app, sum_sizes_app. simpl. lia. }
  assert (Hget1 : forall k, dict_get k d1
                            = if Text.eqb ext k
                              then Some (match dict_get ext type_stats with
                                         | Some v => v
                                         | None => TypeStat.Make 0 0
                                         end)
                              else dict_get k type_stats).
  { intros k. unfold d1. destruct (dict_mem ext type_stats) eqn:Hm; simpl.
    - destruct (Text.eqb ext k) eqn:Hk; [| reflexivity].
      apply eqb_eq in Hk. subst k.
      apply dict_mem_get in Hm.
      destruct (dict_get ext type_stats); [reflexivity | contradiction].
    - rewrite dict_get_set. destruct (Text.eqb ext k); [| reflexivity].
      destruct (dict_get ext type_stats) eqn:Hg; [| reflexivity].
      assert (dict_mem ext type_stats = true)
        by (apply dict_mem_get; rewrite Hg; discriminate).
      congruence. }
  assert (Hmem2 : dict_mem ext (dict_update ext f1 d1) = true).
  { apply dict_mem_keys. rewrite dict_update_keys. apply dict_mem_keys.
    exact Hmem1. }
  destruct (@sums_after_update ext 1 0 f1 d1) as [Hc2 Hs2];
    [reflexivity | intros v; simpl; lia | exact Hmem1 |].
  destruct (@sums_after_update ext 0 (FileAnalyzer.size f) f2
                               (dict_update ext f1 d1)) as [Hc3 Hs3];
    [intros v; simpl; lia | reflexivity | exact Hmem2 |].
  split; [reflexivity |]. split; [lia |]. split; [lia |]. split.
  - intros Hnodup. rewrite !dict_update_keys. unfold d1.
    destruct (dict_mem ext type_stats) eqn:Hm; simpl; [exact Hnodup |].
    rewrite dict_set_new_key by exact Hm.
    rewrite map_app. simpl.
    apply NoDup_app; [exact Hnodup | repeat constructor; simpl; tauto |].
    intros k Hk [<- | []].
    apply dict_mem_keys in Hk. congruence.
  - intros k. rewrite !dict_get_update, eqb_refl.
    destruct (Text.eqb ext k) eqn:Hk.
    + rewrite Hget1, eqb_refl.
      destruct (dict_get ext type_stats) as [v |]; simpl; f_equal; f_equal; lia.
    + rewrite Hget1, Hk. reflexivity.
Qed.

End AggregateFacts.

(** The loop keeps the dictionary in step with the files it has seen. *)
Lemma count_files_invariant (T : tables) :
  forall (files done : list FileAnalyzer.file_info)
         (type_stats : list (str * Agents.TypeStat.t)) (total : Z),
    sum_counts type_stats = Z.of_nat (length done) ->
    sum_sizes type_stats = total_bytes done ->
    total = total_bytes done ->
    NoDup (map fst type_stats) ->
    (forall k, Agents.dict_get k type_stats = stat_of (bucket T k done)) ->
    let '(type_stats', total') :=
      fold_left (Agents.count_file T) files (type_stats, total) in
    sum_counts type_stats' = Z.of_nat (length (done ++ files))
    /\ sum_sizes type_stats' = total_bytes (done ++ files)
    /\ total' = total_bytes (done ++ files)
    /\ NoDup (map fst type_stats')
    /\ (forall k, Agents.dict_get k type_stats'
                  = stat_of (bucket T k (done ++ files))).
Proof.
  intros files.
  induction files as [| f files IH]; intros done ts total Hc Hs Ht Hnd Hget.
  - simpl. rewrite app_nil_r. auto.
  - cbn [fold_left].
    pose proof (count_file_step T ts total f) as Hstep. cbv zeta in Hstep.
    destruct (Agents.count_file T (ts, total) f) as [ts1 total1].
    destruct Hstep as (Ht1 & Hc1 & Hs1 & Hnd1 & Hget1).
    specialize (IH (done ++ [f]) ts1 total1).
    rewrite <- app_assoc in IH. apply IH; clear IH.
    + rewrite Hc1, Hc, length_app. simpl. lia.
    + rewrite Hs1, Hs, total_bytes_app. simpl. lia.
    + rewrite Ht1, Ht, total_bytes_app. simpl. lia.
    + auto.
    + intros k. rewrite Hget1, bucket_app.
      unfold bucket at 2. cbn [filter].
      destruct (Text.eqb (Agents.extension_key T (FileAnalyzer.path f)) k)
        eqn:Hk.
      * apply eqb_eq in Hk. subst k. rewrite stat_of_snoc, Hget. reflexivity.
      * rewrite app_nil_r. apply Hget.
Qed.

(** *** The extension key *)

Lemma rfind_spec (c : char) (s : str) :
  0 <= PathLib.rfind c s ->
  exists a b, s = a ++ c :: b /\ Z.of_nat (length a) = PathLib.rfind c s.
Proof.
  induction s as [| x s IH]; simpl; [lia |].
  destruct (Z.leb_spec 0 (PathLib.rfind c s)).
  - intros _. destruct (IH H) as (a & b & -> & Hlen).
    exists (x :: a), b. split; [reflexivity |]. simpl length. lia.
  - destruct (Z.eqb_spec x c); [subst | lia].
    intros _. exists [], s. split; reflexivity.
Qed.

(** A suffix, when there is one, starts with the dot. *)
Lemma suffix_starts_with_dot (p : str) :
  PathLib.suffix p = [] \/ exists rest, PathLib.suffix p = PathLib.dot :: rest.
Proof.
  unfold PathLib.suffix.
  destruct ((0 <? PathLib.rfind PathLib.dot (PathLib.name p))
            && (PathLib.rfind PathLib.dot (PathLib.name p)
                <? len (PathLib.name p) - 1)) eqn:Hcond; [| left; reflexivity].
  right. apply andb_true_iff in Hcond. destruct Hcond as [Hpos _].
  apply Z.ltb_lt in Hpos.
  destruct (@rfind_spec PathLib.dot (PathLib.name p)) as (a & b & Hname & Hlen);
    [lia |].
  rewrite <- Hlen, Nat2Z.id. exists b.
  rewrite Hname, skipn_app, skipn_all, Nat.sub_diag. reflexivity.
Qed.

Lemma lower_from_case_blind (U : str -> nat -> str) (whole : str) :
  forall (s t : str) (i : nat),
    map lower_ascii s = map lower_ascii t ->
    lower_from U whole i s = lower_from U whole i t.
Proof.
  induction s as [| c s IH]; intros [| d t] i H; try discriminate;
    [reflexivity |].
  simpl in H. inversion H as [[Hcd Hst]]. cbn [lower_from].
  rewrite (IH _ (S i) Hst). f_equal.
  clear - Hcd. unfold lower_ascii, in_range in *.
  repeat match goal with
         | H : context [?a <=? ?b] |- _ => destruct (Z.leb_spec a b); simpl in H
         | |- context [?a <=? ?b] => destruct (Z.leb_spec a b); simpl
         end; try lia; try (f_equal; lia); try (subst; reflexivity).
Qed.

Lemma lower_case_blind (U : str -> nat -> str) (s t : str) :
  map lower_ascii s = map lower_ascii t -> lower U s = lower U t.
Proof.
  intros H. unfold lower. rewrite H. apply lower_from_case_blind. exact H.
Qed.

(** The lower-cased suffix starts with the dot, as the suffix does. *)
Lemma lower_of_suffix (U : str -> nat -> str) (p : str) :
  PathLib.suffix p <> [] ->
  exists low, lower U (PathLib.suffix p) = PathLib.dot :: low.
Proof.
  intros Hne. destruct (suffix_starts_with_dot p) as [H | [rest H]];
    [contradiction |].
  rewrite H. unfold lower. cbn [map lower_from].
  change (in_range 0 127 PathLib.dot) with true. cbv iota.
  eexists. reflexivity.
Qed.

(** The key of a file with a suffix is the suffix in lower case. *)
Lemma extension_key_of_suffix (T : tables) (p : str) :
  PathLib.suffix p <> [] ->
  Agents.extension_key T p = lower (unicode_lower T) (PathLib.suffix p).
Proof.
  intros Hne. unfold Agents.extension_key.
  destruct (lower_of_suffix (unicode_lower T) p Hne) as [low ->].
  reflexivity.
Qed.

(** A text of ASCII characters is lowered letter by letter. *)
Lemma lower_from_ascii (U : str -> nat -> str) (whole : str) :
  forall (s : str) (i : nat),
    Forall (fun c => in_range 0 127 c = true) s ->
    lower_from U whole i s = map lower_ascii s.
Proof.
  induction s as [| c s IH]; intros i Hs; [reflexivity |].
  inversion Hs as [| c' s' Hc Hs']; subst.
  cbn [lower_from map]. rewrite Hc, (IH _ Hs'). reflexivity.
Qed.

(** Two files have the same key only when their suffixes are the same in
    lower case. *)
Lemma extension_key_inj (T : tables) (p q : str) :
  Agents.extension_key T p = Agents.extension_key T q ->
  lower (unicode_lower T) (PathLib.suffix p)
  = lower (unicode_lower T) (PathLib.suffix q).
Proof.
  assert (Hno : forall low, Agents.no_extension <> PathLib.dot :: low)
    by (intros low H; vm_compute in H; discriminate).
  intros Hkey.
  destruct (PathLib.suffix p) as [| c sp] eqn:Hp;
    destruct (PathLib.suffix q) as [| d sq] eqn:Hq.
  - reflexivity.
  - exfalso.
    assert (Hne : PathLib.suffix q <> []) by (rewrite Hq; discriminate).
    destruct (lower_of_suffix (unicode_lower T) q Hne) as [low Hlow].
    rewrite (extension_key_of_suffix T q Hne), Hlow in Hkey.
    unfold Agents.extension_key in Hkey. rewrite Hp in Hkey.
    exact (Hno low Hkey).
  - exfalso.
    assert (Hne : PathLib.suffix p <> []) by (rewrite Hp; discriminate).
    destruct (lower_of_suffix (unicode_lower T) p Hne) as [low Hlow].
    rewrite (extension_key_of_suffix T p Hne), Hlow in Hkey.
    unfold Agents.extension_key in Hkey. rewrite Hq in Hkey.
    symmetry in Hkey. exact (Hno low Hkey).
  - rewrite <- Hp, <- Hq.
    rewrite <- (extension_key_of_suffix T p) by (rewrite Hp; discriminate).
    rewrite <- (extension_key_of_suffix T q) by (rewrite Hq; discriminate).
    exact Hkey.
Qed.

(** C8.  For every manifest, the counts of the buckets add up to
    [total_files], which is the length of the manifest, and their sizes add
    up to [total_size], which is the sum of the sizes of the files.  Each
    bucket holds exactly the files of its key: no file is dropped.  The key
    of a file with a suffix is that suffix in lower case: for a suffix of
    ASCII characters, the suffix with its capital letters lowered.  So
    suffixes that differ only in the case of ASCII letters share a bucket,
    and two files share a bucket only when their suffixes are the same in
    lower case; the files without suffix, and only they, go to the bucket
    ["拡張子なし"]. *)
Theorem type_stats_account_for_every_file
        (T : tables) (manifest : list FileAnalyzer.file_info) :
  let r := Agents.analyze_file_types T manifest in
  sum_counts (Agents.file_types r) = Agents.total_files r
  /\ Agents.total_files r = Z.of_nat (length manifest)
  /\ sum_sizes (Agents.file_types r) = Agents.total_size r
  /\ Agents.total_size r = total_bytes manifest
  /\ NoDup (map fst (Agents.file_types r))
  /\ (forall k, Agents.dict_get k (Agents.file_types r)
                = stat_of (bucket T k manifest))
  /\ (forall f, In f manifest ->
                Agents.dict_mem (Agents.extension_key T (FileAnalyzer.path f))
                                (Agents.file_types r) = true)
  /\ (forall p, PathLib.suffix p = []
                <-> Agents.extension_key T p = Agents.no_extension)
  /\ (forall p q,
         map lower_ascii (PathLib.suffix p) = map lower_ascii (PathLib.suffix q) ->
         Agents.extension_key T p = Agents.extension_key T q)
  /\ (forall p,
         PathLib.suffix p <> [] ->
         Agents.extension_key T p
         = lower (unicode_lower T) (PathLib.suffix p))
  /\ (forall p,
         PathLib.suffix p <> [] ->
         Forall (fun c => in_range 0 127 c = true) (PathLib.suffix p) ->
         Agents.extension_key T p = map lower_ascii (PathLib.suffix p))
  /\ (forall p q,
         Agents.extension_key T p = Agents.extension_key T q ->
         lower (unicode_lower T) (PathLib.suffix p)
         = lower (unicode_lower T) (PathLib.suffix q)).
Proof.
  intros r. unfold r, Agents.analyze_file_types.
  pose proof (@count_files_invariant T manifest [] [] 0
                eq_refl eq_refl eq_refl (NoDup_nil _) (fun k => eq_refl))
    as Hinv.
  destruct (fold_left (Agents.count_file T) manifest ([], 0))
    as [type_stats total].
  simpl app in Hinv. destruct Hinv as (Hc & Hs & Ht & Hnd & Hget).
  cbn [Agents.file_types Agents.total_files Agents.total_size].
  split; [exact Hc |]. split; [reflexivity |]. split; [congruence |].
  split; [exact Ht |]. split; [exact Hnd |]. split; [exact Hget |].
  split; [| split; [| split; [| split; [| split]]]].
  - intros f Hf. apply dict_mem_get. rewrite Hget.
    assert (Hin : In f (bucket T (Agents.extension_key T (FileAnalyzer.path f))
                               manifest)).
    { apply filter_In. split; [exact Hf | apply eqb_refl]. }
    destruct (bucket T (Agents.extension_key T (FileAnalyzer.path f)) manifest);
      [contradiction | discriminate].
  - intros p. split.
    + intros Hsfx. unfold Agents.extension_key. rewrite Hsfx. reflexivity.
    + intros Hkey. destruct (suffix_starts_with_dot p) as [H | [rest H]];
        [exact H |].
      assert (Hne : PathLib.suffix p <> []) by (rewrite H; discriminate).
      destruct (lower_of_suffix (unicode_lower T) p Hne) as [low Hlow].
      rewrite (extension_key_of_suffix T p Hne), Hlow in Hkey.
      vm_compute in Hkey. discriminate.
  - intros p q Heq. unfold Agents.extension_key.
    rewrite (lower_case_blind (unicode_lower T) _ _ Heq). reflexivity.
  - intros p Hne. exact (extension_key_of_suffix T p Hne).
  - intros p Hne Hascii. rewrite (extension_key_of_suffix T p Hne).
    unfold lower. apply lower_from_ascii. exact Hascii.
  - intros p q. apply extension_key_inj.
Qed.

(** Four files, two of them notes whose suffixes differ in case, one
    without suffix: three buckets, in the order in which their keys come
    up. *)
Lemma type_stats_account_for_every_file_witness :
  let manifest :=
    [FileAnalyzer.FileInfo (lit "vault/notes/a.md")
                           (lit "2023-11-14T22:13:20") 29;
     FileAnalyzer.FileInfo (lit "vault/todo.TXT")
                           (lit "2023-11-14T22:13:20") 7;
     FileAnalyzer.FileInfo (lit "vault/B.MD") (lit "2023-11-14T22:13:20") 3;
     FileAnalyzer.FileInfo (lit "vault/README")
                           (lit "2023-11-14T22:13:21") 1] in
  Agents.analyze_file_types one_byte manifest
  = Agents.Report
      [(lit ".md", Agents.TypeStat.Make 2 32);
       (lit ".txt", Agents.TypeStat.Make 1 7);
       (lit "拡張子なし", Agents.TypeStat.Make 1 1)]
      4 40
  /\ sum_counts (Agents.file_types (Agents.analyze_file_types
                                      one_byte manifest)) = 4
  /\ sum_sizes (Agents.file_types (Agents.analyze_file_types
                                     one_byte manifest)) = 40
  /\ Agents.extension_key one_byte (lit "vault/B.MD") = lit ".md".
Proof.
  intros manifest.
  destruct (type_stats_account_for_every_file one_byte manifest)
    as (Hc & Hn & Hs & Ht & _ & _ & _ & _ & _ & _ & Hascii & _).
  split; [vm_compute; reflexivity |].
  split; [rewrite Hc, Hn; reflexivity |].
  split; [rewrite Hs, Ht; reflexivity |].
  rewrite (Hascii (lit "vault/B.MD")).
  - vm_compute. reflexivity.
  - vm_compute. discriminate.
  - vm_compute. repeat constructor.
Defined.

(** ** The order of strings *)

Lemma compare_refl (a : str) : Text.compare a a = Eq.
Proof.
  induction a as [| x a IH]; simpl; [reflexivity |].
  rewrite Z.compare_refl. exact IH.
Qed.

Lemma compare_eq (a b : str) : Text.compare a b = Eq -> a = b.
Proof.
  revert b. induction a as [| x a IH]; intros [| y b]; simpl;
    try discriminate; [reflexivity |].
  destruct (Z.compare_spec x y) as [Hxy | Hxy | Hxy]; try discriminate.
  intros Hab. subst. f_equal. apply IH. exact Hab.
Qed.

Lemma compare_antisym (a b : str) :
  Text.compare b a = CompOpp (Text.compare a b).
Proof.
  revert b. induction a as [| x a IH]; intros [| y b]; simpl;
    try reflexivity.
  rewrite (Z.compare_antisym x y).
  destruct (x ?= y); simpl; [apply IH | reflexivity | reflexivity].
Qed.

Lemma compare_lt_trans (a b c : str) :
  Text.compare a b = Lt -> Text.compare b c = Lt -> Text.compare a c = Lt.
Proof.
  revert b c. induction a as [| x a IH]; intros [| y b] [| z c]; simpl;
    try discriminate; try reflexivity.
  destruct (Z.compare_spec x y); try discriminate;
    destruct (Z.compare_spec y z); try discriminate; intros Hab Hbc.
  - subst. rewrite Z.compare_refl. eapply IH; eauto.
  - subst. destruct (Z.compare_spec y z); try lia. reflexivity.
  - subst. destruct (Z.compare_spec x z); try lia. reflexivity.
  - destruct (Z.compare_spec x z); try lia. reflexivity.
Qed.

Lemma leb_refl (a : str) : Text.leb a a = true.
Proof. unfold Text.leb. rewrite compare_refl. reflexivity. Qed.

Lemma leb_trans (a b c : str) :
  Text.leb a b = true -> Text.leb b c = true -> Text.leb a c = true.
Proof.
  unfold Text.leb.
  destruct (Text.compare a b) eqn:Hab; try discriminate;
    destruct (Text.compare b c) eqn:Hbc; try discriminate; intros _ _.
  - apply compare_eq in Hab. subst. rewrite Hbc. reflexivity.
  - apply compare_eq in Hab. subst. rewrite Hbc. reflexivity.
  - apply compare_eq in Hbc. subst. rewrite Hab. reflexivity.
  - rewrite (compare_lt_trans _ _ _ Hab Hbc). reflexivity.
Qed.

Lemma leb_false (a b : str) :
  Text.leb a b = false -> Text.leb b a = true /\ a <> b.
Proof.
  unfold Text.leb. rewrite (compare_antisym a b).
  destruct (Text.compare a b) eqn:H; try discriminate.
  intros _. split; [reflexivity |].
  intros ->. rewrite compare_refl in H. discriminate.
Qed.

Lemma leb_antisym (a b : str) :
  Text.leb a b = true -> Text.leb b a = true -> a = b.
Proof.
  unfold Text.leb. rewrite (compare_antisym a b).
  destruct (Text.compare a b) eqn:H; simpl; try discriminate.
  intros _ _. apply compare_eq. exact H.
Qed.

(** ** The stable sort *)

Section SortFacts.
Import FileAnalyzer.
Variable A : Type.
Variable key : A -> str.

Local Abbreviation before := (before key).

Lemma insert_perm (x : A) (l : list A) : Permutation (insert key x l) (x :: l).
Proof.
  induction l as [| y l IH]; simpl; [apply Permutation_refl |].
  destruct (Text.leb (key y) (key x)); [apply Permutation_refl |].
  apply perm_trans with (y :: x :: l); [| apply perm_swap].
  apply perm_skip. exact IH.
Qed.

Lemma sort_reverse_perm (l : list A) : Permutation (sort_reverse key l) l.
Proof.
  induction l as [| x l IH]; simpl; [apply perm_nil |].
  eapply perm_trans; [apply insert_perm |]. apply perm_skip. exact IH.
Qed.

Lemma insert_sorted (x : A) (l : list A) :
  StronglySorted before l -> StronglySorted before (insert key x l).
Proof.
  induction l as [| y l IH]; intros Hs; simpl.
  - repeat constructor.
  - inversion Hs as [| y' l' Hsl Hall]; subst.
    destruct (Text.leb (key y) (key x)) eqn:Hyx.
    + constructor; [exact Hs |]. constructor; [exact Hyx |].
      rewrite Forall_forall in *. intros z Hz.
      unfold before in *. eapply leb_trans; [apply Hall; exact Hz | exact Hyx].
    + constructor; [apply IH; exact Hsl |].
      rewrite Forall_forall in *. intros z Hz.
      apply (Permutation_in _ (insert_perm x l)) in Hz.
      destruct Hz as [<- | Hz]; [| apply Hall; exact Hz].
      unfold before. apply (leb_false _ _ Hyx).
Qed.

Lemma sort_reverse_sorted (l : list A) :
  StronglySorted before (sort_reverse key l).
Proof.
  induction l as [| x l IH]; simpl; [constructor |].
  apply insert_sorted. exact IH.
Qed.

(** Stability: the elements of one key keep the order they had. *)
Lemma insert_stable (k : str) (x : A) (l : list A) :
  filter (fun a => Text.eqb (key a) k) (insert key x l)
  = filter (fun a => Text.eqb (key a) k) (x :: l).
Proof.
  induction l as [| y l IH]; [reflexivity |].
  cbn [insert]. destruct (Text.leb (key y) (key x)) eqn:Hyx; [reflexivity |].
  cbn [filter] in *. rewrite IH.
  destruct (Text.eqb (key x) k) eqn:Hx; [| reflexivity].
  destruct (Text.eqb (key y) k) eqn:Hy; [| reflexivity].
  apply eqb_eq in Hx, Hy. rewrite Hx, Hy, leb_refl in Hyx. discriminate.
Qed.

Lemma sort_reverse_stable (k : str) (l : list A) :
  filter (fun a => Text.eqb (key a) k) (sort_reverse key l)
  = filter (fun a => Text.eqb (key a) k) l.
Proof.
  induction l as [| x l IH]; [reflexivity |].
  cbn [sort_reverse fold_right]. fold (sort_reverse key l).
  rewrite insert_stable. cbn [filter]. rewrite IH. reflexivity.
Qed.

(** Sorting a sorted list changes nothing. *)
Lemma sort_reverse_of_sorted (l : list A) :
  StronglySorted before l -> sort_reverse key l = l.
Proof.
  induction l as [| x l IH]; intros Hs; [reflexivity |].
  inversion Hs as [| x' l' Hsl Hall]; subst.
  cbn [sort_reverse fold_right]. fold (sort_reverse key l).
  rewrite (IH Hsl). destruct l as [| y l]; [reflexivity |].
  cbn [insert]. inversion Hall as [| y' l' Hxy _]; subst.
  unfold before in Hxy. rewrite Hxy. reflexivity.
Qed.

Lemma sort_reverse_idempotent (l : list A) :
  sort_reverse key (sort_reverse key l) = sort_reverse key l.
Proof. apply sort_reverse_of_sorted. apply sort_reverse_sorted. Qed.

Lemma sorted_pairs (l : list A) :
  StronglySorted before l ->
  forall i j a b,
    (i < j)%nat -> nth_error l i = Some a -> nth_error l j = Some b ->
    before a b.
Proof.
  induction l as [| x l IH]; intros Hs i j a b Hij Hi Hj.
  - destruct i; discriminate.
  - inversion Hs as [| x' l' Hsl Hall]; subst.
    destruct j as [| j]; [lia |]. simpl in Hj.
    destruct i as [| i]; simpl in Hi.
    + inversion Hi; subst. rewrite Forall_forall in Hall.
      apply Hall. eapply nth_error_In; eauto.
    + eapply (IH Hsl i j); eauto. lia.
Qed.

End SortFacts.

(** ** The order of time stamps as texts *)

Import DateTime.

Lemma digits_length (w : nat) : forall n, length (digits w n) = w.
Proof.
  induction w as [| w IH]; intros n; simpl; [reflexivity |].
  rewrite length_app, IH. simpl. lia.
Qed.

Lemma compare_app (x y s t : str) :
  length x = length y ->
  Text.compare (x ++ s) (y ++ t)
  = match Text.compare x y with
    | Eq => Text.compare s t
    | c => c
    end.
Proof.
  revert y. induction x as [| a x IH]; intros [| b y] Hlen; simpl in *;
    try discriminate; [reflexivity |].
  destruct (a ?= b); try reflexivity. apply IH. lia.
Qed.

(** Numbers printed with the same number of digits compare as texts the
    way they compare as numbers. *)
Lemma digits_compare (w : nat) :
  forall a b,
    0 <= a < 10 ^ Z.of_nat w -> 0 <= b < 10 ^ Z.of_nat w ->
    Text.compare (digits w a) (digits w b) = (a ?= b).
Proof.
  induction w as [| w IH]; intros a b Ha Hb.
  - simpl in *. assert (a = 0) by lia. assert (b = 0) by lia. subst.
    reflexivity.
  - rewrite Nat2Z.inj_succ, Z.pow_succ_r in Ha, Hb by lia.
    cbn [digits]. rewrite compare_app by (rewrite !digits_length; reflexivity).
    pose proof (Z.div_mod a 10 ltac:(lia)) as Hqa.
    pose proof (Z.div_mod b 10 ltac:(lia)) as Hqb.
    pose proof (Z.mod_pos_bound a 10 ltac:(lia)) as Hra.
    pose proof (Z.mod_pos_bound b 10 ltac:(lia)) as Hrb.
    rewrite IH by (split; [apply Z.div_pos; lia
                          | apply Z.div_lt_upper_bound; lia]).
    cbn [Text.compare]. rewrite Z.add_compare_mono_l.
    destruct (Z.compare_spec (a / 10) (b / 10)) as [Hq | Hq | Hq].
    + destruct (Z.compare_spec (a mod 10) (b mod 10)) as [Hr | Hr | Hr];
        symmetry.
      * apply Z.compare_eq_iff. lia.
      * apply Z.compare_lt_iff. lia.
      * apply Z.compare_gt_iff. lia.
    + symmetry. apply Z.compare_lt_iff. lia.
    + symmetry. apply Z.compare_gt_iff. lia.
Qed.

Lemma compare_cons (c : char) (s t : str) :
  Text.compare (c :: s) (c :: t) = Text.compare s t.
Proof. simpl. rewrite Z.compare_refl. reflexivity. Qed.

(** [isoformat] keeps the order: the texts of two datetimes compare as the
    datetimes do. *)
Lemma isoformat_compare (a b : datetime) :
  printable a -> printable b ->
  Text.compare (isoformat a) (isoformat b) = DateTime.compare a b.
Proof.
  intros (Hy & Hm & Hd & Hh & Hmi & Hs & Hus)
         (Hy' & Hm' & Hd' & Hh' & Hmi' & Hs' & Hus').
  unfold isoformat, DateTime.compare, fields. cbn [lex].
  change (lit "-") with [45]. change (lit "T") with [84].
  change (lit ":") with [58]. change (lit ".") with [46].
  repeat (rewrite compare_app by (rewrite !digits_length; reflexivity);
          rewrite digits_compare by (simpl; lia);
          match goal with
          | |- match ?c with _ => _ end = match ?c with _ => _ end =>
            destruct c; try reflexivity
          end;
          try (cbn [app]; rewrite compare_cons)).
  destruct (Z.eqb_spec (microsecond a) 0) as [Ha | Ha];
    destruct (Z.eqb_spec (microsecond b) 0) as [Hb | Hb].
  - rewrite Ha, Hb. reflexivity.
  - rewrite Ha. cbn [app Text.compare].
    symmetry. destruct (Z.compare_spec 0 (microsecond b)); try lia; reflexivity.
  - rewrite Hb. cbn [app Text.compare].
    symmetry. destruct (Z.compare_spec (microsecond a) 0); try lia; reflexivity.
  - cbn [app]. rewrite compare_cons.
    rewrite digits_compare by (simpl; lia).
    destruct (microsecond a ?= microsecond b); reflexivity.
Qed.

Lemma lex_antisym (a b : list Z) : lex b a = CompOpp (lex a b).
Proof.
  revert b. induction a as [| x a IH]; intros [| y b]; simpl;
    try reflexivity.
  rewrite (Z.compare_antisym x y).
  destruct (x ?= y); simpl; [apply IH | reflexivity | reflexivity].
Qed.

Lemma compare_antisym_dt (a b : datetime) :
  DateTime.compare b a = CompOpp (DateTime.compare a b).
Proof. apply lex_antisym. Qed.

(** ** Dates *)

Lemma month_cases (m : Z) :
  1 <= m <= 12 ->
  m = 1 \/ m = 2 \/ m = 3 \/ m = 4 \/ m = 5 \/ m = 6 \/ m = 7 \/ m = 8
  \/ m = 9 \/ m = 10 \/ m = 11 \/ m = 12.
Proof. lia. Qed.

(** Looks the month tables up at a given month. *)
Ltac month_tables :=
  repeat match goal with
         | |- context [DAYS_BEFORE_MONTH ?m] =>
           let v := eval vm_compute in (DAYS_BEFORE_MONTH m) in
           change (DAYS_BEFORE_MONTH m) with v
         | |- context [DAYS_IN_MONTH ?m] =>
           let v := eval vm_compute in (DAYS_IN_MONTH m) in
           change (DAYS_IN_MONTH m) with v
         | |- context [?a =? 2] =>
           let v := eval vm_compute in (a =? 2) in change (a =? 2) with v
         | |- context [2 <? ?a] =>
           let v := eval vm_compute in (2 <? a) in change (2 <? a) with v
         end;
  cbn [andb].

Lemma days_in_month_max (y m : Z) : 1 <= m <= 12 -> days_in_month y m <= 31.
Proof.
  intros Hm. unfold days_in_month.
  destruct (month_cases Hm) as [-> | [-> | [-> | [-> | [-> | [-> | [-> | [-> |
    [-> | [-> | [-> | ->]]]]]]]]]]];
    destruct (is_leap y); month_tables; lia.
Qed.

(** A datetime object prints within the widths of [isoformat]. *)
Lemma wf_printable (d : datetime) : wf d -> printable d.
Proof.
  intros (Hy & Hm & Hd & Hh & Hmi & Hs & Hus).
  pose proof (days_in_month_max (year d) Hm).
  unfold printable. lia.
Qed.

Lemma day_of_year_range (y m d : Z) :
  1 <= m <= 12 -> 1 <= d <= days_in_month y m ->
  1 <= days_before_month y m + d <= (if is_leap y then 366 else 365).
Proof.
  intros Hm. unfold days_in_month, days_before_month.
  destruct (month_cases Hm) as [-> | [-> | [-> | [-> | [-> | [-> | [-> | [-> |
    [-> | [-> | [-> | ->]]]]]]]]]]];
    destruct (is_leap y); month_tables; lia.
Qed.

(** The ordinal of a date of the years 1 to 9999 is in the supported
    range. *)
Lemma ymd2ord_range (y m d : Z) :
  1 <= y <= 9999 -> 1 <= m <= 12 -> 1 <= d <= days_in_month y m ->
  1 <= ymd2ord y m d <= MAXORDINAL.
Proof.
  intros Hy Hm Hd. pose proof (day_of_year_range y Hm Hd) as Hdoy.
  unfold ymd2ord, MAXORDINAL.
  destruct (Z.eq_dec y 9999) as [-> | Hne].
  - change (is_leap 9999) with false in Hdoy.
    change (days_before_year 9999) with 3651694. lia.
  - unfold days_before_year.
    pose proof (Z.div_mod (y - 1) 4 ltac:(lia)).
    pose proof (Z.mod_pos_bound (y - 1) 4 ltac:(lia)).
    pose proof (Z.div_mod (y - 1) 100 ltac:(lia)).
    pose proof (Z.mod_pos_bound (y - 1) 100 ltac:(lia)).
    pose proof (Z.div_mod (y - 1) 400 ltac:(lia)).
    pose proof (Z.mod_pos_bound (y - 1) 400 ltac:(lia)).
    destruct (is_leap y); lia.
Qed.

(** The cutoff exists when the window does not reach before the year 1. *)
Lemma sub_days_ok (now : datetime) (days : Z) :
  wf now ->
  0 <= days < ymd2ord (year now) (month now) (day now) ->
  exists cutoff_date, sub_days now days = Ok cutoff_date.
Proof.
  intros (Hy & Hm & Hd & _) Hdays.
  pose proof (ymd2ord_range Hy Hm Hd) as Hord. unfold MAXORDINAL in Hord.
  unfold sub_days.
  destruct (Z.ltb_spec 999999999 (Z.abs days)); [lia |].
  destruct (Z.ltb_spec 0 (ymd2ord (year now) (month now) (day now) - days));
    [| lia].
  destruct (Z.leb_spec (ymd2ord (year now) (month now) (day now) - days)
                       MAXORDINAL); [| unfold MAXORDINAL in *; lia].
  simpl. destruct (ord2ymd _) as [[y m] dd]. eauto.
Qed.

(** ** The scan *)

Section ScanFacts.
Import Walk FileAnalyzer.
Variable fromtimestamp : Z -> option datetime.
Variable disk : str -> option node.
Variable now : datetime.

(** What the loop body appends for an entry: one record, for a regular file
    whose two [stat()] calls and time conversion succeed and whose time is
    after the cutoff; nothing otherwise. *)
Lemma visit_spec (cutoff_date : datetime) (p : str) (n : node)
      (r : file_info) :
  In r (visit fromtimestamp cutoff_date (p, n))
  <-> exists name st st' modified_time,
      n = File name (Some st) (Some st')
      /\ fromtimestamp (st_mtime st) = Some modified_time
      /\ DateTime.compare modified_time cutoff_date = Gt
      /\ r = FileInfo p (isoformat modified_time) (st_size st').
Proof.
  unfold visit, gtb. cbn [fst snd]. split.
  - destruct n as [name [st |] st2 | name | name entries | name msg | name msg];
      try contradiction.
    destruct (fromtimestamp (st_mtime st)) as [mt |] eqn:Hmt;
      [| contradiction].
    destruct (DateTime.compare mt cutoff_date) eqn:Hcmp; try contradiction.
    destruct st2 as [st' |]; [| contradiction].
    intros [<- | []]. exists name, st, st', mt. repeat split; auto.
  - intros (name & st & st' & mt & -> & Hmt & Hcmp & ->).
    rewrite Hmt, Hcmp. left. reflexivity.
Qed.

(** The loop returns when [is_file()] answers for every entry, and then
    with what the loop body appends for each of them in turn. *)
Lemma scan_entries_ok (cutoff_date : datetime) :
  forall (entries : list (str * node)) (l : list file_info),
    scan_entries fromtimestamp cutoff_date entries = Ok l
    <-> Forall answers entries
        /\ l = flat_map (visit fromtimestamp cutoff_date) entries.
Proof.
  induction entries as [| [p n] entries IH]; intros l; cbn [scan_entries].
  - split; [intros [= <-]; split; [constructor | reflexivity] |].
    intros [_ ->]. reflexivity.
  - cbn [snd flat_map].
    destruct (is_file n) as [b |] eqn:Hfile.
    + destruct (scan_entries fromtimestamp cutoff_date entries)
        as [l' | e] eqn:Hrest.
      * destruct (proj1 (IH l') eq_refl) as [Hall ->].
        assert (Hbody : (if b then visit fromtimestamp cutoff_date (p, n)
                         else [])
                        = visit fromtimestamp cutoff_date (p, n)).
        { destruct b; [reflexivity |].
          destruct n; try discriminate; reflexivity. }
        rewrite Hbody. split.
        -- intros [= <-]. split; [| reflexivity].
           constructor; [exists b; exact Hfile | exact Hall].
        -- intros [_ ->]. reflexivity.
      * split; [discriminate |]. intros [Hall _].
        inversion Hall as [| x xs _ Hall']; subst.
        pose proof (proj2 (IH _) (conj Hall' eq_refl)) as Hok.
        discriminate.
    + split; [discriminate |]. intros [Hall _].
      inversion Hall as [| x xs [b Hb] _]; subst.
      cbn [snd] in Hb. rewrite Hb in Hfile. discriminate.
Qed.

(** The loop raises what [is_file()] raises for the first entry it does not
    answer for. *)
Lemma scan_entries_raises (cutoff_date : datetime) :
  forall (entries : list (str * node)) (e : scan_exn),
    scan_entries fromtimestamp cutoff_date entries = Raise e
    <-> exists pre entry post msg,
        entries = pre ++ entry :: post
        /\ Forall answers pre
        /\ is_file (snd entry) = Raise msg
        /\ e = OSError msg.
Proof.
  induction entries as [| [p n] entries IH]; intros e; cbn [scan_entries].
  - split; [discriminate |].
    intros (pre & entry & post & msg & H & _). destruct pre; discriminate.
  - cbn [snd]. destruct (is_file n) as [b |] eqn:Hfile.
    + destruct (scan_entries fromtimestamp cutoff_date entries)
        as [l' | e'] eqn:Hrest.
      * split; [discriminate |].
        intros (pre & entry & post & msg & Heq & Hpre & Hraise & _).
        destruct pre as [| x pre]; cbn [app] in Heq; inversion Heq; subst.
        -- cbn [snd] in Hraise. rewrite Hraise in Hfile. discriminate.
        -- inversion Hpre as [| y ys _ Hpre']; subst.
           assert (Hr : Ok l' = Raise (OSError msg)).
           { apply IH. exists pre, entry, post, msg. auto. }
           discriminate.
      * split.
        -- intros [= <-].
           destruct (proj1 (IH e') eq_refl)
             as (pre & entry & post & msg & -> & Hpre & Hraise & ->).
           exists ((p, n) :: pre), entry, post, msg.
           repeat split; auto.
           constructor; [exists b; exact Hfile | exact Hpre].
        -- intros (pre & entry & post & msg & Heq & Hpre & Hraise & ->).
           destruct pre as [| x pre]; cbn [app] in Heq; inversion Heq; subst.
           ++ cbn [snd] in Hraise. rewrite Hraise in Hfile. discriminate.
           ++ inversion Hpre as [| y ys _ Hpre']; subst.
              apply IH. exists pre, entry, post, msg. auto.
    + split.
      * intros [= <-]. exists [], (p, n), entries, e0. repeat split; auto.
      * intros (pre & entry & post & msg & Heq & Hpre & Hraise & ->).
        destruct pre as [| x pre]; cbn [app] in Heq; inversion Heq; subst.
        -- cbn [snd] in Hraise. congruence.
        -- inversion Hpre as [| y ys [b Hb] _]; subst.
           cbn [snd] in Hb. congruence.
Qed.

(** [exists()] answers yes for everything but an entry that cannot be
    examined. *)
Lemma path_exists_cases (folder : node) :
  path_exists (Some folder) = Ok true
  \/ exists name msg, folder = Denied name msg
                      /\ path_exists (Some folder) = Raise msg.
Proof.
  destruct folder; [left | left | left | right | left]; try reflexivity.
  eexists. eexists. split; reflexivity.
Qed.

(** The scan after its guard and its date arithmetic. *)
Lemma find_recent_files_walk (folder_path : str) (days : Z)
      (folder : node) (cutoff_date : datetime) :
  disk folder_path = Some folder ->
  path_exists (Some folder) = Ok true ->
  sub_days now days = Ok cutoff_date ->
  find_recent_files fromtimestamp disk now folder_path days
  = match scan_entries fromtimestamp cutoff_date
                       (rglob (PathLib.to_str folder_path) folder) with
    | Raise e => Raise e
    | Ok recent_files =>
      match rglob_error (PathLib.to_str folder_path) folder with
      | Some msg => Raise (OSError msg)
      | None => Ok (sort_reverse modified recent_files)
      end
    end.
Proof.
  intros Hdisk Hexists Hsub. unfold find_recent_files.
  rewrite Hdisk, Hexists, Hsub. reflexivity.
Qed.

(** The scan returns a manifest exactly when something is found at the
    path and can be examined, the cutoff can be computed, [is_file()]
    answers for every entry of the walk and the walk raises nothing. *)
Lemma find_recent_files_spec (folder_path : str) (days : Z)
      (manifest : list file_info) :
  find_recent_files fromtimestamp disk now folder_path days = Ok manifest
  <-> exists folder cutoff_date,
      disk folder_path = Some folder
      /\ sub_days now days = Ok cutoff_date
      /\ manifest
         = sort_reverse modified
             (flat_map (visit fromtimestamp cutoff_date)
                       (rglob (PathLib.to_str folder_path) folder))
      /\ path_exists (Some folder) = Ok true
      /\ Forall answers (rglob (PathLib.to_str folder_path) folder)
      /\ rglob_error (PathLib.to_str folder_path) folder = None.
Proof.
  split.
  - intros Hscan.
    destruct (disk folder_path) as [folder |] eqn:Hdisk;
      [| unfold find_recent_files in Hscan; rewrite Hdisk in Hscan;
         discriminate].
    destruct (path_exists_cases folder) as [Hex | (name & msg & -> & Hex)];
      [| unfold find_recent_files in Hscan; rewrite Hdisk in Hscan;
         discriminate].
    destruct (sub_days now days) as [cutoff_date | e] eqn:Hsub;
      [| unfold find_recent_files in Hscan;
         rewrite Hdisk, Hex, Hsub in Hscan; discriminate].
    rewrite (find_recent_files_walk _ Hdisk Hex Hsub) in Hscan.
    destruct (scan_entries fromtimestamp cutoff_date
                           (rglob (PathLib.to_str folder_path) folder))
      as [l | e] eqn:Hloop; [| discriminate].
    destruct (rglob_error (PathLib.to_str folder_path) folder) eqn:Herr;
      [discriminate |].
    apply scan_entries_ok in Hloop. destruct Hloop as [Hall ->].
    inversion Hscan. exists folder, cutoff_date. repeat split; auto.
  - intros (folder & cutoff_date & Hdisk & Hsub & -> & Hex & Hall & Herr).
    rewrite (find_recent_files_walk _ Hdisk Hex Hsub), Herr.
    assert (Hloop : scan_entries fromtimestamp cutoff_date
                      (rglob (PathLib.to_str folder_path) folder)
                    = Ok (flat_map (visit fromtimestamp cutoff_date)
                            (rglob (PathLib.to_str folder_path) folder)))
      by (apply scan_entries_ok; split; [exact Hall | reflexivity]).
    rewrite Hloop. reflexivity.
Qed.

End ScanFacts.

Lemma nodup_fst_inj (A B : Type) (l : list (A * B)) (a : A) (b b' : B) :
  NoDup (map fst l) -> In (a, b) l -> In (a, b') l -> b = b'.
Proof.
  induction l as [| [a0 b0] l IH]; simpl; intros Hnd Hb Hb'; [contradiction |].
  inversion Hnd as [| x xs Hnotin Hnd']; subst.
  destruct Hb as [Hb | Hb], Hb' as [Hb' | Hb'].
  - congruence.
  - inversion Hb; subst. exfalso. apply Hnotin.
    apply (in_map fst) in Hb'. exact Hb'.
  - inversion Hb'; subst. exfalso. apply Hnotin.
    apply (in_map fst) in Hb. exact Hb.
  - eauto.
Qed.


Lemma sub_days_raises (now : datetime) (days : Z) (e : scan_exn) :
  sub_days now days = Raise e -> e = OverflowError.
Proof.
  unfold sub_days.
  destruct (999999999 <? Z.abs days); [intros H; inversion H; reflexivity |].
  destruct ((0 <? ymd2ord (year now) (month now) (day now) - days)
            && (ymd2ord (year now) (month now) (day now) - days
                <=? MAXORDINAL));
    [destruct (ord2ymd _) as [[y m] d]; discriminate |].
  intros H; inversion H; reflexivity.
Qed.

(** Every outcome of a scan, by what is found at the path. *)
Lemma scan_outcome
      (fromtimestamp : Z -> option datetime)
      (disk : str -> option Walk.node) (now : datetime)
      (folder_path : str) (days : Z) :
  let scan :=
    FileAnalyzer.find_recent_files fromtimestamp disk now folder_path days in
  match disk folder_path with
  | None =>
    scan = Raise (ValueError (lit "フォルダが存在しません: " ++ folder_path))
  | Some folder =>
    match Walk.path_exists (Some folder) with
    | Raise msg => scan = Raise (OSError msg)
    | Ok _ =>
      match sub_days now days with
      | Raise _ => scan = Raise OverflowError
      | Ok cutoff_date =>
        scan
        = match FileAnalyzer.scan_entries
                  fromtimestamp cutoff_date
                  (Walk.rglob (PathLib.to_str folder_path) folder) with
          | Raise e => Raise e
          | Ok recent_files =>
            match Walk.rglob_error (PathLib.to_str folder_path) folder with
            | Some msg => Raise (OSError msg)
            | None =>
              Ok (FileAnalyzer.sort_reverse FileAnalyzer.modified
                                            recent_files)
            end
          end
      end
    end
  end.
Proof.
  intros scan. unfold scan.
  destruct (disk folder_path) as [folder |] eqn:Hdisk;
    [| unfold FileAnalyzer.find_recent_files; rewrite Hdisk; reflexivity].
  destruct (path_exists_cases folder) as [Hex | (name & msg & -> & Hex)].
  - rewrite Hex.
    destruct (sub_days now days) as [cutoff_date | e] eqn:Hsub.
    + apply find_recent_files_walk; assumption.
    + unfold FileAnalyzer.find_recent_files. rewrite Hdisk, Hex, Hsub.
      apply sub_days_raises in Hsub. subst e. reflexivity.
  - rewrite Hex. unfold FileAnalyzer.find_recent_files.
    rewrite Hdisk. reflexivity.
Qed.

(** The cases of a scan, each with its outcome. *)
Lemma scan_cases
      (fromtimestamp : Z -> option datetime)
      (disk : str -> option Walk.node) (now : datetime)
      (folder_path : str) (days : Z) :
  let scan :=
    FileAnalyzer.find_recent_files fromtimestamp disk now folder_path days in
  let dir := PathLib.to_str folder_path in
  (disk folder_path = None
   /\ scan = Raise (ValueError (lit "フォルダが存在しません: " ++ folder_path)))
  \/ (exists name msg,
         disk folder_path = Some (Walk.Denied name msg)
         /\ scan = Raise (OSError msg))
  \/ (exists folder,
         disk folder_path = Some folder
         /\ Walk.path_exists (Some folder) = Ok true
         /\ sub_days now days = Raise OverflowError
         /\ scan = Raise OverflowError)
  \/ (exists folder cutoff_date pre entry post msg,
         disk folder_path = Some folder
         /\ Walk.path_exists (Some folder) = Ok true
         /\ sub_days now days = Ok cutoff_date
         /\ Walk.rglob dir folder = pre ++ entry :: post
         /\ Forall answers pre
         /\ Walk.is_file (snd entry) = Raise msg
         /\ scan = Raise (OSError msg))
  \/ (exists folder cutoff_date msg,
         disk folder_path = Some folder
         /\ Walk.path_exists (Some folder) = Ok true
         /\ sub_days now days = Ok cutoff_date
         /\ Forall answers (Walk.rglob dir folder)
         /\ Walk.rglob_error dir folder = Some msg
         /\ scan = Raise (OSError msg))
  \/ (exists folder cutoff_date,
         disk folder_path = Some folder
         /\ Walk.path_exists (Some folder) = Ok true
         /\ sub_days now days = Ok cutoff_date
         /\ Forall answers (Walk.rglob dir folder)
         /\ Walk.rglob_error dir folder = None
         /\ scan
            = Ok (FileAnalyzer.sort_reverse
                    FileAnalyzer.modified
                    (flat_map (FileAnalyzer.visit fromtimestamp cutoff_date)
                              (Walk.rglob dir folder)))).
Proof.
  intros scan dir.
  pose proof (scan_outcome fromtimestamp disk now folder_path days) as Hout.
  cbv zeta in Hout. fold scan dir in Hout.
  destruct (disk folder_path) as [folder |] eqn:Hdisk;
    [| left; split; [reflexivity | exact Hout]].
  right.
  destruct (path_exists_cases folder) as [Hex | (name & msg & -> & Hex)];
    rewrite Hex in Hout;
    [| left; exists name, msg; split; [reflexivity | exact Hout]].
  right.
  destruct (sub_days now days) as [cutoff_date | e] eqn:Hsub.
  2:{ left. exists folder. apply sub_days_raises in Hsub as He. subst e.
      repeat split; assumption. }
  right.
  destruct (FileAnalyzer.scan_entries fromtimestamp cutoff_date
                                      (Walk.rglob dir folder))
    as [l | e] eqn:Hloop.
  - right. apply scan_entries_ok in Hloop. destruct Hloop as [Hall ->].
    destruct (Walk.rglob_error dir folder) as [msg |] eqn:Herr.
    + left. exists folder, cutoff_date, msg. repeat split; assumption.
    + right. exists folder, cutoff_date. repeat split; assumption.
  - left. apply scan_entries_raises in Hloop.
    destruct Hloop as (pre & entry & post & msg & H1 & H2 & H3 & ->).
    exists folder, cutoff_date, pre, entry, post, msg.
    repeat split; assumption.
Qed.

(** An entry for which [is_file()] raises is not one for which it
    answers. *)
Lemma raising_entry_does_not_answer
      (walk pre post : list (str * Walk.node)) (entry : str * Walk.node)
      (msg : str) :
  walk = pre ++ entry :: post ->
  Walk.is_file (snd entry) = Raise msg ->
  Forall answers walk -> False.
Proof.
  intros -> Hraise Hall. apply Forall_app in Hall. destruct Hall as [_ Hall].
  inversion Hall as [| x xs [b Hb] _]; subst. congruence.
Qed.

(** Only a directory is walked. *)
Lemma rglob_of_a_file (dir : str) (folder : Walk.node) :
  match folder with
  | Walk.File _ _ _ | Walk.Other _ => True
  | _ => False
  end ->
  Walk.rglob dir folder = [] /\ Walk.rglob_error dir folder = None
  /\ Walk.path_exists (Some folder) = Ok true.
Proof. destruct folder; intros []; repeat split. Qed.

(** A path that cannot be examined is not one for which [exists()]
    answers. *)
Ltac denied_root :=
  match goal with
  | Hd : ?d ?p = Some (Walk.Denied _ _), Hx : ?d ?p = Some ?f,
    He : Walk.path_exists (Some ?f) = Ok true |- _ =>
    rewrite Hd in Hx; injection Hx as <-; discriminate He
  | Hd : ?d ?p = Some (Walk.Denied _ _),
    He : Walk.path_exists (Some ?f) = Ok true, Hx : ?d ?p = Some ?f |- _ =>
    rewrite Hd in Hx; injection Hx as <-; discriminate He
  end.

(** The cases of [scan_cases], named. *)
Ltac scan_cases_of H :=
  destruct H
    as [[Hd Hs]
       | [(name & m & Hd & Hs)
         | [(f & Hd & He & Hsub' & Hs)
           | [(f & c & pre & entry & post & m & Hd & He & Hsub' & Hw & Hpre'
               & Hr' & Hs)
             | [(f & c & m & Hd & He & Hsub' & Hall' & Herr' & Hs)
               | (f & c & Hd & He & Hsub' & Hall' & Herr' & Hs)]]]]].






(** C7.  The manifest a scan returns is in non-increasing order of its
    [modified] texts, which is the non-increasing order of the time stamps
    they print; it is a rearrangement of the records in the order of the
    walk in which records with the same [modified] keep that order; and
    sorting it again gives the same manifest. *)
Theorem manifest_is_sorted_newest_first
        (fromtimestamp : Z -> option datetime)
        (disk : str -> option Walk.node) (now : datetime)
        (folder_path : str) (days : Z)
        (manifest : list FileAnalyzer.file_info)
        (Hscan : FileAnalyzer.find_recent_files fromtimestamp disk now
                   folder_path days = Ok manifest) :
  StronglySorted (before FileAnalyzer.modified) manifest
  /\ (forall i j r1 r2 d1 d2,
         (i < j)%nat ->
         nth_error manifest i = Some r1 -> nth_error manifest j = Some r2 ->
         FileAnalyzer.modified r1 = isoformat d1 ->
         FileAnalyzer.modified r2 = isoformat d2 ->
         printable d1 -> printable d2 ->
         DateTime.compare d1 d2 <> Lt)
  /\ (exists folder cutoff_date,
         disk folder_path = Some folder
         /\ sub_days now days = Ok cutoff_date
         /\ let found :=
              flat_map (FileAnalyzer.visit fromtimestamp cutoff_date)
                       (Walk.rglob (PathLib.to_str folder_path) folder) in
            Permutation manifest found
            /\ forall k,
                filter (fun r => Text.eqb (FileAnalyzer.modified r) k) manifest
                = filter (fun r => Text.eqb (FileAnalyzer.modified r) k) found)
  /\ FileAnalyzer.sort_reverse FileAnalyzer.modified manifest = manifest.
Proof.
  apply find_recent_files_spec in Hscan.
  destruct Hscan as (folder & cutoff_date & Hfolder & Hcutoff & -> & _).
  assert (Hsorted := sort_reverse_sorted FileAnalyzer.modified
                       (flat_map (FileAnalyzer.visit fromtimestamp cutoff_date)
                          (Walk.rglob (PathLib.to_str folder_path) folder))).
  split; [exact Hsorted |]. split; [| split].
  - intros i j r1 r2 d1 d2 Hij Hi Hj Hm1 Hm2 Hp1 Hp2.
    pose proof (sorted_pairs Hsorted Hij Hi Hj) as Hbefore.
    unfold before, Text.leb in Hbefore.
    rewrite Hm1, Hm2, (isoformat_compare Hp2 Hp1) in Hbefore.
    rewrite (compare_antisym_dt d2 d1). intros Hlt.
    destruct (DateTime.compare d2 d1); simpl in Hlt; discriminate.
  - exists folder, cutoff_date. repeat split; auto.
    + apply sort_reverse_perm.
    + intros k. apply sort_reverse_stable.
  - apply sort_reverse_idempotent.
Qed.

(** The sample folder: [README] is the newest; [todo.TXT] and [notes/a.md]
    carry the same time and stay in the order of the walk. *)
Lemma manifest_is_sorted_newest_first_witness :
  FileAnalyzer.find_recent_files utc_fromtimestamp vault_disk noon
    (lit "vault") 30
  = Ok [FileAnalyzer.FileInfo (lit "vault/README")
                              (lit "2023-11-14T22:13:21") 1;
        FileAnalyzer.FileInfo (lit "vault/todo.TXT")
                              (lit "2023-11-14T22:13:20") 7;
        FileAnalyzer.FileInfo (lit "vault/notes/a.md")
                              (lit "2023-11-14T22:13:20") 29]
  /\ StronglySorted (before FileAnalyzer.modified)
       [FileAnalyzer.FileInfo (lit "vault/README")
                              (lit "2023-11-14T22:13:21") 1;
        FileAnalyzer.FileInfo (lit "vault/todo.TXT")
                              (lit "2023-11-14T22:13:20") 7;
        FileAnalyzer.FileInfo (lit "vault/notes/a.md")
                              (lit "2023-11-14T22:13:20") 29].
Proof.
  assert (Hscan : FileAnalyzer.find_recent_files utc_fromtimestamp vault_disk
                    noon (lit "vault") 30
                  = Ok [FileAnalyzer.FileInfo (lit "vault/README")
                                              (lit "2023-11-14T22:13:21") 1;
                        FileAnalyzer.FileInfo (lit "vault/todo.TXT")
                                              (lit "2023-11-14T22:13:20") 7;
                        FileAnalyzer.FileInfo (lit "vault/notes/a.md")
                                              (lit "2023-11-14T22:13:20") 29])
    by (vm_compute; reflexivity).
  split; [exact Hscan |].
  exact (proj1 (manifest_is_sorted_newest_first _ _ _ _ _ Hscan)).
Defined.

(* ================================================================== *)
(** * Further properties *)

(** ** The annotator on texts without anchors *)

Lemma anchor_rule_needs_caret (s : str) :
  ~ In 94 s -> sub anchor_pattern anchor_repl s = s.
Proof.
  intros Hs. unfold sub. apply scan_unmatched. intros n.
  destruct (match_at anchor_pattern (skipn n s)) as [[rest g] |] eqn:Hm;
    [| reflexivity].
  destruct (anchor_match _ Hm) as (name & Heq & _).
  exfalso. apply Hs. apply (in_skipn 94 n). rewrite Heq. left. reflexivity.
Qed.

(** A character of a marked text comes from the text or from the marker. *)
Lemma Marked_chars (marker s t : str) (c : char) (H : Marked marker s t) :
  In c t -> In c s \/ In c marker.
Proof.
  induction H as [| d s t _ IH | s t _ IH]; intros Hin.
  - contradiction.
  - destruct Hin as [-> | Hin]; [left; left; reflexivity |].
    destruct (IH Hin); [left; right |]; auto.
  - apply in_app_or in Hin. destruct Hin as [Hin | Hin]; [right; exact Hin |].
    exact (IH Hin).
Qed.

(** The length of a marked text: that of the text and of the copies of the
    marker. *)
Lemma Marked_length (marker s t : str) (H : Marked marker s t) :
  exists k : nat, length t = (length s + k * length marker)%nat.
Proof.
  induction H as [| d s t _ [k IH] | s t _ [k IH]].
  - exists 0%nat. reflexivity.
  - exists k. simpl. rewrite IH. reflexivity.
  - exists (S k). rewrite length_app, IH. simpl. lia.
Qed.

(** X1.  A text that holds no opening bracket, no [#] and no [^] goes
    through the annotator unchanged. *)
Theorem plain_text_is_left_alone (content : str) :
  ~ In 91 content -> ~ In 35 content -> ~ In 94 content ->
  process_obsidian_markdown content = content.
Proof.
  intros Hopen Hhash Hcaret. unfold process_obsidian_markdown.
  rewrite (link_rule_needs_open _ Hopen), (tag_rule_needs_hash _ Hhash).
  exact (anchor_rule_needs_caret _ Hcaret).
Qed.

(** A sentence with brackets of the other kinds, and a closing bracket. *)
Lemma plain_text_is_left_alone_witness :
  process_obsidian_markdown (lit "see (a) {b} c] 100%")
  = lit "see (a) {b} c] 100%".
Proof.
  apply plain_text_is_left_alone;
    vm_compute; intros H;
    repeat (destruct H as [H | H]; [discriminate |]); exact H.
Defined.

(** X2.  On a text without [^], the annotator only inserts markers: the
    result is the text with copies of the cross-link marker, then copies of
    the tag marker, put in; no character of the text is removed, changed or
    moved, and the result is longer by whole markers. *)
Theorem annotation_without_anchor_only_inserts_markers (content : str) :
  ~ In 94 content ->
  exists linked,
    Marked link_marker content linked
    /\ Marked tag_marker linked (process_obsidian_markdown content)
    /\ exists k1 k2 : nat,
        len (process_obsidian_markdown content)
        = len content + Z.of_nat k1 * len link_marker
          + Z.of_nat k2 * len tag_marker.
Proof.
  intros Hcaret. unfold process_obsidian_markdown.
  pose proof (link_rule_marks content) as Hlink.
  pose proof (tag_rule_marks (sub link_pattern link_repl content)) as Htag.
  assert (Hno : ~ In 94 (sub tag_pattern tag_repl
                           (sub link_pattern link_repl content))).
  { intros Hin.
    destruct (Marked_chars _ Htag Hin) as [Hin' | Hm].
    - destruct (Marked_chars _ Hlink Hin') as [Hc | Hm]; [exact (Hcaret Hc) |].
      vm_compute in Hm.
      repeat (destruct Hm as [Hm | Hm]; [discriminate |]). exact Hm.
    - vm_compute in Hm.
      repeat (destruct Hm as [Hm | Hm]; [discriminate |]). exact Hm. }
  rewrite (anchor_rule_needs_caret _ Hno).
  exists (sub link_pattern link_repl content).
  split; [exact Hlink |]. split; [exact Htag |].
  destruct (Marked_length Hlink) as [k1 H1].
  destruct (Marked_length Htag) as [k2 H2].
  exists k1, k2. unfold len. rewrite H2, H1. lia.
Qed.

(** The note of the scenario without its anchor. *)
Lemma annotation_without_anchor_only_inserts_markers_witness :
  exists linked,
    Marked link_marker (lit "See [[Project X]] #todo") linked
    /\ Marked tag_marker linked
         (process_obsidian_markdown (lit "See [[Project X]] #todo")).
Proof.
  destruct (@annotation_without_anchor_only_inserts_markers
              (lit "See [[Project X]] #todo"))
    as (linked & Hlink & Htag & _).
  - vm_compute. intros H.
    repeat (destruct H as [H | H]; [discriminate |]). exact H.
  - exists linked. split; assumption.
Defined.

(** The anchor rule at work on a name of letters, digits and a dash. *)
Lemma every_anchor_name_is_lost_witness :
  process_obsidian_markdown (lit "^sec-2b") = lit "^\1（ブロック参照）".
Proof.
  apply (@every_anchor_name_is_lost (lit "sec-2b")).
  - discriminate.
  - repeat constructor.
Defined.

(** ** The cap, again *)

(** X4.  Capping is idempotent: a text that has been capped at [max_chars]
    is not changed by capping it at [max_chars] again, although it may be
    three characters longer than the cap. *)
Theorem limit_is_idempotent (content : str) (max_chars : Z) :
  0 <= max_chars ->
  Agents.limit (Agents.limit content max_chars) max_chars
  = Agents.limit content max_chars.
Proof.
  intros Hmax.
  destruct (@limit_spec content max_chars Hmax) as [Hfit Hcut].
  destruct (Z.le_gt_cases (len content) max_chars) as [Hle | Hgt].
  - rewrite (Hfit Hle). exact (Hfit Hle).
  - destruct (Hcut Hgt) as [Heq Hlen].
    destruct (@limit_spec (Agents.limit content max_chars) max_chars Hmax)
      as [_ Hcut'].
    destruct Hcut' as [Heq' _]; [lia |].
    rewrite Heq'. rewrite Heq at 2. f_equal.
    rewrite Heq, firstn_app, firstn_firstn.
    assert (Hn : length (firstn (Z.to_nat max_chars) content)
                 = Z.to_nat max_chars)
      by (rewrite length_firstn; unfold len in Hgt; lia).
    rewrite Hn, Nat.sub_diag, Nat.min_id. simpl. apply app_nil_r.
Qed.

Lemma limit_is_idempotent_witness :
  Agents.limit (Agents.limit (lit "abcdef") 2) 2 = lit "ab...".
Proof.
  rewrite (@limit_is_idempotent (lit "abcdef") 2); [reflexivity | lia].
Defined.

Lemma limit_below_the_cap (content : str) (max_chars : Z) :
  len content <= max_chars -> Agents.limit content max_chars = content.
Proof.
  intros H. unfold Agents.limit.
  destruct (Z.gtb_spec (len content) max_chars); [lia | reflexivity].
Qed.

(** X5.  The two readers agree below the cap: when no decoding of the file
    gives a text longer than [max_chars], the reader of the agent modules
    returns what the reader of [file_analyzer.py] returns. *)
Theorem readers_agree_below_the_cap
        (T : tables) (fs : files) (file_path : str) (max_chars : Z) :
  (forall n e content,
      open_read T fs n file_path e = Ok content -> len content <= max_chars) ->
  Agents.read_file_content T fs file_path max_chars
  = FileAnalyzer.read_file_content T fs file_path.
Proof.
  intros Hshort.
  unfold Agents.read_file_content, FileAnalyzer.read_file_content.
  f_equal. unfold Agents.read, FileAnalyzer.read.
  destruct (open_read T fs 0 file_path utf_8) as [content | [| msg]] eqn:Hread.
  - rewrite (limit_below_the_cap _ (Hshort _ _ _ Hread)). reflexivity.
  - generalize 1%nat. generalize encodings.
    induction l as [| e l IH]; intros n; simpl; [reflexivity |].
    destruct (open_read T fs n file_path e) as [content | x] eqn:Hopen.
    + rewrite (limit_below_the_cap _ (Hshort _ _ _ Hopen)). reflexivity.
    + apply IH.
  - reflexivity.
Qed.

(** The short note [t.md] under the default cap of the agent modules. *)
Lemma readers_agree_below_the_cap_witness :
  Agents.read_file_content plain tag_md (lit "t.md") 2000
  = FileAnalyzer.read_file_content plain tag_md (lit "t.md").
Proof.
  apply (@readers_agree_below_the_cap plain tag_md (lit "t.md") 2000).
  intros n e content H.
  destruct e; vm_compute in H; inversion H; vm_compute; discriminate.
Defined.

(** ** The statistics and the order of the manifest *)

Lemma total_bytes_perm (a b : list FileAnalyzer.file_info)
      (H : Permutation a b) :
  total_bytes a = total_bytes b.
Proof. induction H; simpl; lia. Qed.

Lemma bucket_perm (T : tables) (k : str) (a b : list FileAnalyzer.file_info)
      (H : Permutation a b) :
  Permutation (bucket T k a) (bucket T k b).
Proof.
  unfold bucket. induction H as [| x a b _ IH | x y a | a b c _ IH1 _ IH2];
    simpl.
  - constructor.
  - destruct (Text.eqb _ k); [constructor |]; exact IH.
  - destruct (Text.eqb (Agents.extension_key T (FileAnalyzer.path x)) k),
             (Text.eqb (Agents.extension_key T (FileAnalyzer.path y)) k);
      try apply Permutation_refl; apply perm_swap.
  - exact (Permutation_trans IH1 IH2).
Qed.

Lemma stat_of_perm (a b : list FileAnalyzer.file_info) (H : Permutation a b) :
  stat_of a = stat_of b.
Proof.
  destruct a as [| x a].
  - apply Permutation_nil in H. subst b. reflexivity.
  - destruct b as [| y b];
      [apply Permutation_sym, Permutation_nil in H; discriminate |].
    unfold stat_of.
    rewrite (Permutation_length H), (total_bytes_perm H). reflexivity.
Qed.

(** What the loop of [analyze_file_types] has built at its end. *)
Lemma analyze_file_types_buckets (T : tables)
      (manifest : list FileAnalyzer.file_info) :
  let r := Agents.analyze_file_types T manifest in
  Agents.total_files r = Z.of_nat (length manifest)
  /\ Agents.total_size r = total_bytes manifest
  /\ NoDup (map fst (Agents.file_types r))
  /\ (forall k, Agents.dict_get k (Agents.file_types r)
                = stat_of (bucket T k manifest)).
Proof.
  unfold Agents.analyze_file_types.
  pose proof (@count_files_invariant T manifest [] [] 0
                eq_refl eq_refl eq_refl (NoDup_nil _) (fun k => eq_refl))
    as Hinv.
  destruct (fold_left (Agents.count_file T) manifest ([], 0))
    as [type_stats total].
  simpl app in Hinv. destruct Hinv as (_ & _ & Ht & Hnd & Hget).
  cbn. auto.
Qed.

(** In a dictionary a key is bound once: the pairs are what [get] finds. *)
Lemma dict_get_in (V : Type) (d : list (str * V)) (k : str) (v : V) :
  NoDup (map fst d) -> (In (k, v) d <-> Agents.dict_get k d = Some v).
Proof.
  induction d as [| [k0 v0] d IH]; simpl; intros Hnd;
    [split; [contradiction | discriminate] |].
  inversion Hnd as [| x xs Hnotin Hnd']; subst.
  destruct (Text.eqb k0 k) eqn:Hk.
  - apply eqb_eq in Hk. subst k0. split.
    + intros [Heq | Hin]; [congruence |].
      exfalso. apply Hnotin. apply (in_map fst) in Hin. exact Hin.
    + intros Heq. left. congruence.
  - apply eqb_neq in Hk. rewrite <- (IH Hnd'). split.
    + intros [Heq | Hin]; [congruence | exact Hin].
    + intros Hin. right. exact Hin.
Qed.

(** X6.  The statistics do not depend on the order of the manifest: two
    manifests that hold the same records in different orders give the same
    totals, the same count and size under every key, and the same buckets;
    only the order of the buckets can differ. *)
Theorem statistics_ignore_the_order_of_the_manifest
        (T : tables) (m1 m2 : list FileAnalyzer.file_info)
        (Hperm : Permutation m1 m2) :
  let r1 := Agents.analyze_file_types T m1 in
  let r2 := Agents.analyze_file_types T m2 in
  Agents.total_files r1 = Agents.total_files r2
  /\ Agents.total_size r1 = Agents.total_size r2
  /\ (forall k, Agents.dict_get k (Agents.file_types r1)
                = Agents.dict_get k (Agents.file_types r2))
  /\ Permutation (Agents.file_types r1) (Agents.file_types r2).
Proof.
  intros r1 r2.
  destruct (analyze_file_types_buckets T m1) as (Hn1 & Hs1 & Hnd1 & Hget1).
  destruct (analyze_file_types_buckets T m2) as (Hn2 & Hs2 & Hnd2 & Hget2).
  fold r1 in Hn1, Hs1, Hnd1, Hget1. fold r2 in Hn2, Hs2, Hnd2, Hget2.
  assert (Hget : forall k, Agents.dict_get k (Agents.file_types r1)
                           = Agents.dict_get k (Agents.file_types r2)).
  { intros k. rewrite Hget1, Hget2. apply stat_of_perm, bucket_perm, Hperm. }
  split; [rewrite Hn1, Hn2, (Permutation_length Hperm); reflexivity |].
  split; [rewrite Hs1, Hs2; apply total_bytes_perm, Hperm |].
  split; [exact Hget |].
  apply NoDup_Permutation.
  - exact (NoDup_map_inv fst _ Hnd1).
  - exact (NoDup_map_inv fst _ Hnd2).
  - intros [k v]. rewrite (@dict_get_in _ _ k v Hnd1), (@dict_get_in _ _ k v Hnd2), Hget.
    tauto.
Qed.

Lemma dict_mem_existsb (V : Type) (k : str) (d : list (str * V)) :
  Agents.dict_mem k d = existsb (fun k' => Text.eqb k' k) (map fst d).
Proof.
  induction d as [| [k0 v0] d IH]; simpl; [| rewrite IH]; reflexivity.
Qed.

Lemma count_file_keys (T : tables) (type_stats : list (str * Agents.TypeStat.t))
      (total : Z) (f : FileAnalyzer.file_info) :
  map fst (fst (Agents.count_file T (type_stats, total) f))
  = if Agents.dict_mem (Agents.extension_key T (FileAnalyzer.path f)) type_stats
    then map fst type_stats
    else map fst type_stats ++ [Agents.extension_key T (FileAnalyzer.path f)].
Proof.
  unfold Agents.count_file. cbn [fst].
  rewrite !dict_update_keys.
  destruct (Agents.dict_mem _ type_stats) eqn:Hm; simpl; [reflexivity |].
  rewrite dict_set_new_key by exact Hm. rewrite map_app. reflexivity.
Qed.

Lemma count_files_keys (T : tables) :
  forall (l : list FileAnalyzer.file_info)
         (type_stats : list (str * Agents.TypeStat.t)) (total : Z),
    map fst (fst (fold_left (Agents.count_file T) l (type_stats, total)))
    = map fst type_stats
      ++ first_occurrences
           (map fst type_stats)
           (map (fun f => Agents.extension_key T (FileAnalyzer.path f)) l).
Proof.
  induction l as [| f l IH]; intros ts total; cbn [fold_left map].
  - simpl. symmetry. apply app_nil_r.
  - pose proof (count_file_keys T ts total f) as Hkeys.
    destruct (Agents.count_file T (ts, total) f) as [ts1 total1].
    cbn [fst] in Hkeys. rewrite IH, Hkeys. cbn [first_occurrences].
    rewrite <- dict_mem_existsb.
    destruct (Agents.dict_mem _ ts); [reflexivity |].
    rewrite <- app_assoc. reflexivity.
Qed.

(** X7.  The buckets of [file_types] stand in the order in which their
    extensions first occur in the manifest. *)
Theorem buckets_follow_first_occurrence
        (T : tables) (manifest : list FileAnalyzer.file_info) :
  map fst (Agents.file_types (Agents.analyze_file_types T manifest))
  = first_occurrences
      [] (map (fun f => Agents.extension_key T (FileAnalyzer.path f)) manifest).
Proof.
  unfold Agents.analyze_file_types.
  pose proof (count_files_keys T manifest [] 0) as Hkeys.
  destruct (fold_left (Agents.count_file T) manifest ([], 0))
    as [type_stats total].
  exact Hkeys.
Qed.

(** Two records in the two orders. *)
Lemma statistics_ignore_the_order_of_the_manifest_witness :
  let a := FileAnalyzer.FileInfo (lit "notes/a.md") (lit "2023-11-14T22:13:20") 29 in
  let b := FileAnalyzer.FileInfo (lit "todo.TXT") (lit "2023-11-14T22:13:20") 7 in
  Agents.total_size (Agents.analyze_file_types plain [b; a])
  = Agents.total_size (Agents.analyze_file_types plain [a; b])
  /\ Permutation (Agents.file_types (Agents.analyze_file_types plain [b; a]))
                 (Agents.file_types (Agents.analyze_file_types plain [a; b])).
Proof.
  intros a b.
  destruct (@statistics_ignore_the_order_of_the_manifest
              plain [b; a] [a; b] (perm_swap a b []))
    as (_ & Hsize & _ & Hperm).
  split; [exact Hsize | exact Hperm].
Defined.

(** ** The paths of a manifest *)

Section ManifestPaths.
Import Walk FileAnalyzer.
Variable fromtimestamp : Z -> option datetime.

(** The paths the loop body records are paths of the walk, in its order. *)
Lemma visit_path (cutoff_date : datetime) (p : str) (n : node) :
  map path (visit fromtimestamp cutoff_date (p, n)) = []
  \/ map path (visit fromtimestamp cutoff_date (p, n)) = [p].
Proof.
  unfold visit. cbn [fst snd].
  destruct n as [name [st |] st2 | name | name entries | name msg | name msg];
    auto.
  destruct (fromtimestamp (st_mtime st)); auto.
  destruct (gtb _ cutoff_date); auto.
  destruct st2; auto.
Qed.

Lemma visited_paths_in_walk (cutoff_date : datetime)
      (walk : list (str * node)) (p : str) :
  In p (map path (flat_map (visit fromtimestamp cutoff_date) walk)) ->
  In p (map fst walk).
Proof.
  induction walk as [| [q n] walk IH]; simpl; [tauto |].
  rewrite map_app, in_app_iff. intros [Hin | Hin]; [| right; exact (IH Hin)].
  destruct (visit_path cutoff_date q n) as [H | H]; rewrite H in Hin.
  - contradiction.
  - destruct Hin as [<- | []]. left. reflexivity.
Qed.

Lemma visited_paths_nodup (cutoff_date : datetime)
      (walk : list (str * node)) :
  NoDup (map fst walk) ->
  NoDup (map path (flat_map (visit fromtimestamp cutoff_date) walk)).
Proof.
  induction walk as [| [q n] walk IH]; simpl; intros Hnd; [constructor |].
  inversion Hnd as [| x xs Hnotin Hnd']; subst.
  rewrite map_app.
  destruct (visit_path cutoff_date q n) as [H | H]; rewrite H; simpl.
  - exact (IH Hnd').
  - constructor; [| exact (IH Hnd')].
    intros Hin. apply Hnotin. exact (visited_paths_in_walk _ _ _ Hin).
Qed.

Lemma visited_at_most_the_files (cutoff_date : datetime)
      (walk : list (str * node)) :
  (length (flat_map (visit fromtimestamp cutoff_date) walk)
   <= length (filter regular walk))%nat.
Proof.
  induction walk as [| [q n] walk IH]; simpl; [lia |].
  rewrite length_app.
  assert (Hone : (length (visit fromtimestamp cutoff_date (q, n))
                  <= if regular (q, n) then 1 else 0)%nat).
  { unfold visit, regular. cbn [fst snd].
    destruct n as [name [st |] st2 | name | name entries | name msg | name msg];
      simpl; try lia.
    destruct (fromtimestamp (st_mtime st)); simpl; try lia.
    destruct (gtb _ cutoff_date); simpl; try lia.
    destruct st2; simpl; lia. }
  destruct (regular (q, n)); simpl; lia.
Qed.

End ManifestPaths.

(** X8.  When the walk of the folder gives no path twice, no two records of
    the manifest carry the same path, and the manifest holds at most one
    record for each regular file of the walk. *)
Theorem manifest_lists_no_path_twice
        (fromtimestamp : Z -> option datetime)
        (disk : str -> option Walk.node) (now : datetime)
        (folder_path : str) (days : Z) (folder : Walk.node)
        (manifest : list FileAnalyzer.file_info)
        (Hfolder : disk folder_path = Some folder)
        (Hscan : FileAnalyzer.find_recent_files fromtimestamp disk now
                   folder_path days = Ok manifest) :
  let walk := Walk.rglob (PathLib.to_str folder_path) folder in
  (length manifest <= length (filter regular walk))%nat
  /\ (NoDup (map fst walk) -> NoDup (map FileAnalyzer.path manifest)).
Proof.
  intros walk.
  apply find_recent_files_spec in Hscan.
  destruct Hscan as (folder' & cutoff_date & Hfolder' & _ & -> & _).
  rewrite Hfolder in Hfolder'. inversion Hfolder'; subst folder'.
  fold walk.
  pose proof (sort_reverse_perm FileAnalyzer.modified
                (flat_map (FileAnalyzer.visit fromtimestamp cutoff_date) walk))
    as Hperm.
  split.
  - apply Nat.le_trans
      with (length (flat_map (FileAnalyzer.visit fromtimestamp cutoff_date)
                             walk));
      [| apply visited_at_most_the_files].
    apply Nat.eq_le_incl. exact (Permutation_length Hperm).
  - intros Hnd.
    apply (Permutation_NoDup
             (Permutation_map FileAnalyzer.path (Permutation_sym Hperm))).
    apply visited_paths_nodup. exact Hnd.
Qed.

(** The sample folder: of the five regular files in the walk of [vault],
    three are in the manifest, under three paths. *)
Lemma manifest_lists_no_path_twice_witness :
  let manifest :=
    [FileAnalyzer.FileInfo (lit "vault/README") (lit "2023-11-14T22:13:21") 1;
     FileAnalyzer.FileInfo (lit "vault/todo.TXT") (lit "2023-11-14T22:13:20") 7;
     FileAnalyzer.FileInfo (lit "vault/notes/a.md")
                           (lit "2023-11-14T22:13:20") 29] in
  FileAnalyzer.find_recent_files utc_fromtimestamp vault_disk noon
    (lit "vault") 30 = Ok manifest
  /\ (length manifest <= 5)%nat
  /\ NoDup (map FileAnalyzer.path manifest).
Proof.
  intros manifest.
  assert (Hscan : FileAnalyzer.find_recent_files utc_fromtimestamp vault_disk
                    noon (lit "vault") 30 = Ok manifest)
    by (vm_compute; reflexivity).
  destruct (@manifest_lists_no_path_twice
              utc_fromtimestamp vault_disk noon (lit "vault") 30 vault
              manifest eq_refl Hscan) as [Hlen Hnd].
  split; [exact Hscan |]. split.
  - vm_compute in Hlen. vm_compute. exact Hlen.
  - apply Hnd. vm_compute.
    repeat constructor; simpl; intuition discriminate.
Defined.

(** *** Paths lie under the folder *)

(** What [child] puts between a directory and a name. *)
Lemma child_eq (dir : str) :
  dir <> [PathLib.dot] ->
  exists sep, forall name, PathLib.child dir name = dir ++ sep ++ name.
Proof.
  intros Hdir. unfold PathLib.child.
  destruct (Text.eqb dir [PathLib.dot]) eqn:Hdot;
    [apply eqb_eq in Hdot; contradiction |].
  destruct (Text.eqb (skipn (length dir - 1) dir) [PathLib.slash]).
  - exists []. reflexivity.
  - exists [PathLib.slash]. reflexivity.
Qed.

Lemma child_not_dot (dir name : str) :
  dir <> [PathLib.dot] -> PathLib.child dir name <> [PathLib.dot].
Proof.
  intros Hdir. unfold PathLib.child.
  destruct (Text.eqb dir [PathLib.dot]) eqn:Hdot;
    [apply eqb_eq in Hdot; contradiction |].
  destruct (Text.eqb (skipn (length dir - 1) dir) [PathLib.slash]) eqn:Hend.
  - destruct dir as [| c [| d dir]]; simpl in *; try discriminate.
    intros H. inversion H; subst. apply Hdir. reflexivity.
  - destruct dir as [| c dir]; simpl; [discriminate |].
    intros H. inversion H as [[Hc Hrest]].
    destruct dir; discriminate.
Qed.

Lemma rglob_under :
  forall (n : Walk.node) (dir p : str) (e : Walk.node),
    dir <> [PathLib.dot] ->
    In (p, e) (Walk.rglob dir n) ->
    exists rest, p = PathLib.child dir rest.
Proof.
  fix IH 1.
  intros [name s1 s2 | name | name entries | name msg | name msg] dir p e
         Hdir Hin;
    unfold Walk.rglob in Hin; cbn [Walk.iterate fst] in Hin;
    try contradiction.
  unfold Walk.then_run in Hin at 1. cbn [fst snd] in Hin.
  apply in_app_or in Hin. destruct Hin as [Hin | Hin].
  - apply in_map_iff in Hin. destruct Hin as (e' & Heq & _).
    inversion Heq; subst. eexists. reflexivity.
  - assert (Hsub : forall e0,
               In (p, e) (Walk.rglob (PathLib.child dir (Walk.name_of e0)) e0)
               -> (exists rest0,
                      p = PathLib.child
                            (PathLib.child dir (Walk.name_of e0)) rest0)
               -> exists rest, p = PathLib.child dir rest).
    { intros e0 _ [rest0 ->].
      destruct (child_eq Hdir) as [sep Hsep].
      destruct (child_eq (child_not_dot (Walk.name_of e0) Hdir))
        as [sep' Hsep'].
      exists (Walk.name_of e0 ++ sep' ++ rest0).
      rewrite Hsep', !Hsep, <- !app_assoc. reflexivity. }
    induction entries as [| e0 entries IHe]; cbn [map fold_right] in Hin;
      [contradiction |].
    unfold Walk.then_run in Hin at 1.
    destruct (snd (Walk.iterate (PathLib.child dir (Walk.name_of e0)) e0))
      eqn:Herr; cbn [fst] in Hin.
    + apply (Hsub e0 Hin).
      exact (IH e0 _ p e (child_not_dot (Walk.name_of e0) Hdir) Hin).
    + apply in_app_or in Hin. destruct Hin as [Hin | Hin].
      * apply (Hsub e0 Hin).
        exact (IH e0 _ p e (child_not_dot (Walk.name_of e0) Hdir) Hin).
      * exact (IHe Hin).
Qed.

(** X9.  The paths of a manifest lie under the scanned folder: each is the
    folder's path, as [pathlib] prints it, joined with a relative path.
    (When the folder prints as ["."], the paths are relative and carry no
    prefix.) *)
Theorem manifest_paths_lie_under_the_folder
        (fromtimestamp : Z -> option datetime)
        (disk : str -> option Walk.node) (now : datetime)
        (folder_path : str) (days : Z)
        (manifest : list FileAnalyzer.file_info)
        (Hscan : FileAnalyzer.find_recent_files fromtimestamp disk now
                   folder_path days = Ok manifest)
        (Hdot : PathLib.to_str folder_path <> [PathLib.dot]) :
  forall r, In r manifest ->
            exists rest,
              FileAnalyzer.path r
              = PathLib.child (PathLib.to_str folder_path) rest.
Proof.
  intros r Hr.
  apply find_recent_files_spec in Hscan.
  destruct Hscan as (folder & cutoff_date & _ & _ & -> & _).
  apply (Permutation_in _ (sort_reverse_perm FileAnalyzer.modified _)) in Hr.
  apply (in_map FileAnalyzer.path) in Hr.
  apply visited_paths_in_walk in Hr.
  apply in_map_iff in Hr. destruct Hr as ([p e] & Hp & Hin).
  simpl in Hp. subst p.
  eapply rglob_under; eassumption.
Qed.

(** The manifest of the sample folder: every path starts with [vault/]. *)
Lemma manifest_paths_lie_under_the_folder_witness :
  Forall (fun r => exists rest, FileAnalyzer.path r = lit "vault/" ++ rest)
         [FileAnalyzer.FileInfo (lit "vault/README")
                                (lit "2023-11-14T22:13:21") 1;
          FileAnalyzer.FileInfo (lit "vault/todo.TXT")
                                (lit "2023-11-14T22:13:20") 7;
          FileAnalyzer.FileInfo (lit "vault/notes/a.md")
                                (lit "2023-11-14T22:13:20") 29].
Proof.
  apply Forall_forall. intros r Hr.
  destruct (@manifest_paths_lie_under_the_folder
              utc_fromtimestamp vault_disk noon (lit "vault") 30 _
              ltac:(vm_compute; reflexivity)
              ltac:(vm_compute; discriminate) r Hr) as [rest Hrest].
  exists rest. rewrite Hrest. reflexivity.
Defined.

(** ** The masked API key *)

Lemma len_times (c : char) (n : Z) : 0 <= n -> len (TextMore.times c n) = n.
Proof.
  intros Hn. unfold len, TextMore.times. rewrite repeat_length. lia.
Qed.

(** X10.  The masked key is as long as the key.  A key of at most eight
    characters is masked entirely; of a longer key the last eight characters
    are shown, at their places, and every character before them is a star:
    a character of the masked key that is not a star is one of the last
    eight of a key longer than eight. *)
Theorem masked_key_shows_only_the_last_eight (api_key : str) :
  let masked := AgentsMain.mask_api_key api_key in
  let n := length api_key in
  len masked = len api_key
  /\ (len api_key <= 8 -> masked = repeat AgentsMain.star n)
  /\ (8 < len api_key ->
      masked = repeat AgentsMain.star (n - 8) ++ skipn (n - 8) api_key)
  /\ (forall (i : nat) (c : char),
         nth_error masked i = Some c -> c <> AgentsMain.star ->
         8 < len api_key /\ (n - 8 <= i)%nat /\ nth_error api_key i = Some c).
Proof.
  intros masked n.
  assert (Hshort : len api_key <= 8 -> masked = repeat AgentsMain.star n).
  { intros H. unfold masked, AgentsMain.mask_api_key.
    destruct (Z.gtb_spec (len api_key) 8); [lia |].
    unfold TextMore.times, len, n. rewrite Nat2Z.id. reflexivity. }
  assert (Hlong : 8 < len api_key ->
                  masked = repeat AgentsMain.star (n - 8)
                           ++ skipn (n - 8) api_key).
  { intros H. unfold masked, AgentsMain.mask_api_key.
    destruct (Z.gtb_spec (len api_key) 8); [| lia].
    unfold TextMore.times, TextMore.slice_from, len, n.
    change (0 <=? -8) with false. cbv iota.
    unfold str, char in *. f_equal; f_equal; lia. }
  split; [| split; [exact Hshort | split; [exact Hlong |]]].
  - destruct (Z.le_gt_cases (len api_key) 8) as [H | H].
    + rewrite (Hshort H). unfold len. rewrite repeat_length. reflexivity.
    + rewrite (Hlong H). unfold len in *.
      rewrite length_app, repeat_length, length_skipn. fold n. lia.
  - intros i c Hi Hc.
    destruct (Z.le_gt_cases (len api_key) 8) as [H | H].
    + rewrite (Hshort H) in Hi. apply nth_error_In, repeat_spec in Hi.
      contradiction.
    + split; [exact H |]. rewrite (Hlong H) in Hi.
      destruct (Nat.lt_ge_cases i (n - 8)) as [Hlt | Hge].
      * rewrite nth_error_app1 in Hi by (rewrite repeat_length; exact Hlt).
        apply nth_error_In, repeat_spec in Hi. contradiction.
      * split; [exact Hge |].
        rewrite nth_error_app2 in Hi by (rewrite repeat_length; exact Hge).
        rewrite repeat_length, nth_error_skipn in Hi.
        replace (n - 8 + (i - (n - 8)))%nat with i in Hi by lia.
        exact Hi.
Qed.

(** ** The Azure settings *)

(** X11.  [AzureConfig.from_env] raises exactly when one of the three
    required variables is unset or empty, and its message lists the names
    of those variables, and only them, in the fixed order.  Otherwise the
    settings are the values of the three variables, none of them empty, and
    the API version is the variable's value when it is set, even to the
    empty text, and the default when it is not. *)
Theorem from_env_names_the_missing_variables (getenv : str -> option str) :
  let required := [lit "AZURE_OPENAI_API_KEY"; lit "AZURE_OPENAI_ENDPOINT";
                   lit "AZURE_OPENAI_DEPLOYMENT"] in
  let missing :=
    filter (fun name => negb (Azure.truthy (getenv name))) required in
  match Azure.from_env getenv with
  | Raise msg =>
    missing <> []
    /\ msg = lit "以下の環境変数が設定されていません: "
             ++ TextMore.join_with (lit ", ") missing
  | Ok c =>
    missing = []
    /\ getenv (lit "AZURE_OPENAI_API_KEY") = Some (Azure.api_key c)
    /\ getenv (lit "AZURE_OPENAI_ENDPOINT") = Some (Azure.endpoint c)
    /\ getenv (lit "AZURE_OPENAI_DEPLOYMENT") = Some (Azure.deployment c)
    /\ Azure.api_key c <> [] /\ Azure.endpoint c <> []
    /\ Azure.deployment c <> []
    /\ Azure.api_version c
       = match getenv (lit "AZURE_OPENAI_API_VERSION") with
         | Some v => v
         | None => lit "2024-08-01-preview"
         end
  end.
Proof.
  intros required missing. unfold missing, required, Azure.from_env.
  cbn [filter].
  destruct (getenv (lit "AZURE_OPENAI_API_KEY")) as [[| k1 k] |];
    destruct (getenv (lit "AZURE_OPENAI_ENDPOINT")) as [[| e1 e] |];
    destruct (getenv (lit "AZURE_OPENAI_DEPLOYMENT")) as [[| d1 d] |];
    cbn [Azure.truthy negb andb app Azure.text Azure.api_key Azure.endpoint
         Azure.deployment Azure.api_version];
    repeat split; try discriminate; reflexivity.
Qed.

(** ** Saving a report *)

Lemma in_range_iff (lo hi x : Z) : in_range lo hi x = true <-> lo <= x <= hi.
Proof. unfold in_range. rewrite andb_true_iff, !Z.leb_le. tauto. Qed.

Lemma in_range_not (lo hi x : Z) :
  in_range lo hi x = false <-> x < lo \/ hi < x.
Proof.
  unfold in_range. rewrite andb_false_iff, !Z.leb_gt. tauto.
Qed.

Ltac inside := rewrite (proj2 (in_range_iff _ _ _)) by lia.
Ltac outside := rewrite (proj2 (in_range_not _ _ _)) by lia.

(** The decoder on the byte sequences of two, three and four bytes, by the
    bits they carry. *)
Lemma utf8_decode_two (q r : Z) (rest : list Z) :
  2 <= q <= 31 -> 0 <= r <= 63 ->
  utf8_decode (192 + q :: 128 + r :: rest)
  = option_map (cons (64 * q + r)) (utf8_decode rest).
Proof.
  intros Hq Hr. cbn [utf8_decode]. unfold cont.
  outside. inside. inside. f_equal. f_equal. lia.
Qed.

Lemma utf8_decode_three (a b d : Z) (rest : list Z) :
  0 <= a <= 15 -> 0 <= b <= 63 -> 0 <= d <= 63 ->
  (a = 0 -> 32 <= b) -> (a = 13 -> b <= 31) ->
  utf8_decode (224 + a :: 128 + b :: 128 + d :: rest)
  = option_map (cons (4096 * a + 64 * b + d)) (utf8_decode rest).
Proof.
  intros Ha Hb Hd Hlow Hsur. cbn [utf8_decode]. unfold cont.
  outside. outside. inside.
  destruct (Z.eqb_spec (224 + a) 224), (Z.eqb_spec (224 + a) 237);
    inside; inside; cbn [andb]; f_equal; f_equal; lia.
Qed.

Lemma utf8_decode_four (a b e d : Z) (rest : list Z) :
  0 <= a <= 4 -> 0 <= b <= 63 -> 0 <= e <= 63 -> 0 <= d <= 63 ->
  (a = 0 -> 16 <= b) -> (a = 4 -> b <= 15) ->
  utf8_decode (240 + a :: 128 + b :: 128 + e :: 128 + d :: rest)
  = option_map (cons (262144 * a + 4096 * b + 64 * e + d)) (utf8_decode rest).
Proof.
  intros Ha Hb He Hd Hlow Hhigh. cbn [utf8_decode]. unfold cont.
  outside. outside. outside. inside.
  destruct (Z.eqb_spec (240 + a) 240), (Z.eqb_spec (240 + a) 244);
    inside; inside; inside; cbn [andb]; f_equal; f_equal; lia.
Qed.

(** The bits of a code point. *)
Lemma six_bits (c : Z) :
  c = 64 * (c / 64) + c mod 64 /\ 0 <= c mod 64 <= 63.
Proof.
  pose proof (Z.div_mod c 64). pose proof (Z.mod_pos_bound c 64). lia.
Qed.

Lemma twelve_bits (c : Z) : c / 4096 = c / 64 / 64.
Proof. rewrite Z.div_div by lia. reflexivity. Qed.

Lemma eighteen_bits (c : Z) : c / 262144 = c / 4096 / 64.
Proof. rewrite Z.div_div by lia. reflexivity. Qed.

(** The encoder writes bytes, and the decoder reads the code point back;
    the encoder refuses what is not a scalar value. *)
Lemma utf8_encode_char_decodes (c : char) (rest : list Z) :
  match TextMore.utf8_encode_char c with
  | Some bs =>
    scalar c = true
    /\ Forall (fun b => 0 <= b <= 255) bs
    /\ utf8_decode (bs ++ rest) = option_map (cons c) (utf8_decode rest)
  | None => scalar c = false
  end.
Proof.
  unfold TextMore.utf8_encode_char, scalar.
  destruct (in_range 0 127 c) eqn:R1;
    [apply in_range_iff in R1 | apply in_range_not in R1].
  { split; [inside; reflexivity |].
    split; [repeat (apply Forall_cons; [lia |]); apply Forall_nil |].
    cbn [app utf8_decode]. inside. reflexivity. }
  destruct (six_bits c) as [Hc Hd].
  set (d := c mod 64) in *. set (q := c / 64) in *.
  destruct (in_range 128 2047 c) eqn:R2;
    [apply in_range_iff in R2 | apply in_range_not in R2].
  { split; [inside; reflexivity |].
    split; [repeat (apply Forall_cons; [lia |]); apply Forall_nil |].
    cbn [app]. rewrite utf8_decode_two by lia. rewrite <- Hc. reflexivity. }
  destruct (six_bits q) as [Hq Hb].
  rewrite !twelve_bits. fold q.
  set (b := q mod 64) in *. set (a := q / 64) in *.
  destruct (in_range 2048 65535 c) eqn:R3;
    [apply in_range_iff in R3 | apply in_range_not in R3].
  { destruct (in_range 55296 57343 c) eqn:R4;
      [apply in_range_iff in R4 | apply in_range_not in R4].
    - outside. outside. reflexivity.
    - split; [destruct R4; [inside | outside; inside]; reflexivity |].
      split; [repeat (apply Forall_cons; [lia |]); apply Forall_nil |].
      cbn [app]. rewrite utf8_decode_three by lia.
      replace (4096 * a + 64 * b + d) with c by lia. reflexivity. }
  destruct (six_bits a) as [Ha He].
  rewrite !eighteen_bits, !twelve_bits. fold q. fold a.
  set (e := a mod 64) in *. set (h := a / 64) in *.
  destruct (in_range 65536 1114111 c) eqn:R5;
    [apply in_range_iff in R5 | apply in_range_not in R5].
  - split; [outside; inside; reflexivity |].
    split; [repeat (apply Forall_cons; [lia |]); apply Forall_nil |].
    cbn [app]. fold b. rewrite utf8_decode_four by lia.
    replace (262144 * h + 4096 * e + 64 * b + d) with c by lia. reflexivity.
  - outside. outside. reflexivity.
Qed.

(** A text of scalar values is encoded, and decoding the bytes gives it
    back; a text that holds anything else is refused. *)
Lemma utf8_round_trip (s : str) :
  match TextMore.utf8_encode s with
  | Some bs =>
    Forall (fun c => scalar c = true) s
    /\ Forall (fun b => 0 <= b <= 255) bs
    /\ utf8_decode bs = Some s
  | None => exists c, In c s /\ scalar c = false
  end.
Proof.
  induction s as [| c s IH]; cbn [TextMore.utf8_encode].
  - repeat split; constructor.
  - pose proof (utf8_encode_char_decodes c) as Hc.
    destruct (TextMore.utf8_encode_char c) as [a |].
    + destruct (TextMore.utf8_encode s) as [b |].
      * destruct IH as (Hs & Hb & Hdec).
        destruct (Hc b) as (Hsc & Ha & Hda).
        split; [constructor; assumption |].
        split; [apply Forall_app; split; assumption |].
        rewrite Hda, Hdec. reflexivity.
      * destruct IH as (x & Hx & Hsx). exists x. split; [right |]; assumption.
    + exists c. split; [left; reflexivity | exact (Hc [])].
Qed.

Lemma byte_round_trip (b : Z) :
  0 <= b <= 255 -> byte_val (TextMore.to_byte b) = b.
Proof.
  intros Hb. unfold byte_val, TextMore.to_byte.
  destruct (Byte.of_N (Z.to_N b)) as [x |] eqn:Hx.
  - apply Byte.to_of_N in Hx. rewrite Hx. lia.
  - apply Byte.of_N_None_iff in Hx. lia.
Qed.

Lemma bytes_round_trip (bs : list Z) :
  Forall (fun b => 0 <= b <= 255) bs ->
  map byte_val (map TextMore.to_byte bs) = bs.
Proof.
  induction 1 as [| b bs Hb _ IH]; simpl; [reflexivity |].
  rewrite (byte_round_trip Hb), IH. reflexivity.
Qed.

(** X12.  When [save_report] answers that the report is saved, the file
    holds the report: its bytes are the UTF-8 of the text, and the reader of
    [file_analyzer.py], given a file with these bytes, returns the text (its
    line ends as a read in text mode gives them, annotated when the path is
    a note) without an encoding tag.  It answers so exactly when the file
    can be opened, the text is made of Unicode scalar values, and writing
    and closing raise nothing; in every other case the answer starts with
    the error marker. *)
Theorem saved_report_reads_back
        (open_error : str -> option str)
        (write_error : str -> list byte -> option (str * list byte))
        (encode_error : str -> str)
        (report_data output_path : str) :
  let saved :=
    Writer.save_report open_error write_error encode_error
                       report_data output_path in
  let done := lit "レポートを " ++ output_path ++ lit " に保存しました。" in
  (fst saved = done
   <-> open_error output_path = None
       /\ exists bytes,
           TextMore.utf8_encode report_data = Some bytes
           /\ write_error output_path (map TextMore.to_byte bytes) = None)
  /\ (fst saved = done ->
      Forall (fun c => scalar c = true) report_data
      /\ exists bytes,
          snd saved = Writer.Holds bytes
          /\ utf8_decode (map byte_val bytes) = Some report_data
          /\ forall (T : tables) (fs : files) (p : str),
              fs 0%nat p = Contents bytes ->
              FileAnalyzer.read_file_content T fs p
              = if Text.eqb (lower (unicode_lower T) (PathLib.suffix p)) md
                then process_obsidian_markdown
                       (universal_newlines report_data)
                else universal_newlines report_data)
  /\ (Forall (fun c => scalar c = true) report_data ->
      exists bytes, TextMore.utf8_encode report_data = Some bytes)
  /\ (fst saved <> done -> exists msg, fst saved = lit "保存エラー: " ++ msg).
Proof.
  intros saved done.
  assert (Hmark : forall msg, lit "保存エラー: " ++ msg <> done)
    by (intros msg H; vm_compute in H; discriminate).
  pose proof (utf8_round_trip report_data) as Hrt.
  assert (Hcases :
            (fst saved = done
             /\ open_error output_path = None
             /\ exists bytes,
                 TextMore.utf8_encode report_data = Some bytes
                 /\ write_error output_path (map TextMore.to_byte bytes) = None
                 /\ snd saved = Writer.Holds (map TextMore.to_byte bytes))
            \/ ((exists msg, fst saved = lit "保存エラー: " ++ msg)
                /\ (open_error output_path <> None
                    \/ TextMore.utf8_encode report_data = None
                    \/ exists bytes,
                        TextMore.utf8_encode report_data = Some bytes
                        /\ write_error output_path
                                       (map TextMore.to_byte bytes) <> None))).
  { unfold saved, Writer.save_report.
    destruct (open_error output_path) as [msg |] eqn:Hopen.
    - right. split; [eexists; reflexivity | left; discriminate].
    - destruct (TextMore.utf8_encode report_data) as [bytes |] eqn:Henc.
      + destruct (write_error output_path (map TextMore.to_byte bytes))
          as [[msg kept] |] eqn:Hwrite.
        * right. split; [eexists; reflexivity |].
          right. right. exists bytes. split; [reflexivity |].
          rewrite Hwrite. discriminate.
        * left. split; [reflexivity |]. split; [reflexivity |].
          exists bytes. repeat split. exact Hwrite.
      + right. split; [eexists; reflexivity |]. right. left. reflexivity. }
  split; [| split; [| split]].
  - split.
    + intros Hdone.
      destruct Hcases as [(_ & Hopen & bytes & Henc & Hwrite & _)
                         | [[msg Hmsg] _]].
      * split; [exact Hopen |]. exists bytes. split; assumption.
      * exfalso. apply (Hmark msg). rewrite <- Hmsg. exact Hdone.
    + intros (Hopen & bytes & Henc & Hwrite).
      destruct Hcases as [(Hdone & _) | [_ Hfail]]; [exact Hdone |].
      exfalso. destruct Hfail as [H | [H | (b & Hb & H)]].
      * exact (H Hopen).
      * congruence.
      * apply H. congruence.
  - intros Hdone.
    destruct Hcases as [(_ & Hopen & bytes & Henc & Hwrite & Hholds)
                       | [[msg Hmsg] _]].
    2:{ exfalso. apply (Hmark msg). rewrite <- Hmsg. exact Hdone. }
    rewrite Henc in Hrt. destruct Hrt as (Hscalar & Hbytes & Hdec).
    split; [exact Hscalar |].
    exists (map TextMore.to_byte bytes). split; [exact Hholds |].
    rewrite (bytes_round_trip Hbytes). split; [exact Hdec |].
    intros T fs p Hfs.
    unfold FileAnalyzer.read_file_content, FileAnalyzer.read, open_read.
    rewrite Hfs. unfold decode.
    rewrite (bytes_round_trip Hbytes), Hdec.
    destruct (Text.eqb (lower (unicode_lower T) (PathLib.suffix p)) md);
      reflexivity.
  - intros Hs. destruct (TextMore.utf8_encode report_data) as [b |];
      [eexists; reflexivity |].
    destruct Hrt as (c & Hin & Hc). rewrite Forall_forall in Hs.
    rewrite (Hs c Hin) in Hc. discriminate.
  - intros Hnot.
    destruct Hcases as [(Hdone & _) | [Hmsg _]];
      [contradiction | exact Hmsg].
Qed.


(** A two-line report with a carriage return, saved and read back from a
    file that is not a note. *)
Lemma saved_report_reads_back_witness :
  let saved :=
    Writer.save_report (fun _ => None) (fun _ _ => None) (fun _ => [])
                       [123; 13; 10; 12354; 125] (lit "out.json") in
  fst saved = lit "レポートを out.json に保存しました。"
  /\ snd saved
     = Writer.Holds [x7b; x0d; x0a; xe3; x81; x82; x7d]
  /\ FileAnalyzer.read_file_content
       one_byte (fun _ _ => Contents [x7b; x0d; x0a; xe3; x81; x82; x7d])
       (lit "out.json")
     = [123; 10; 12354; 125].
Proof.
  intros saved.
  destruct (@saved_report_reads_back
              (fun _ => None) (fun _ _ => None) (fun _ => [])
              [123; 13; 10; 12354; 125] (lit "out.json"))
    as (_ & Hback & _).
  destruct (Hback eq_refl) as (_ & bytes & Hholds & _ & Hread).
  split; [reflexivity |]. split; [reflexivity |].
  injection Hholds as <-.
  rewrite (Hread one_byte
                 (fun _ _ => Contents [x7b; x0d; x0a; xe3; x81; x82; x7d])
                 (lit "out.json") eq_refl).
  reflexivity.
Defined.

(** ** The numbers of the display *)

Lemma number_snoc (s : str) (c : char) :
  number (s ++ [c]) = 10 * number s + (c - 48).
Proof. unfold number. rewrite fold_left_app. reflexivity. Qed.

Lemma decimal_reads_back :
  forall (fuel : nat) (n : Z),
    fuel <> O -> 0 <= n < 2 ^ Z.of_nat fuel ->
    number (Main.decimal fuel n) = n
    /\ Forall (fun c => 48 <= c <= 57) (Main.decimal fuel n)
    /\ Main.decimal fuel n <> [].
Proof.
  induction fuel as [| fuel IH]; intros n Hfuel Hn; [contradiction |].
  - cbn [Main.decimal]. destruct (Z.ltb_spec n 10) as [Hlt | Hge].
    + split; [unfold number; cbn [fold_left]; lia |].
      split; [repeat constructor; lia | discriminate].
    + assert (Hq : 0 <= n / 10 < 2 ^ Z.of_nat fuel).
      { rewrite Nat2Z.inj_succ, Z.pow_succ_r in Hn by lia.
        split; [apply Z.div_pos; lia |].
        apply Z.div_lt_upper_bound; lia. }
      assert (Hfuel' : fuel <> O).
      { intros ->. simpl in Hq.
        assert (1 <= n / 10) by (apply Z.div_le_lower_bound; lia). lia. }
      destruct (IH _ Hfuel' Hq) as (Hnum & Hdigits & Hne).
      pose proof (Z.div_mod n 10). pose proof (Z.mod_pos_bound n 10).
      split; [rewrite number_snoc, Hnum; lia |].
      split; [apply Forall_app; split; [exact Hdigits |];
              repeat constructor; lia |].
      intros Hnil. apply app_eq_nil in Hnil. destruct Hnil; discriminate.
Qed.

(** [str] of a number that is not negative is its decimal digits, with no
    sign: reading them gives the number back. *)
Lemma str_of_int_reads_back (n : Z) :
  0 <= n ->
  number (Main.str_of_int n) = n
  /\ Forall (fun c => 48 <= c <= 57) (Main.str_of_int n).
Proof.
  intros Hn. unfold Main.str_of_int.
  destruct (Z.ltb_spec n 0); [lia |].
  destruct (@decimal_reads_back (S (Z.to_nat (Z.log2 n))) n) as (H1 & H2 & _);
    [discriminate | | split; assumption].
  split; [exact Hn |].
  rewrite Nat2Z.inj_succ, Z2Nat.id by apply Z.log2_nonneg.
  destruct (Z.eq_dec n 0) as [-> | Hpos]; [simpl; lia |].
  apply Z.log2_spec. lia.
Qed.

(** ** The report *)

Lemma sorted_split (A : Type) (R : A -> A -> Prop) (l : list A) :
  StronglySorted R l ->
  forall (k : nat) (a b : A),
    In a (firstn k l) -> In b (skipn k l) -> R a b.
Proof.
  induction 1 as [| x l _ IH Hall]; intros k a b Ha Hb.
  - destruct k; contradiction.
  - destruct k as [| k]; [contradiction |].
    cbn [firstn skipn] in Ha, Hb. destruct Ha as [<- | Ha].
    + rewrite Forall_forall in Hall. apply Hall.
      rewrite <- (firstn_skipn k l). apply in_or_app. right. exact Hb.
    + exact (IH k a b Ha Hb).
Qed.

Import Pipeline.

Section SummaryFacts.
Variable T : tables.

Lemma summaries_agree (reads reads' : nat -> files) :
  forall (l : list FileAnalyzer.file_info) (k0 : nat),
    (forall k f,
        nth_error l k = Some f ->
        slice_to (FileAnalyzer.read_file_content T (reads (k0 + k)%nat)
                                                 (FileAnalyzer.path f)) 500
        = slice_to (FileAnalyzer.read_file_content T (reads' (k0 + k)%nat)
                                                   (FileAnalyzer.path f)) 500) ->
    summaries T reads k0 l = summaries T reads' k0 l.
Proof.
  induction l as [| f l IH]; intros k0 Hsame; [reflexivity |].
  cbn [summaries]. f_equal.
  - unfold summary_entry. cbv zeta.
    pose proof (Hsame 0%nat f eq_refl) as H0. rewrite Nat.add_0_r in H0.
    rewrite H0. reflexivity.
  - apply IH. intros k g Hk.
    replace (S k0 + k)%nat with (k0 + S k)%nat by lia.
    apply Hsame. exact Hk.
Qed.

Lemma summaries_length (reads : nat -> files) :
  forall (l : list FileAnalyzer.file_info) (k0 : nat),
    length (summaries T reads k0 l) = length l.
Proof.
  induction l as [| f l IH]; intros k0; simpl; [| rewrite IH]; reflexivity.
Qed.

End SummaryFacts.




(** X16.  What [main] prints after a scan that succeeds: the folder, the
    window and the number of files found, then one line for each of the
    first five records of the manifest, in its order, then the number of
    the records that are not listed, when there are any, then the analysis.
    No record that is not listed is newer than one that is.  After a scan
    that raises, [main] prints the one line of the error. *)
Theorem display_lists_the_five_newest
        (T : tables) (reads : nat -> files)
        (generate : str -> str -> str) (model : str)
        (fromtimestamp : Z -> option datetime)
        (disk : str -> option Walk.node) (now stamp : datetime)
        (overflow_text : str) (folder_path : str) (days : Z) :
  let shown :=
    Main.present
      (generate_report T reads generate model fromtimestamp disk now stamp
                       overflow_text folder_path days) in
  match FileAnalyzer.find_recent_files fromtimestamp disk now folder_path days
  with
  | Ok manifest =>
    exists head more,
      shown = head ++ map Main.file_line (firstn 5 manifest) ++ more
                   ++ [10 :: lit "=== AI分析結果 ===";
                       analyze_file_changes T reads generate model manifest]
      /\ length head = 5%nat
      /\ (Z.of_nat (length manifest) <= 5 -> more = [])
      /\ (5 < Z.of_nat (length manifest) ->
          more = [lit "... 他"
                  ++ Main.str_of_int (Z.of_nat (length (skipn 5 manifest)))
                  ++ lit "個のファイル"])
      /\ (forall listed unlisted,
             In listed (firstn 5 manifest) -> In unlisted (skipn 5 manifest) ->
             before FileAnalyzer.modified listed unlisted)
  | Raise e =>
    shown = [lit "エラー: " ++ lit "レポート生成中にエラーが発生しました: "
             ++ exception_text overflow_text e]
  end.
Proof.
  intros shown. unfold shown, generate_report.
  destruct (FileAnalyzer.find_recent_files fromtimestamp disk now
                                           folder_path days)
    as [manifest | e] eqn:Hscan; [| reflexivity].
  cbn [Main.present].
  eexists [_; _; _; _; _]. eexists.
  split; [reflexivity |]. split; [reflexivity |].
  split; [| split].
  - intros H. destruct (Z.gtb_spec (Z.of_nat (length manifest)) 5); [lia | reflexivity].
  - intros H. destruct (Z.gtb_spec (Z.of_nat (length manifest)) 5); [| lia].
    rewrite length_skipn.
    replace (Z.of_nat (length manifest - 5)) with (Z.of_nat (length manifest) - 5)
      by lia.
    reflexivity.
  - apply find_recent_files_spec in Hscan.
    destruct Hscan as (folder & cutoff_date & _ & _ & -> & _).
    apply sorted_split. apply sort_reverse_sorted.
Qed.
